(** * PCR-300 virtual control surface: MIDI encoding and key velocity

    A shallow embedding of [midi_mapper_with_pyserial_without_midilearn.py]
    (the serial revision of the panel) and the properties of its protocol
    core: the three senders that pack a message into its 3-byte wire form,
    the velocity derived from the time a key is held, the toggle of the
    push buttons and the book-keeping of the sounding notes.

    Conventions of the embedding.
    - A Python [int] is a [Z]; a Python [float] is a binary64 value of the
      kernel ([PrimFloat.float]), so that [-], [/], [*] and the comparisons
      round and compare as CPython's do.
    - A handler is a function of the application state in a state and
      exception monad: a raised exception keeps the changes made before it,
      as an exception escaping a Tk callback does.
    - The toolkit is outside the model: an event carries what the toolkit
      hands to the handler (the canvas item under the pointer, the clock
      reading), and widget colours and the LCD text are not represented.
    - The serial device is a record holding the bytes written so far and
      the outcomes the driver will give to the writes to come. *)

From Stdlib Require Import ZArith List Bool Lia Floats.
From stdpp Require Import gmap strings list.

#[local] Set Warnings "-inexact-float".
#[local] Open Scope Z_scope.

(** ** Python values and exceptions *)

Module Py.

Inductive exn : Type :=
| ValueError
| OverflowError
| KeyError
| IndexError
| AttributeError
| SerialException.

Inductive result (A : Type) : Type :=
| Ok (a : A)
| Raise (e : exn).
Arguments Ok {A} a.
Arguments Raise {A} e.

Definition rbind {A B} (r : result A) (k : A -> result B) : result B :=
  match r with
  | Ok a => k a
  | Raise e => Raise e
  end.

(** [min(a, b)] and [max(a, b)] of two arguments: CPython keeps the first
    argument unless the second compares strictly below (above) it. *)
Definition min2 {A} (lt : A -> A -> bool) (a b : A) : A := if lt b a then b else a.
Definition max2 {A} (lt : A -> A -> bool) (a b : A) : A := if lt a b then b else a.

Definition fmin : float -> float -> float := min2 PrimFloat.ltb.
Definition fmax : float -> float -> float := max2 PrimFloat.ltb.
Definition zmin : Z -> Z -> Z := min2 Z.ltb.
Definition zmax : Z -> Z -> Z := max2 Z.ltb.

(** The integer part of a finite binary64 value [(-1)^s * m * 2^e]. *)
Definition trunc_finite (s : bool) (m : positive) (e : Z) : Z :=
  let a := match e with
           | Zneg p => Z.shiftr (Zpos m) (Zpos p)
           | _ => Z.shiftl (Zpos m) e
           end in
  if s then - a else a.

(** [int(x)] of a float: truncation toward zero; NaN and the infinities
    raise. *)
Definition int (x : float) : result Z :=
  match Prim2SF x with
  | S754_zero _ => Ok 0
  | S754_finite s m e => Ok (trunc_finite s m e)
  | S754_infinity _ => Raise OverflowError
  | S754_nan => Raise ValueError
  end.

(** [round(x)] of a float with no digits argument: the nearest integer,
    ties to the even one. *)
Definition round_finite (s : bool) (m : positive) (e : Z) : Z :=
  let a := match e with
           | Zneg p =>
               let q := Z.shiftr (Zpos m) (Zpos p) in
               let r := Z.land (Zpos m) (Z.ones (Zpos p)) in
               let half := Z.shiftl 1 (Zpos p - 1) in
               match r ?= half with
               | Lt => q
               | Gt => q + 1
               | Eq => if Z.even q then q else q + 1
               end
           | _ => Z.shiftl (Zpos m) e
           end in
  if s then - a else a.

Definition round (x : float) : result Z :=
  match Prim2SF x with
  | S754_zero _ => Ok 0
  | S754_finite s m e => Ok (round_finite s m e)
  | S754_infinity _ => Raise OverflowError
  | S754_nan => Raise ValueError
  end.

(** [float(n)] of an integer: the nearest binary64 value, ties to even;
    an integer beyond the range of the format raises. *)
Definition float_of_int (n : Z) : result float :=
  match binary_normalize prec emax n 0 false with
  | S754_infinity _ => Raise OverflowError
  | x => Ok (SF2Prim x)
  end.

(** [bytes([b0, b1, ...])]: every element must be in [range(0, 256)]. *)
Definition is_byte (b : Z) : bool := (0 <=? b) && (b <? 256).

Definition bytes (l : list Z) : result (list Z) :=
  if forallb is_byte l then Ok l else Raise ValueError.

End Py.

Import Py.

(** ** Module-level constants (lines 11-52 of the source) *)

Definition SLIDER_VERTICAL_CC_BASE : Z := 0x11.
Definition S9_CC : Z := 0x12.
Definition SLIDER_HORIZONTAL_CC : Z := 0x13.
Definition KNOB_CC_BASE : Z := 0x10.

Definition BUTTON_MAPPINGS : list (string * Z) :=
  [ ("Sustain", 0x40); ("Back", 0x52); ("Stop", 0x52); ("Start", 0x52);
    ("Rec", 0x52);
    ("A1", 0x50); ("A2", 0x50); ("A3", 0x50); ("A4", 0x50); ("A5", 0x50);
    ("A6", 0x50); ("A7", 0x50); ("A8", 0x50); ("A9", 0x53);
    ("B1", 0x51); ("B2", 0x51); ("B3", 0x51); ("B4", 0x51); ("B5", 0x51);
    ("B6", 0x51); ("B7", 0x51); ("B8", 0x51); ("B9", 0x53) ]%string.

Definition CHANNEL : Z := 0.
Definition KEYBOARD_BASE_NOTE : Z := 36.
Definition WHITE_KEYS : nat := 42.

(** ** The wire form of a message

    The three senders build their message the same way:
    [status = KIND | (CHANNEL & 0x0F)] then [bytes([status, d1, d2])].
    [encode] is that computation with the channel left free, as
    [historico/pyserial.py] has it. *)

Module Wire.

Inductive MidiMessage : Type :=
| ControlChange (channel control value : Z)
| NoteOn (channel note velocity : Z)
| NoteOff (channel note velocity : Z).

Definition status_byte (kind channel : Z) : Z := Z.lor kind (Z.land channel 0x0F).

Definition encode (msg : MidiMessage) : result (list Z) :=
  match msg with
  | ControlChange channel control value =>
      bytes [status_byte 0xB0 channel; control; value]
  | NoteOn channel note velocity =>
      bytes [status_byte 0x90 channel; note; velocity]
  | NoteOff channel note velocity =>
      bytes [status_byte 0x80 channel; note; velocity]
  end.

(** Modelled from the spec: the repository has no decoder of its own (the
    bytes received on the MIDI input are parsed by the mido library), so the
    inverse of [encode] is taken from the wire format of the Message Encoder
    contract: the high nibble of the status byte selects the variant, the low
    nibble is the channel, and two data bytes of 7 bits follow. *)
Definition decode (message : list Z) : option MidiMessage :=
  match message with
  | [status; d1; d2] =>
      if (0 <=? d1) && (d1 <? 128) && (0 <=? d2) && (d2 <? 128) then
        let channel := Z.land status 0x0F in
        let kind := Z.land status 0xF0 in
        if kind =? 0x80 then Some (NoteOff channel d1 d2)
        else if kind =? 0x90 then Some (NoteOn channel d1 d2)
        else if kind =? 0xB0 then Some (ControlChange channel d1 d2)
        else None
      else None
  | _ => None
  end.

(** A message whose fields are in the ranges of the data model. *)
Definition well_formed (msg : MidiMessage) : Prop :=
  match msg with
  | ControlChange c d1 d2 | NoteOn c d1 d2 | NoteOff c d1 d2 =>
      0 <= c <= 15 /\ 0 <= d1 <= 127 /\ 0 <= d2 <= 127
  end.

End Wire.

Import Wire.

(** ** Velocity from the time a key is held (lines 478-490; the same lines
    close [CircularKnob.release], 123-131) *)

Module Velocity.

Definition min_duration : float := 0.05%float.
Definition max_duration : float := 0.5%float.

(** [duration = max(min_duration, min(duration, max_duration))] *)
Definition clamp_duration (duration : float) : float :=
  fmax min_duration (fmin duration max_duration).

(** [127 * (1 - (duration - min_duration) / (max_duration - min_duration))] *)
Definition scaled (duration : float) : float :=
  (127 * (1 - (duration - min_duration) / (max_duration - min_duration)))%float.

(** [velocity = int(...)] then [velocity = max(1, min(127, velocity))]. *)
Definition of_duration (duration : float) : result Z :=
  rbind (int (scaled (clamp_duration duration)))
        (fun velocity => Ok (zmax 1 (zmin 127 velocity))).

(** [duration = release_time - press_time], then the lines above. *)
Definition on_release (press_time release_time : float) : result Z :=
  of_duration (release_time - press_time)%float.

(** The estimator as the specification words it: [clamp] is the usual
    three-way clamp, and the conversion to an integer is a parameter
    ([round] in the specification's text). *)
Definition clamp (x lo hi : float) : float :=
  if (x <? lo)%float then lo else if (hi <? x)%float then hi else x.

Definition clampZ (x lo hi : Z) : Z :=
  if x <? lo then lo else if hi <? x then hi else x.

Definition spec_velocity (to_int : float -> result Z)
    (press release : float) : result Z :=
  let duration := clamp (release - press)%float min_duration max_duration in
  rbind (to_int (127 * (1 - (duration - min_duration)
                            / (max_duration - min_duration)))%float)
        (fun velocity => Ok (clampZ velocity 1 127)).

End Velocity.

(** ** The serial device and the application state *)

(** [serial.Serial]: [written] are the messages that went out, oldest
    first; [pending] are the outcomes of the [write] calls to come, as the
    driver will decide them ([true]: the bytes go out, [false]: it raises
    [SerialException]); once the list is used up every write succeeds. *)
Record Serial : Type := MkSerial {
  is_open : bool;
  written : list (list Z);
  pending : list bool
}.

(** [CircularKnob]: the attributes the handlers read and write. [cc_num] is
    the number captured by the knob's [command] closure (line 302),
    [lambda val, cc=cc_num: self.on_knob_change(cc, val)]. *)
Record Knob : Type := MkKnob {
  min_val : Z;
  max_val : Z;
  value : Z;
  press_time : option float;
  cc_num : Z
}.

(** [PCR300Virtual]. [serial_conn] is [None] when the port could not be
    opened. [active_notes] is a [dict]: an association list in insertion
    order, with one entry per key. *)
Record App : Type := MkApp {
  serial_conn : option Serial;
  button_states : gmap string bool;
  key_press_times : gmap Z float;
  white_key_ids : list Z;
  black_key_ids : list Z;
  active_notes : list (Z * Z);
  knob_vars : list Knob
}.

Definition with_serial (s : option Serial) (st : App) : App :=
  MkApp s (button_states st) (key_press_times st) (white_key_ids st)
        (black_key_ids st) (active_notes st) (knob_vars st).
Definition with_button_states (b : gmap string bool) (st : App) : App :=
  MkApp (serial_conn st) b (key_press_times st) (white_key_ids st)
        (black_key_ids st) (active_notes st) (knob_vars st).
Definition with_key_press_times (t : gmap Z float) (st : App) : App :=
  MkApp (serial_conn st) (button_states st) t (white_key_ids st)
        (black_key_ids st) (active_notes st) (knob_vars st).
Definition with_active_notes (d : list (Z * Z)) (st : App) : App :=
  MkApp (serial_conn st) (button_states st) (key_press_times st)
        (white_key_ids st) (black_key_ids st) d (knob_vars st).
Definition with_knob_vars (k : list Knob) (st : App) : App :=
  MkApp (serial_conn st) (button_states st) (key_press_times st)
        (white_key_ids st) (black_key_ids st) (active_notes st) k.

(** *** [dict] operations on [active_notes] *)

Fixpoint dict_set (k v : Z) (d : list (Z * Z)) : list (Z * Z) :=
  match d with
  | [] => [(k, v)]
  | (k', v') :: d' => if k' =? k then (k, v) :: d' else (k', v') :: dict_set k v d'
  end.

Definition dict_mem (k : Z) (d : list (Z * Z)) : bool :=
  existsb (fun kv => fst kv =? k) d.

Definition dict_del (k : Z) (d : list (Z * Z)) : list (Z * Z) :=
  List.filter (fun kv => negb (fst kv =? k)) d.

(** *** The monad of the handlers *)

Definition M (A : Type) : Type := App -> result A * App.

Definition ret {A} (a : A) : M A := fun st => (Ok a, st).
Definition raise {A} (e : exn) : M A := fun st => (Raise e, st).
Definition bind {A B} (m : M A) (k : A -> M B) : M B :=
  fun st => match m st with
            | (Ok a, st') => k a st'
            | (Raise e, st') => (Raise e, st')
            end.
Definition get : M App := fun st => (Ok st, st).
Definition modify (f : App -> App) : M unit := fun st => (Ok tt, f st).
Definition lift {A} (r : result A) : M A := fun st => (r, st).

(** [try: m except SerialException: pass] *)
Definition try_serial (m : M unit) : M unit :=
  fun st => match m st with
            | (Raise SerialException, st') => (Ok tt, st')
            | r => r
            end.

Declare Scope app_scope.
Delimit Scope app_scope with app.
Notation "x <- m ;; k" := (bind m (fun x => k))
  (at level 100, m at next level, right associativity) : app_scope.
Notation "m ;;; k" := (bind m (fun _ => k))
  (at level 100, right associativity) : app_scope.
#[local] Open Scope app_scope.

(** *** The senders (lines 514-560) *)

(** [self.serial_conn and self.serial_conn.is_open] *)
Definition serial_ready (st : App) : bool :=
  match serial_conn st with
  | Some s => is_open s
  | None => false
  end.

(** [self.serial_conn.write(message)] on an open port. *)
Definition serial_write (message : list Z) : M unit :=
  fun st =>
    match serial_conn st with
    | Some s =>
        match pending s with
        | false :: rest =>
            (Raise SerialException,
             with_serial (Some (MkSerial (is_open s) (written s) rest)) st)
        | ok =>
            (Ok tt,
             with_serial
               (Some (MkSerial (is_open s) (written s ++ [message]) (tl ok))) st)
        end
    | None => (Ok tt, st)
    end.

Definition send_control_change (control value : Z) : M unit :=
  st <- get ;;
  if serial_ready st then
    message <- lift (encode (ControlChange CHANNEL control value)) ;;
    try_serial (serial_write message)
  else ret tt.

Definition send_note_on (note velocity : Z) : M unit :=
  st <- get ;;
  if serial_ready st then
    message <- lift (encode (NoteOn CHANNEL note velocity)) ;;
    try_serial
      (serial_write message ;;;
       modify (fun st => with_active_notes (dict_set note velocity (active_notes st)) st))
  else ret tt.

Definition send_note_off (note velocity : Z) : M unit :=
  st <- get ;;
  if serial_ready st then
    message <- lift (encode (NoteOff CHANNEL note velocity)) ;;
    try_serial
      (serial_write message ;;;
       modify (fun st =>
                 if dict_mem note (active_notes st)
                 then with_active_notes (dict_del note (active_notes st)) st
                 else st))
  else ret tt.

(** *** Sliders, knobs and buttons (lines 101-135 and 333-375) *)

(** The [value] a Tk scale passes to its command is the text of a number;
    the handler receives it here already read as a float. *)
Definition on_vertical_slider (cc : Z) (v : float) : M unit :=
  val_int <- lift (int v) ;;
  send_control_change cc val_int.

Definition on_horizontal_slider (v : float) : M unit :=
  val_int <- lift (int v) ;;
  send_control_change SLIDER_HORIZONTAL_CC val_int.

Definition on_knob_change (cc : Z) (v : Z) : M unit :=
  val_int <- lift (rbind (float_of_int v) int) ;;
  send_control_change cc val_int.

(** [self.command(val)] and [self.command(val, extra)] for the closure
    [lambda val, cc=cc_num: self.on_knob_change(cc, val)]: a second
    positional argument takes the place of the captured number. *)
Definition knob_command (k : Knob) (val : Z) (extra : option Z) : M unit :=
  on_knob_change (default (cc_num k) extra) val.

Definition set_knob (i : nat) (k : Knob) : M unit :=
  modify (fun st => with_knob_vars (<[i := k]> (knob_vars st)) st).

Definition the_knob (i : nat) : M Knob :=
  st <- get ;;
  match knob_vars st !! i with
  | Some k => ret k
  | None => raise IndexError
  end.

(** [CircularKnob.set_value] of the knob at position [i] of [knob_vars]. *)
Definition set_value (i : nat) (v : Z) (velocity : option Z) : M unit :=
  k <- the_knob i ;;
  let v := zmax (min_val k) (zmin (max_val k) v) in
  if v =? value k then ret tt
  else
    let k' := MkKnob (min_val k) (max_val k) v (press_time k) (cc_num k) in
    set_knob i k' ;;;
    knob_command k' v velocity.

(** [CircularKnob.click]: [pointer] is what [update_value] derives from
    the pointer position ([None] in the dead sector, where it returns
    without calling [set_value]); [now] is [time.time()]. *)
Definition click (i : nat) (pointer : option Z) (now : float) : M unit :=
  match pointer with
  | Some v => set_value i v None
  | None => ret tt
  end ;;;
  k <- the_knob i ;;
  set_knob i (MkKnob (min_val k) (max_val k) (value k) (Some now) (cc_num k)).

(** [CircularKnob.release] *)
Definition release (i : nat) (now : float) : M unit :=
  k <- the_knob i ;;
  match press_time k with
  | None => raise AttributeError
  | Some pressed =>
      velocity <- lift (Velocity.on_release pressed now) ;;
      knob_command k (value k) (Some velocity)
  end.

Definition on_button_press (btn_name : string) (cc : Z) : M unit :=
  st <- get ;;
  match button_states st !! btn_name with
  | None => raise KeyError
  | Some pressed =>
      modify (with_button_states (<[btn_name := negb pressed]> (button_states st))) ;;;
      let val := if negb pressed then 127 else 0 in
      send_control_change cc val
  end.

(** *** The keyboard (lines 377-511) *)

Definition black_key_offsets : list nat := [1; 2; 4; 5; 6]%nat.
Definition semitone_offsets : list Z := [1; 3; 6; 8; 10].

(** The canvas numbers its items in the order of their creation; [next]
    is the number of the item to come. One octave: seven white keys, then
    the black keys whose position is inside the keyboard. *)
Fixpoint create_octaves (octaves : list nat) (next : Z) (white black : list Z)
  : Z * list Z * list Z :=
  match octaves with
  | [] => (next, white, black)
  | octave :: rest =>
      let white := white ++ map (fun i => next + Z.of_nat i) (seq 0 7) in
      let next := next + 7 in
      let inside :=
        filter (fun offset => negb (WHITE_KEYS <=? octave * 7 + offset)%nat)
               black_key_offsets in
      let black :=
        black ++ map (fun j => next + Z.of_nat j) (seq 0 (length inside)) in
      create_octaves rest (next + Z.of_nat (length inside)) white black
  end.

Definition create_virtual_keyboard : list Z * list Z :=
  let num_octaves := (WHITE_KEYS / 7)%nat in
  let remaining_keys := (WHITE_KEYS mod 7)%nat in
  let '(next, white, black) := create_octaves (seq 0 num_octaves) 1 [] [] in
  (white ++ map (fun i => next + Z.of_nat i) (seq 0 remaining_keys), black).

(** [l.index(x)], guarded in the source by [x in l]. *)
Fixpoint index (x : Z) (l : list Z) : option nat :=
  match l with
  | [] => None
  | y :: l' => if y =? x then Some O else option_map S (index x l')
  end.

Definition white_note (i : nat) : Z := KEYBOARD_BASE_NOTE + Z.of_nat i.

Definition black_note (i : nat) : Z :=
  let octave := (i / 5)%nat in
  let position_in_octave := (i mod 5)%nat in
  KEYBOARD_BASE_NOTE + Z.of_nat octave * 12 + nth position_in_octave semitone_offsets 0.

(** The [if ... in self.white_key_ids / elif ... in self.black_key_ids /
    else: return] of both key handlers. *)
Definition key_note (st : App) (item_id : Z) : option Z :=
  match index item_id (white_key_ids st) with
  | Some i => Some (white_note i)
  | None => option_map black_note (index item_id (black_key_ids st))
  end.

(** [item_id] is [self.kb_canvas.find_closest(event.x, event.y)[0]] and
    [now] is [time.time()]. *)
Definition on_key_press (item_id : Z) (now : float) : M unit :=
  modify (fun st => with_key_press_times (<[item_id := now]> (key_press_times st)) st) ;;;
  st <- get ;;
  match key_note st item_id with
  | Some note =>
      let velocity := 100 in
      send_note_on note velocity
  | None => ret tt
  end.

Definition on_key_release (item_id : Z) (now : float) : M unit :=
  st <- get ;;
  match key_press_times st !! item_id with
  | None => ret tt
  | Some pressed =>
      modify (with_key_press_times (delete item_id (key_press_times st))) ;;;
      velocity <- lift (Velocity.on_release pressed now) ;;
      match key_note st item_id with
      | Some note => send_note_off note velocity
      | None => ret tt
      end
  end.

(** *** Notes received on the MIDI input (lines 618-638 and 713-755) *)

(** [for i, rect_id in enumerate(ids): if note_of(i) == virtual_note:
    act; break] *)
Fixpoint first_key (note_of : nat -> Z) (i : nat) (ids : list Z)
    (virtual_note : Z) (act : M unit) : M unit :=
  match ids with
  | [] => ret tt
  | _ :: rest =>
      if note_of i =? virtual_note then act
      else first_key note_of (S i) rest virtual_note act
  end.

Definition press_virtual_key (virtual_note velocity : Z) : M unit :=
  st <- get ;;
  first_key white_note 0 (white_key_ids st) virtual_note
            (send_note_on virtual_note velocity) ;;;
  first_key black_note 0 (black_key_ids st) virtual_note
            (send_note_on virtual_note velocity).

Definition release_virtual_key (virtual_note velocity : Z) : M unit :=
  st <- get ;;
  first_key white_note 0 (white_key_ids st) virtual_note
            (send_note_off virtual_note velocity) ;;;
  first_key black_note 0 (black_key_ids st) virtual_note
            (send_note_off virtual_note velocity).

(** The note messages mido delivers; the [control_change] branch of the
    callback moves widgets through the toolkit and is not represented. *)
Inductive NoteMessage : Type :=
| note_on (note velocity : Z)
| note_off (note velocity : Z).

(** [self.controller_to_virtual_map.get(note, None)] for the map
    [{note: note for note in range(36, 108)}]. *)
Definition controller_to_virtual_map (note : Z) : option Z :=
  if (36 <=? note) && (note <? 108) then Some note else None.

Definition handle_midi_message (message : NoteMessage) : M unit :=
  match message with
  | note_on note velocity =>
      match controller_to_virtual_map note with
      | Some virtual_note =>
          if virtual_note =? 0 then ret tt
          else if 0 <? velocity then press_virtual_key virtual_note velocity
          else release_virtual_key virtual_note velocity
      | None => ret tt
      end
  | note_off note velocity =>
      match controller_to_virtual_map note with
      | Some virtual_note =>
          if virtual_note =? 0 then ret tt
          else release_virtual_key virtual_note velocity
      | None => ret tt
      end
  end.

(** *** Closing the window (lines 758-769) *)

Fixpoint release_all (notes : list (Z * Z)) : M unit :=
  match notes with
  | [] => ret tt
  | (note, velocity) :: rest => send_note_off note velocity ;;; release_all rest
  end.

Definition close_serial : M unit :=
  modify (fun st =>
            match serial_conn st with
            | Some s => with_serial (Some (MkSerial false (written s) (pending s))) st
            | None => st
            end).

Definition on_closing : M unit :=
  st <- get ;;
  if serial_ready st then
    release_all (active_notes st) ;;;
    close_serial
  else ret tt.

(** *** The state after [__init__] (lines 160-188 and 312-317) *)

Definition init_button_states : gmap string bool :=
  foldl (fun states btn => <[fst btn := false]> states) ∅ BUTTON_MAPPINGS.

Definition init_knobs : list Knob :=
  map (fun i => MkKnob 0 127 64 None (KNOB_CC_BASE + Z.of_nat i)) (seq 0 18).

(** [serial] is what [init_serial] obtained: the open port, or [None]. *)
Definition init_app (serial : option Serial) : App :=
  MkApp serial init_button_states ∅
        (fst create_virtual_keyboard) (snd create_virtual_keyboard)
        [] init_knobs.

(** *** The event loop

    What the toolkit and mido deliver to the handlers. An exception that
    escapes a handler is reported by the toolkit and the loop goes on with
    the state as the handler left it. *)

Inductive event : Type :=
| VerticalSlider (cc : Z) (v : float)
| HorizontalSlider (v : float)
| KnobSet (i : nat) (v : Z)
| KnobClick (i : nat) (pointer : option Z) (now : float)
| KnobRelease (i : nat) (now : float)
| ButtonPress (btn_name : string) (cc : Z)
| KeyPress (item_id : Z) (now : float)
| KeyRelease (item_id : Z) (now : float)
| MidiIn (message : NoteMessage).

Definition handle (e : event) : M unit :=
  match e with
  | VerticalSlider cc v => on_vertical_slider cc v
  | HorizontalSlider v => on_horizontal_slider v
  | KnobSet i v => set_value i v None
  | KnobClick i pointer now => click i pointer now
  | KnobRelease i now => release i now
  | ButtonPress btn_name cc => on_button_press btn_name cc
  | KeyPress item_id now => on_key_press item_id now
  | KeyRelease item_id now => on_key_release item_id now
  | MidiIn message => handle_midi_message message
  end.

Definition dispatch (st : App) (e : event) : App := snd (handle e st).

Definition run (events : list event) (st : App) : App :=
  fold_left dispatch events st.

(** *** What is on the wire *)

(** The messages written to the port so far. *)
Definition wire (st : App) : list (list Z) :=
  match serial_conn st with
  | Some s => written s
  | None => []
  end.

(** The next [n] writes will succeed. *)
Definition writes_ok (n : nat) (st : App) : bool :=
  match serial_conn st with
  | Some s => forallb id (firstn n (pending s))
  | None => true
  end.

(** Every write to come will succeed. *)
Definition all_writes_ok (st : App) : bool :=
  match serial_conn st with
  | Some s => forallb id (pending s)
  | None => true
  end.

(** The notes a receiver of the wire holds sounding: a NoteOn starts its
    note, a NoteOff stops it, anything else leaves the notes as they are.
    The list is kept in the order in which the notes started. *)
Definition sounding_step (notes : list Z) (message : list Z) : list Z :=
  match message with
  | [status; note; _] =>
      let kind := Z.land status 0xF0 in
      if kind =? 0x90 then
        if existsb (Z.eqb note) notes then notes else notes ++ [note]
      else if kind =? 0x80 then
        List.filter (fun n => negb (n =? note)) notes
      else notes
  | _ => notes
  end.

Definition sounding (messages : list (list Z)) : list Z :=
  fold_left sounding_step messages [].

(** The state after a write that went out, and after one that failed. *)
Definition sent (message : list Z) (s : Serial) (st : App) : App :=
  with_serial (Some (MkSerial (is_open s) (written s ++ [message]) (tl (pending s)))) st.
Definition dropped (s : Serial) (st : App) : App :=
  with_serial (Some (MkSerial (is_open s) (written s) (tl (pending s)))) st.

(** *** Relations kept by a handler

    [keeps P m]: whatever [m] returns or raises, the state it leaves is
    related by [P] to the state it started from. *)
Definition keeps (P : App -> App -> Prop) {A} (m : M A) : Prop :=
  forall st r st', m st = (r, st') -> P st st'.

(** [same_panel a b]: [b] differs from [a] at most in the port and in the
    sounding-note table, the two things the senders touch. *)
Definition same_panel (a b : App) : Prop :=
  button_states b = button_states a /\
  key_press_times b = key_press_times a /\
  white_key_ids b = white_key_ids a /\
  black_key_ids b = black_key_ids a /\
  knob_vars b = knob_vars a.

(** [wire_extends Q a b]: the wire of [b] is the wire of [a] followed by
    messages that all satisfy [Q]. *)
Definition wire_extends (Q : list Z -> Prop) (a b : App) : Prop :=
  exists extra, wire b = wire a ++ extra /\ Forall Q extra.

(** *** The sounding notes and the table

    [notes_inv st]: the keys of [active_notes], in their order, are the
    notes that the wire holds sounding; a note has one entry; and every
    entry can be put on the wire again. *)
Definition notes_inv (st : App) : Prop :=
  map fst (active_notes st) = sounding (wire st) /\
  NoDup (map fst (active_notes st)) /\
  Forall (fun kv => is_byte (fst kv) = true /\ is_byte (snd kv) = true)
         (active_notes st).

(** [carries I a b]: if [I] held in [a] it holds in [b]. *)
Definition carries (I : App -> Prop) (a b : App) : Prop := I a -> I b.

(** The NoteOff written for an entry of the table. *)
Definition note_off_of (kv : Z * Z) : list Z := [0x80; fst kv; snd kv].

(** ** Rounding to binary64

    The operations of the format round the exact result to the nearest
    representable value, ties to the even mantissa. The definitions below
    state that rounding on integers: a value is a fraction [N / D] counted
    in units of [2^e]. *)

Definition loc_of (N D : Z) : location :=
  let r := N mod D in
  if r =? 0 then loc_Exact else loc_Inexact (2 * r ?= D).

Definition Zrne (N D : Z) : Z := round_nearest_even (N / D) (loc_of N D).

Definition rec_of (N D : Z) : shr_record := shr_record_of_loc (N / D) (loc_of N D).

Definition round_spec (N D e : Z) : Z * Z :=
  let n := Zdigits2 (N / D) - 53 in
  let m := Zrne N (D * 2 ^ n) in
  if m =? 2 ^ 53 then (2 ^ 52, e + n + 1) else (m, e + n).

Definition SF_of_pair (p : Z * Z) : spec_float :=
  match fst p with
  | Zpos m => if snd p <=? 971 then S754_finite false m (snd p) else S754_infinity false
  | _ => S754_nan
  end.

Definition sv (p : Z * Z) : Z := fst p * 2 ^ (snd p + 1074).

Definition normal (m : positive) (e : Z) : Prop :=
  2 ^ 52 <= Z.pos m < 2 ^ 53 /\ -1074 <= e <= 971.

(** The value of a positive finite number, in units of 2^-1074. *)
Definition svf (m : positive) (e : Z) : Z := Z.pos m * 2 ^ (e + 1074).

Definition rnd (N D : Z) : Z * Z := round_spec N D (-1074).

(** The value of a number that is zero or positive and finite. *)
Definition sval (x : spec_float) : Z :=
  match x with
  | S754_finite false m e => svf m e
  | _ => 0
  end.

(** [+0] or a positive normal number. *)
Definition good (x : spec_float) : Prop :=
  x = S754_zero false \/ exists m e, x = S754_finite false m e /\ normal m e.

(** The constants of the estimator, as the format holds them. *)
Definition m_min : positive := 7205759403792794.   (* 0.05 = m_min * 2^-57 *)
Definition m_max : positive := 4503599627370496.   (* 0.5 = 2^52 * 2^-53 *)
Definition m_span : positive := 8106479329266893.  (* 0.5 - 0.05, rounded *)
Definition m_one : positive := 4503599627370496.   (* 1 = 2^52 * 2^-52 *)
Definition m_127 : positive := 8936830510563328.   (* 127 = m_127 * 2^-46 *)

Definition S_min : Z := svf m_min (-57).
Definition S_max : Z := svf m_max (-53).
Definition S_span : Z := svf m_span (-54).
Definition S_one : Z := svf m_one (-52).
Definition S_127 : Z := svf m_127 (-46).

Definition G1 (s : Z) : Z := if s =? S_min then 0 else sv (rnd (s - S_min) 1).
Definition G2 (a : Z) : Z := if a =? 0 then 0 else sv (rnd (a * 2 ^ 1074) S_span).
Definition G3 (b : Z) : Z :=
  if b =? 0 then S_one else if b =? S_one then 0 else sv (rnd (S_one - b) 1).
Definition G4 (e : Z) : Z := if e =? 0 then 0 else sv (rnd (S_127 * e) (2 ^ 1074)).

Definition dom1 (s : Z) : Prop := s = S_min \/ (2 ^ 1017 <= s - S_min /\ s <= S_max).
Definition dom2 (a : Z) : Prop := a = 0 \/ (2 ^ 1017 <= a <= S_span).
Definition dom3 (b : Z) : Prop :=
  b = 0 \/ b = S_one \/ (2 ^ 1018 <= b /\ 2 ^ 966 <= S_one - b).
Definition dom4 (e : Z) : Prop := e = 0 \/ (2 ^ 966 <= e <= S_one).

Definition c_min : spec_float := S754_finite false m_min (-57).
Definition c_max : spec_float := S754_finite false m_max (-53).
Definition c_span : spec_float := S754_finite false m_span (-54).
Definition c_one : spec_float := S754_finite false m_one (-52).
Definition c_127 : spec_float := S754_finite false m_127 (-46).


(** The whole pipeline on scaled values: the truncated velocity of the
    duration whose scaled value is [s], before the final clamp. *)
Definition V (s : Z) : Z := G4 (G3 (G2 (G1 s))) / 2 ^ 1074.

(** The scaled value [s] stays in the domain of every stage. *)
Definition chain (s : Z) : Prop :=
  dom1 s /\ dom2 (G1 s) /\ dom3 (G2 (G1 s)) /\ dom4 (G3 (G2 (G1 s))).

(** ** Predicates on messages, runs, knobs and keys *)

(** A message of the panel: a status byte 0x80, 0x90 or 0xB0 (channel 0)
    and two data bytes that [bytes] accepted. *)
Definition wire_message (message : list Z) : Prop :=
  exists status d1 d2,
    message = [status; d1; d2] /\ In status [0x80; 0x90; 0xB0] /\
    is_byte d1 = true /\ is_byte d2 = true.

(** [quiet a b]: if the port of [a] is missing or closed, [b] has the same
    port, with the same messages written, and the same sounding notes. *)
Definition quiet (a b : App) : Prop :=
  serial_ready a = false ->
  serial_conn b = serial_conn a /\ active_notes b = active_notes a.

(** Knob [i] as [create_main_interface] makes it (lines 298-305), with any
    value inside its range. *)
Definition knob_ok (i : nat) (k : Knob) : Prop :=
  min_val k = 0 /\ max_val k = 127 /\ 0 <= value k <= 127 /\
  cc_num k = KNOB_CC_BASE + Z.of_nat i.

Definition knobs_inv (st : App) : Prop :=
  length (knob_vars st) = 18%nat /\
  forall i k, knob_vars st !! i = Some k -> knob_ok i k.

Definition same_knobs (a b : App) : Prop := knob_vars b = knob_vars a.

(** Whether one of the keys [ids] carries [virtual_note]: the condition
    under which the loop [for i, rect_id in enumerate(ids)] of
    [press_virtual_key] and [release_virtual_key] reaches its [break]. *)
Definition carries_note (note_of : nat -> Z) (ids : list Z) (virtual_note : Z) : bool :=
  existsb (fun i => note_of i =? virtual_note) (seq 0 (length ids)).

(** The ControlChange number given to vertical slider [i] (lines 264-268):
    [SLIDER_VERTICAL_CC_BASE + i] for the first eight, [S9_CC] for the
    ninth. *)
Definition vertical_slider_cc (i : nat) : Z :=
  if (i <? 8)%nat then SLIDER_VERTICAL_CC_BASE + Z.of_nat i else S9_CC.

(** The number that [on_vertical_slider] shows on the display for the
    slider whose ControlChange number is [cc_num] (lines 340-343). *)
Definition slider_number (cc_num : Z) : Z :=
  if cc_num =? S9_CC then 9 else cc_num - SLIDER_VERTICAL_CC_BASE + 1.

(** The entries of [notes] whose NoteOff goes out when the entries are
    sent one after the other and the writes have the outcomes [outcomes]
    (a write beyond the list succeeds), and the entries whose NoteOff is
    refused. *)
Fixpoint flushed (notes : list (Z * Z)) (outcomes : list bool) : list (Z * Z) :=
  match notes with
  | [] => []
  | kv :: rest =>
      if hd true outcomes then kv :: flushed rest (tl outcomes)
      else flushed rest (tl outcomes)
  end.

Fixpoint refused (notes : list (Z * Z)) (outcomes : list bool) : list (Z * Z) :=
  match notes with
  | [] => []
  | kv :: rest =>
      if hd true outcomes then refused rest (tl outcomes)
      else kv :: refused rest (tl outcomes)
  end.
(** * Properties *)

(** ** Sample evaluations *)

Example int_examples :
  (int 63.5%float, int (-2.75)%float, int 127%float, int 0%float)
  = (Ok 63, Ok (-2), Ok 127, Ok 0).
Proof. vm_compute. reflexivity. Qed.

Example round_examples :
  (round 63.5%float, round 62.5%float, round 112.9%float, round (-0.5)%float)
  = (Ok 64, Ok 62, Ok 113, Ok 0).
Proof. vm_compute. reflexivity. Qed.

Example velocity_examples :
  (Velocity.on_release 0%float 0.05%float, Velocity.on_release 0%float 0.5%float,
   Velocity.on_release 0%float 0.275%float, Velocity.on_release 0%float 0.1%float)
  = (Ok 127, Ok 1, Ok 63, Ok 112).
Proof. vm_compute. reflexivity. Qed.

Example keyboard_layout :
  length (fst create_virtual_keyboard) = 42%nat /\
  length (snd create_virtual_keyboard) = 30%nat /\
  firstn 9 (fst create_virtual_keyboard) = [1; 2; 3; 4; 5; 6; 7; 13; 14] /\
  firstn 6 (snd create_virtual_keyboard) = [8; 9; 10; 11; 12; 20].
Proof. vm_compute. auto. Qed.

(** ** The wire form *)

Section WireFacts.

Lemma is_byte_data (d : Z) : 0 <= d <= 127 -> is_byte d = true.
Proof. intros H. unfold is_byte. apply andb_true_iff. split; [apply Z.leb_le | apply Z.ltb_lt]; lia. Qed.

(** The sixteen channels, one by one. *)
Lemma channel_cases (channel : Z) (P : Z -> Prop) :
  0 <= channel <= 15 ->
  Forall P [0; 1; 2; 3; 4; 5; 6; 7; 8; 9; 10; 11; 12; 13; 14; 15] ->
  P channel.
Proof.
  intros Hc HP. rewrite List.Forall_forall in HP. apply HP. simpl. lia.
Qed.

Lemma status_byte_channel (kind channel : Z) :
  0 <= channel <= 15 -> status_byte kind channel = Z.lor kind channel.
Proof.
  intros Hc. unfold status_byte. f_equal.
  change 0x0F with (Z.ones 4). rewrite Z.land_ones by lia.
  apply Z.mod_small. change (2 ^ 4) with 16. lia.
Qed.

Lemma status_byte_is_byte (kind channel : Z) :
  In kind [0x80; 0x90; 0xB0] -> 0 <= channel <= 15 ->
  is_byte (status_byte kind channel) = true.
Proof.
  intros Hk Hc. pattern channel. apply channel_cases; [exact Hc |].
  simpl in Hk. destruct Hk as [<- | [<- | [<- | []]]];
    repeat constructor.
Qed.

Lemma bytes_ok (kind channel d1 d2 : Z) :
  In kind [0x80; 0x90; 0xB0] -> 0 <= channel <= 15 ->
  0 <= d1 <= 127 -> 0 <= d2 <= 127 ->
  bytes [status_byte kind channel; d1; d2] = Ok [Z.lor kind channel; d1; d2].
Proof.
  intros Hk Hc H1 H2. unfold bytes. cbn [forallb].
  rewrite (status_byte_is_byte _ _ Hk Hc), (is_byte_data _ H1), (is_byte_data _ H2).
  cbn. now rewrite (status_byte_channel _ _ Hc).
Qed.

Lemma status_split (kind channel : Z) :
  In kind [0x80; 0x90; 0xB0] -> 0 <= channel <= 15 ->
  Z.land (Z.lor kind channel) 0xF0 = kind /\
  Z.land (Z.lor kind channel) 0x0F = channel.
Proof.
  intros Hk Hc. pattern channel. apply channel_cases; [exact Hc |].
  simpl in Hk. destruct Hk as [<- | [<- | [<- | []]]];
    repeat constructor.
Qed.

End WireFacts.

Lemma encode_wire_form_aux (channel d1 d2 : Z) :
  0 <= channel <= 15 -> 0 <= d1 <= 127 -> 0 <= d2 <= 127 ->
  encode (NoteOff channel d1 d2) = Ok [Z.lor 0x80 channel; d1; d2] /\
  encode (NoteOn channel d1 d2) = Ok [Z.lor 0x90 channel; d1; d2] /\
  encode (ControlChange channel d1 d2) = Ok [Z.lor 0xB0 channel; d1; d2].
Proof.
  intros Hc H1 H2. repeat split; cbn [encode]; apply bytes_ok; simpl; auto.
Qed.

(** C2. Encoding a message whose channel is in 0..15 and whose data bytes
    are in 0..127 gives exactly three bytes: the status byte, [0x80 |
    channel] for NoteOff, [0x90 | channel] for NoteOn and [0xB0 | channel]
    for ControlChange, then the two data bytes in the order control/note,
    value/velocity. *)
Theorem encode_wire_form (channel d1 d2 : Z) :
  0 <= channel <= 15 -> 0 <= d1 <= 127 -> 0 <= d2 <= 127 ->
  encode (NoteOff channel d1 d2) = Ok [Z.lor 0x80 channel; d1; d2] /\
  encode (NoteOn channel d1 d2) = Ok [Z.lor 0x90 channel; d1; d2] /\
  encode (ControlChange channel d1 d2) = Ok [Z.lor 0xB0 channel; d1; d2] /\
  forall msg bs,
    In msg [NoteOff channel d1 d2; NoteOn channel d1 d2; ControlChange channel d1 d2] ->
    encode msg = Ok bs -> length bs = 3%nat /\ forallb is_byte bs = true.
Proof.
  intros Hc H1 H2.
  destruct (encode_wire_form_aux channel d1 d2 Hc H1 H2) as (Hoff & Hon & Hcc).
  repeat split; try assumption.
  - destruct H as [<- | [<- | [<- | []]]]; cbn [encode] in H0;
      unfold bytes in H0; destruct (forallb _ _); inversion H0; reflexivity.
  - destruct H as [<- | [<- | [<- | []]]]; cbn [encode] in H0;
      unfold bytes in H0; destruct (forallb _ _) eqn:E; inversion H0; subst; exact E.
Qed.

Lemma encode_wire_form_witness :
  encode (NoteOff 9 60 64) = Ok [0x89; 60; 64] /\
  encode (NoteOn 9 60 64) = Ok [0x99; 60; 64] /\
  encode (ControlChange 9 60 64) = Ok [0xB9; 60; 64].
Proof.
  destruct (encode_wire_form 9 60 64 ltac:(lia) ltac:(lia) ltac:(lia))
    as (Hoff & Hon & Hcc & _).
  exact (conj Hoff (conj Hon Hcc)).
Defined.

(** C8. Decoding the three bytes of an encoded ControlChange, NoteOn or
    NoteOff whose channel is in 0..15 and whose data bytes are in 0..127
    gives back the message: its variant, channel and two data fields. *)
Theorem decode_encode (msg : MidiMessage) :
  well_formed msg ->
  exists bs, encode msg = Ok bs /\ decode bs = Some msg.
Proof.
  intros Hwf.
  assert (Hdata : forall d1 d2, 0 <= d1 <= 127 -> 0 <= d2 <= 127 ->
            (0 <=? d1) && (d1 <? 128) && (0 <=? d2) && (d2 <? 128) = true).
  { intros d1 d2 H1 H2. repeat (apply andb_true_iff; split);
      first [apply Z.leb_le | apply Z.ltb_lt]; lia. }
  destruct msg as [c d1 d2 | c d1 d2 | c d1 d2]; destruct Hwf as (Hc & H1 & H2);
    eexists; (split; [cbn [encode]; apply bytes_ok; simpl; auto |]);
    cbn [decode]; rewrite (Hdata _ _ H1 H2).
  - destruct (status_split 0xB0 c ltac:(simpl; auto) Hc) as [-> ->]. reflexivity.
  - destruct (status_split 0x90 c ltac:(simpl; auto) Hc) as [-> ->]. reflexivity.
  - destruct (status_split 0x80 c ltac:(simpl; auto) Hc) as [-> ->]. reflexivity.
Qed.

Lemma decode_encode_witness :
  exists bs, encode (NoteOn 3 72 100) = Ok bs /\ decode bs = Some (NoteOn 3 72 100).
Proof.
  apply (decode_encode (NoteOn 3 72 100)). simpl. lia.
Defined.

(** ** The senders, step by step *)

Section Senders.

Lemma serial_ready_open (st : App) :
  serial_ready st = true <-> exists s, serial_conn st = Some s /\ is_open s = true.
Proof.
  unfold serial_ready. destruct (serial_conn st) as [s|].
  - split; [eauto | intros (s' & [= <-] & H); exact H].
  - split; [discriminate | intros (s' & [=] & _)].
Qed.

Lemma serial_write_cases (message : list Z) (st : App) (s : Serial) :
  serial_conn st = Some s ->
  serial_write message st =
    if hd true (pending s) then (Ok tt, sent message s st)
    else (Raise SerialException, dropped s st).
Proof.
  intros Hs. unfold serial_write, sent, dropped. rewrite Hs.
  destruct (pending s) as [|[] rest]; reflexivity.
Qed.

Lemma send_control_change_cases (control v : Z) (st : App) :
  send_control_change control v st =
    match serial_conn st with
    | Some s =>
        if is_open s then
          match encode (ControlChange CHANNEL control v) with
          | Ok message =>
              (Ok tt, if hd true (pending s) then sent message s st else dropped s st)
          | Raise e => (Raise e, st)
          end
        else (Ok tt, st)
    | None => (Ok tt, st)
    end.
Proof.
  unfold send_control_change, bind, get, lift, ret, serial_ready, try_serial.
  destruct (serial_conn st) as [s|] eqn:Hs; [| reflexivity].
  destruct (is_open s); [| reflexivity].
  destruct (encode _) as [message|e]; [| reflexivity].
  rewrite (serial_write_cases _ _ _ Hs). destruct (hd true (pending s)); reflexivity.
Qed.

Lemma send_note_on_cases (note velocity : Z) (st : App) :
  send_note_on note velocity st =
    match serial_conn st with
    | Some s =>
        if is_open s then
          match encode (NoteOn CHANNEL note velocity) with
          | Ok message =>
              (Ok tt,
               if hd true (pending s)
               then with_active_notes (dict_set note velocity (active_notes st))
                                      (sent message s st)
               else dropped s st)
          | Raise e => (Raise e, st)
          end
        else (Ok tt, st)
    | None => (Ok tt, st)
    end.
Proof.
  unfold send_note_on, bind, get, lift, ret, serial_ready, try_serial, modify.
  destruct (serial_conn st) as [s|] eqn:Hs; [| reflexivity].
  destruct (is_open s); [| reflexivity].
  destruct (encode _) as [message|e]; [| reflexivity].
  rewrite (serial_write_cases _ _ _ Hs). destruct (hd true (pending s)); reflexivity.
Qed.

Lemma send_note_off_cases (note velocity : Z) (st : App) :
  send_note_off note velocity st =
    match serial_conn st with
    | Some s =>
        if is_open s then
          match encode (NoteOff CHANNEL note velocity) with
          | Ok message =>
              (Ok tt,
               if hd true (pending s)
               then (if dict_mem note (active_notes st)
                     then with_active_notes (dict_del note (active_notes st))
                                            (sent message s st)
                     else sent message s st)
               else dropped s st)
          | Raise e => (Raise e, st)
          end
        else (Ok tt, st)
    | None => (Ok tt, st)
    end.
Proof.
  unfold send_note_off, bind, get, lift, ret, serial_ready, try_serial, modify.
  destruct (serial_conn st) as [s|] eqn:Hs; [| reflexivity].
  destruct (is_open s); [| reflexivity].
  destruct (encode _) as [message|e]; [| reflexivity].
  rewrite (serial_write_cases _ _ _ Hs). destruct (hd true (pending s)); reflexivity.
Qed.

End Senders.

(** ** Properties kept by every step of a handler *)

Section Keeps.

Variable P : App -> App -> Prop.
Hypothesis P_refl : forall st, P st st.
Hypothesis P_trans : forall a b c, P a b -> P b c -> P a c.

Lemma keeps_ret {A} (a : A) : keeps P (ret a).
Proof using P_refl. intros st r st' [= <- <-]. apply P_refl. Qed.

Lemma keeps_raise {A} (e : exn) : keeps P (@raise A e).
Proof using P_refl. intros st r st' [= <- <-]. apply P_refl. Qed.

Lemma keeps_lift {A} (x : result A) : keeps P (lift x).
Proof using P_refl. intros st r st' [= <- <-]. apply P_refl. Qed.

Lemma keeps_get : keeps P get.
Proof using P_refl. intros st r st' [= <- <-]. apply P_refl. Qed.

Lemma keeps_modify (f : App -> App) : (forall st, P st (f st)) -> keeps P (modify f).
Proof. intros Hf st r st' [= <- <-]. apply Hf. Qed.

Lemma keeps_bind {A B} (m : M A) (k : A -> M B) :
  keeps P m -> (forall a, keeps P (k a)) -> keeps P (bind m k).
Proof using P_trans.
  intros Hm Hk st r st'. unfold bind.
  destruct (m st) as [[a|e] st1] eqn:E; intros H.
  - eapply P_trans; [eapply Hm, E | eapply Hk, H].
  - injection H as <- <-. eapply Hm, E.
Qed.

Lemma keeps_first_key (note_of : nat -> Z) (ids : list Z) (vn : Z) (act : M unit) :
  keeps P act -> forall i, keeps P (first_key note_of i ids vn act).
Proof using P_refl.
  intros Hact. induction ids as [|id ids IH]; intros i; cbn [first_key].
  - apply keeps_ret.
  - destruct (note_of i =? vn); [exact Hact | apply IH].
Qed.

End Keeps.

(** ** What the senders leave alone *)

Lemma same_panel_refl (st : App) : same_panel st st.
Proof. repeat split. Qed.

Lemma same_panel_trans (a b c : App) : same_panel a b -> same_panel b c -> same_panel a c.
Proof.
  intros (H1 & H2 & H3 & H4 & H5) (K1 & K2 & K3 & K4 & K5).
  repeat split; congruence.
Qed.

Ltac sender_frame :=
  intros st r st';
  first [rewrite send_control_change_cases
        | rewrite send_note_on_cases
        | rewrite send_note_off_cases];
  repeat match goal with
         | |- context [match ?x with _ => _ end] => destruct x
         end;
  intros [= <- <-]; repeat split.

Lemma send_control_change_frame (control v : Z) :
  keeps same_panel (send_control_change control v).
Proof. sender_frame. Qed.

Lemma send_note_on_frame (note velocity : Z) :
  keeps same_panel (send_note_on note velocity).
Proof. sender_frame. Qed.

Lemma send_note_off_frame (note velocity : Z) :
  keeps same_panel (send_note_off note velocity).
Proof. sender_frame. Qed.

(** ** Key release *)

(** C5. A key release whose key has no press recorded returns at once:
    nothing is written and the state is the one it started from. When a
    press is recorded, the release removes that record from the table
    (and no other), whatever happens afterwards. *)
Theorem release_without_press (st : App) (item_id : Z) (now : float) :
  match key_press_times st !! item_id with
  | None => on_key_release item_id now st = (Ok tt, st)
  | Some _ =>
      key_press_times (snd (on_key_release item_id now st))
      = delete item_id (key_press_times st)
  end.
Proof.
  unfold on_key_release, bind, get.
  destruct (key_press_times st !! item_id) as [pressed|] eqn:Hp; [| reflexivity].
  cbn [modify]. unfold lift.
  destruct (Velocity.on_release pressed now) as [velocity|e]; [| reflexivity].
  destruct (key_note st item_id) as [note|]; [| reflexivity].
  destruct (send_note_off note velocity _) as [r st'] eqn:E.
  apply send_note_off_frame in E. destruct E as (_ & E & _). exact E.
Qed.

(** ** Buttons *)

Section Buttons.

Lemma init_flags_fold (l : list (string * Z)) (m : gmap string bool) (name : string) :
  foldl (fun states btn => <[fst btn := false]> states) m l !! name
  = if decide (name ∈ map fst l) then Some false else m !! name.
Proof.
  revert m. induction l as [|[n c] l IH]; intros m; cbn [foldl map fst].
  - destruct (decide _) as [H|H]; [inversion H | reflexivity].
  - rewrite IH. destruct (decide (name ∈ map fst l)) as [H|H].
    + rewrite decide_True; [reflexivity | now right].
    + destruct (decide (name = n)) as [->|Hne].
      * rewrite lookup_insert_eq, decide_True; [reflexivity | now left].
      * rewrite lookup_insert_ne by congruence.
        rewrite decide_False; [reflexivity |].
        intros Hin. inversion Hin; subst; contradiction.
Qed.

Lemma init_flags (serial : option Serial) (name : string) :
  name ∈ map fst BUTTON_MAPPINGS ->
  button_states (init_app serial) !! name = Some false.
Proof.
  intros Hin. cbn [init_app button_states]. unfold init_button_states.
  rewrite init_flags_fold. now rewrite decide_True.
Qed.

Lemma on_button_press_cases (btn_name : string) (cc : Z) (st : App) :
  on_button_press btn_name cc st =
    match button_states st !! btn_name with
    | None => (Raise KeyError, st)
    | Some pressed =>
        send_control_change cc (if negb pressed then 127 else 0)
          (with_button_states (<[btn_name := negb pressed]> (button_states st)) st)
    end.
Proof.
  unfold on_button_press, bind, get, raise, modify.
  destruct (button_states st !! btn_name); reflexivity.
Qed.

Lemma encode_cc_here (control v : Z) :
  0 <= control <= 127 -> 0 <= v <= 127 ->
  encode (ControlChange CHANNEL control v) = Ok [0xB0; control; v].
Proof.
  intros Hc Hv.
  destruct (encode_wire_form_aux CHANNEL control v) as (_ & _ & H); auto.
  unfold CHANNEL; lia.
Qed.

End Buttons.

(** One activation of a button on an open port whose next write succeeds:
    the flag is flipped and the ControlChange goes out with 127 for a flag
    that became true and 0 for a flag that became false. *)
Lemma on_button_press_open (btn_name : string) (cc : Z) (st : App) (s : Serial)
    (pressed : bool) :
  serial_conn st = Some s -> is_open s = true -> hd true (pending s) = true ->
  button_states st !! btn_name = Some pressed -> 0 <= cc <= 127 ->
  on_button_press btn_name cc st =
    (Ok tt,
     sent [0xB0; cc; if negb pressed then 127 else 0] s
          (with_button_states (<[btn_name := negb pressed]> (button_states st)) st)).
Proof.
  intros Hs Ho Hw Hb Hcc. rewrite on_button_press_cases, Hb.
  rewrite send_control_change_cases. cbn [with_button_states serial_conn].
  rewrite Hs, Ho, encode_cc_here by (try destruct (negb pressed); lia).
  rewrite Hw. reflexivity.
Qed.

(** C4. In the initial state every button's flag is false. From a state in
    which the flag of a button is false (the initial state is one), two
    activations of that button in a row write ControlChange 127 and then
    ControlChange 0, in that order. The flags are kept per name: the flag of
    any other button is what it was, and the message that the other button
    writes when it is activated next is the one it would have written
    before. *)
Theorem button_toggle :
  (forall serial btn_name,
      btn_name ∈ map fst BUTTON_MAPPINGS ->
      button_states (init_app serial) !! btn_name = Some false) /\
  (forall (st : App) (s : Serial) (btn_name : string) (cc : Z),
      serial_conn st = Some s -> is_open s = true -> writes_ok 2 st = true ->
      button_states st !! btn_name = Some false -> 0 <= cc <= 127 ->
      exists st1 st2,
        on_button_press btn_name cc st = (Ok tt, st1) /\
        on_button_press btn_name cc st1 = (Ok tt, st2) /\
        wire st1 = wire st ++ [[0xB0; cc; 127]] /\
        wire st2 = wire st ++ [[0xB0; cc; 127]; [0xB0; cc; 0]] /\
        button_states st1 !! btn_name = Some true /\
        button_states st2 !! btn_name = Some false /\
        forall other cc',
          other <> btn_name -> 0 <= cc' <= 127 ->
          button_states st1 !! other = button_states st !! other /\
          button_states st2 !! other = button_states st !! other /\
          forall after before,
            on_button_press other cc' st1 = (Ok tt, after) ->
            on_button_press other cc' st = (Ok tt, before) ->
            exists message,
              wire after = wire st1 ++ [message] /\
              wire before = wire st ++ [message]).
Proof.
  split; [exact init_flags |].
  intros st s btn_name cc Hs Ho Hw Hb Hcc.
  assert (Hw1 : hd true (pending s) = true /\ hd true (tl (pending s)) = true).
  { unfold writes_ok in Hw. rewrite Hs in Hw.
    destruct (pending s) as [|[] [|[] rest]]; cbn in Hw |- *; auto; discriminate. }
  destruct Hw1 as [Hw1 Hw2].
  pose proof (on_button_press_open btn_name cc st s false Hs Ho Hw1 Hb Hcc) as H1.
  cbn [negb] in H1.
  set (st1 := sent [0xB0; cc; 127] s
                (with_button_states (<[btn_name := true]> (button_states st)) st)) in *.
  set (s1 := MkSerial (is_open s) (written s ++ [[0xB0; cc; 127]]) (tl (pending s))).
  assert (Hs1 : serial_conn st1 = Some s1) by reflexivity.
  assert (Hb1 : button_states st1 !! btn_name = Some true)
    by (cbn; apply lookup_insert_eq).
  pose proof (on_button_press_open btn_name cc st1 s1 true Hs1 Ho Hw2 Hb1 Hcc) as H2.
  cbn [negb] in H2.
  eexists st1, _. split; [exact H1 |]. split; [exact H2 |].
  split; [unfold wire; cbn; now rewrite Hs |].
  split; [unfold wire; cbn; rewrite Hs; now rewrite <- app_assoc |].
  split; [exact Hb1 |].
  split; [cbn; apply lookup_insert_eq |].
  intros other cc' Hne Hcc'.
  assert (Ho1 : button_states st1 !! other = button_states st !! other)
    by (cbn; now apply lookup_insert_ne).
  split; [exact Ho1 |].
  split; [cbn; rewrite !lookup_insert_ne by congruence; reflexivity |].
  intros after before Ha Hbf.
  rewrite on_button_press_cases in Ha, Hbf. rewrite Ho1 in Ha.
  destruct (button_states st !! other) as [b|]; [| discriminate].
  rewrite send_control_change_cases in Ha, Hbf.
  cbn [with_button_states serial_conn] in Ha, Hbf.
  rewrite Hs1 in Ha. rewrite Hs in Hbf. cbn [is_open s1] in Ha.
  rewrite Ho, encode_cc_here in Ha, Hbf by (try destruct (negb b); lia).
  cbn [pending s1] in Ha. rewrite Hw2 in Ha. rewrite Hw1 in Hbf.
  injection Ha as <-. injection Hbf as <-.
  eexists. split; unfold wire; cbn; [reflexivity | now rewrite Hs].
Qed.

Lemma button_toggle_witness :
  let st := init_app (Some (MkSerial true [] [])) in
  exists st1 st2,
    on_button_press "A1" 0x50 st = (Ok tt, st1) /\
    on_button_press "A1" 0x50 st1 = (Ok tt, st2) /\
    wire st1 = [[0xB0; 0x50; 127]] /\
    wire st2 = [[0xB0; 0x50; 127]; [0xB0; 0x50; 0]].
Proof.
  intros st.
  destruct button_toggle as [Hinit Htoggle].
  destruct (Htoggle st (MkSerial true [] []) "A1"%string 0x50)
    as (st1 & st2 & H1 & H2 & W1 & W2 & _).
  - reflexivity.
  - reflexivity.
  - reflexivity.
  - apply Hinit. cbn. do 5 right. left.
  - lia.
  - exists st1, st2. auto.
Defined.

(** ** Control values *)

Section ControlValues.

Lemma below_128_cases (P : Z -> bool) :
  forallb P (map Z.of_nat (seq 0 128)) = true ->
  forall v, 0 <= v <= 127 -> P v = true.
Proof.
  intros H v Hv. rewrite forallb_forall in H. apply H.
  replace v with (Z.of_nat (Z.to_nat v)) by lia.
  apply in_map, in_seq. lia.
Qed.

(** [int(float(v))] is [v] for the values of a control. *)
Lemma int_float_small (v : Z) :
  0 <= v <= 127 -> rbind (float_of_int v) int = Ok v.
Proof.
  intros Hv.
  pose (P := fun v => match rbind (float_of_int v) int with
                      | Ok w => w =? v
                      | Raise _ => false
                      end).
  assert (HP : P v = true) by (apply below_128_cases; [vm_compute; reflexivity | exact Hv]).
  unfold P in HP. destruct (rbind _ _) as [w|]; [| discriminate].
  apply Z.eqb_eq in HP. now subst.
Qed.

Lemma zclamp_range (lo hi v : Z) :
  lo <= hi -> zmax lo (zmin hi v) = Z.max lo (Z.min hi v).
Proof.
  intros H. unfold zmax, zmin, max2, min2.
  destruct (Z.ltb_spec v hi), (Z.ltb_spec lo v); try lia;
    destruct (Z.ltb_spec lo hi); lia.
Qed.

Lemma on_knob_change_small (cc v : Z) (st : App) :
  0 <= v <= 127 -> on_knob_change cc v st = send_control_change cc v st.
Proof.
  intros Hv. unfold on_knob_change, bind, lift. now rewrite int_float_small.
Qed.

Lemma send_control_change_byte (control v : Z) (st : App) (s : Serial) :
  serial_conn st = Some s -> is_open s = true -> hd true (pending s) = true ->
  0 <= control <= 255 -> 0 <= v <= 255 ->
  send_control_change control v st = (Ok tt, sent [0xB0; control; v] s st).
Proof.
  intros Hs Ho Hw Hc Hv. rewrite send_control_change_cases, Hs, Ho.
  cbn [encode]. unfold bytes. cbn [forallb]. unfold is_byte at 2 3.
  replace ((0 <=? control) && (control <? 256)) with true by (symmetry; apply andb_true_iff; split; [apply Z.leb_le | apply Z.ltb_lt]; lia).
  replace ((0 <=? v) && (v <? 256)) with true by (symmetry; apply andb_true_iff; split; [apply Z.leb_le | apply Z.ltb_lt]; lia).
  cbn. now rewrite Hw.
Qed.

Lemma send_control_change_not_byte (control v : Z) (st : App) (s : Serial) :
  serial_conn st = Some s -> is_open s = true ->
  v < 0 \/ 255 < v ->
  send_control_change control v st = (Raise ValueError, st).
Proof.
  intros Hs Ho Hv. rewrite send_control_change_cases, Hs, Ho.
  cbn [encode]. unfold bytes. cbn [forallb]. unfold is_byte at 3.
  replace ((0 <=? v) && (v <? 256)) with false.
  - now rewrite !andb_false_r.
  - symmetry. apply andb_false_iff.
    destruct Hv; [left; apply Z.leb_gt | right; apply Z.ltb_ge]; lia.
Qed.

End ControlValues.

(** C7, as the claim states it, fails on the encoder: on an open port
    [send_control_change] writes the value 200 as it is, and the value 300
    raises [ValueError]. *)
Lemma send_control_change_unclamped :
  let st := init_app (Some (MkSerial true [] [])) in
  wire (snd (send_control_change 0x13 200 st)) = [[0xB0; 0x13; 200]] /\
  fst (send_control_change 0x13 300 st) = Raise ValueError.
Proof. vm_compute. split; reflexivity. Qed.

(** C7, amended. The clamp is in [CircularKnob.set_value]: whatever value a
    knob of range 0..127 is set to, the value stored and the value of the
    ControlChange written for it are that value clamped to 0..127, and no
    exception is raised. [send_control_change] does not clamp: on an open
    port it writes any value in 0..255 as it is, and it raises
    [ValueError], writing nothing, for a value outside 0..255. *)
Theorem control_value_clamping (st : App) (s : Serial) :
  serial_conn st = Some s -> is_open s = true -> hd true (pending s) = true ->
  (forall (i : nat) (k : Knob) (v : Z),
      knob_vars st !! i = Some k ->
      min_val k = 0 -> max_val k = 127 -> 0 <= cc_num k <= 127 ->
      let clamped := Z.max 0 (Z.min 127 v) in
      exists st',
        set_value i v None st = (Ok tt, st') /\
        0 <= clamped <= 127 /\
        (clamped = value k -> st' = st) /\
        (clamped <> value k ->
           wire st' = wire st ++ [[0xB0; cc_num k; clamped]] /\
           option_map value (knob_vars st' !! i) = Some clamped)) /\
  (forall control v,
      0 <= control <= 255 -> 0 <= v <= 255 ->
      send_control_change control v st = (Ok tt, sent [0xB0; control; v] s st)) /\
  (forall control v,
      v < 0 \/ 255 < v ->
      send_control_change control v st = (Raise ValueError, st)).
Proof.
  intros Hs Ho Hw. split; [| split].
  - intros i k v Hk Hmin Hmax Hcc clamped.
    assert (Hcl : 0 <= clamped <= 127) by (unfold clamped; lia).
    unfold set_value, the_knob, bind, get, ret. rewrite Hk.
    rewrite Hmin, Hmax, zclamp_range by lia. fold clamped.
    destruct (Z.eqb_spec clamped (value k)) as [Heq|Hne].
    + exists st. split; [reflexivity |]. split; [exact Hcl |].
      split; [reflexivity | intros; contradiction].
    + unfold set_knob at 1. cbn [modify]. unfold knob_command. cbn [cc_num default].
      rewrite on_knob_change_small by exact Hcl.
      erewrite send_control_change_byte; [| cbn; exact Hs | exact Ho | exact Hw | lia | lia].
      eexists. split; [reflexivity |]. split; [exact Hcl |].
      split; [intros; contradiction |]. intros _. split.
      * unfold wire. cbn. now rewrite Hs.
      * cbn. rewrite list_lookup_insert_eq; [reflexivity |].
        apply lookup_lt_Some in Hk. exact Hk.
  - intros control v Hc Hv. now apply send_control_change_byte.
  - intros control v Hv. now apply (send_control_change_not_byte control v st s).
Qed.

Lemma control_value_clamping_witness :
  let st := init_app (Some (MkSerial true [] [])) in
  exists st',
    set_value 3 500 None st = (Ok tt, st') /\
    wire st' = [[0xB0; 0x13; 127]].
Proof.
  intros st.
  destruct (control_value_clamping st (MkSerial true [] []) eq_refl eq_refl eq_refl)
    as (Hknob & _ & _).
  destruct (Hknob 3%nat (MkKnob 0 127 64 None 0x13) 500 eq_refl eq_refl eq_refl
                  ltac:(cbn; lia)) as (st' & Hrun & _ & _ & Hne).
  exists st'. split; [exact Hrun |].
  destruct Hne as [Hwire _]; [cbn; lia | exact Hwire].
Defined.

(** ** Note velocities *)

Section NoteVelocities.

Lemma wire_extends_refl (Q : list Z -> Prop) (st : App) : wire_extends Q st st.
Proof. exists []. split; [now rewrite app_nil_r | constructor]. Qed.

Lemma wire_extends_trans (Q : list Z -> Prop) (a b c : App) :
  wire_extends Q a b -> wire_extends Q b c -> wire_extends Q a c.
Proof.
  intros (e1 & H1 & F1) (e2 & H2 & F2). exists (e1 ++ e2). split.
  - now rewrite H2, H1, app_assoc.
  - apply Forall_app; auto.
Qed.

Lemma wire_extends_one (Q : list Z -> Prop) (message : list Z) (s : Serial) (a b : App) :
  serial_conn a = Some s -> Q message -> wire b = written s ++ [message] ->
  wire_extends Q a b.
Proof.
  intros Hs Hq Hb. exists [message]. split.
  - unfold wire at 2. now rewrite Hs.
  - repeat constructor. exact Hq.
Qed.

Lemma wire_extends_same (Q : list Z -> Prop) (a b : App) :
  wire b = wire a -> wire_extends Q a b.
Proof. intros H. exists []. split; [now rewrite app_nil_r | constructor]. Qed.

Lemma encode_note_on_here (note velocity : Z) (message : list Z) :
  encode (NoteOn CHANNEL note velocity) = Ok message ->
  message = [0x90; note; velocity].
Proof.
  cbn [encode]. unfold bytes. destruct (forallb _ _); [| discriminate].
  now intros [= <-].
Qed.

Lemma encode_note_off_here (note velocity : Z) (message : list Z) :
  encode (NoteOff CHANNEL note velocity) = Ok message ->
  message = [0x80; note; velocity].
Proof.
  cbn [encode]. unfold bytes. destruct (forallb _ _); [| discriminate].
  now intros [= <-].
Qed.

Lemma send_note_on_wire (Q : list Z -> Prop) (note velocity : Z) :
  Q [0x90; note; velocity] -> keeps (wire_extends Q) (send_note_on note velocity).
Proof.
  intros HQ st r st'. rewrite send_note_on_cases.
  destruct (serial_conn st) as [s|] eqn:Hs;
    [| intros [= <- <-]; apply wire_extends_refl].
  destruct (is_open s); [| intros [= <- <-]; apply wire_extends_refl].
  destruct (encode _) as [message|e] eqn:He;
    [| intros [= <- <-]; apply wire_extends_refl].
  apply encode_note_on_here in He. subst message.
  destruct (hd true (pending s)); intros [= <- <-].
  - eapply wire_extends_one; [exact Hs | exact HQ | reflexivity].
  - apply wire_extends_same. unfold wire. cbn. now rewrite Hs.
Qed.

Lemma send_note_off_wire (Q : list Z -> Prop) (note velocity : Z) :
  Q [0x80; note; velocity] -> keeps (wire_extends Q) (send_note_off note velocity).
Proof.
  intros HQ st r st'. rewrite send_note_off_cases.
  destruct (serial_conn st) as [s|] eqn:Hs;
    [| intros [= <- <-]; apply wire_extends_refl].
  destruct (is_open s); [| intros [= <- <-]; apply wire_extends_refl].
  destruct (encode _) as [message|e] eqn:He;
    [| intros [= <- <-]; apply wire_extends_refl].
  apply encode_note_off_here in He. subst message.
  destruct (hd true (pending s)); intros [= <- <-].
  - destruct (dict_mem note (active_notes st));
      (eapply wire_extends_one; [exact Hs | exact HQ | reflexivity]).
  - apply wire_extends_same. unfold wire. cbn. now rewrite Hs.
Qed.

End NoteVelocities.

(** C9, as the claim states it, fails for a key press that arrives on the
    MIDI input: the NoteOn written for it has the velocity of the message
    received (64 here), not 100. *)
Lemma note_on_velocity_forwarded :
  let st := init_app (Some (MkSerial true [] [])) in
  wire (snd (handle_midi_message (note_on 60 64) st)) = [[0x90; 60; 64]].
Proof. vm_compute. reflexivity. Qed.

(** C9, amended. Every message that [on_key_press] writes is a NoteOn of
    velocity 100, whatever the instant of the press; every message that
    [on_key_release] writes is a NoteOff whose velocity is the one derived
    from the recorded press and the release instant; and every message
    written for a [note_on] of positive velocity received on the MIDI input
    is a NoteOn with the velocity received. *)
Theorem note_velocities (st : App) :
  (forall item_id now,
      wire_extends (fun message => exists note, message = [0x90; note; 100])
                   st (snd (on_key_press item_id now st))) /\
  (forall item_id now,
      wire_extends
        (fun message =>
           exists note pressed velocity,
             key_press_times st !! item_id = Some pressed /\
             Velocity.on_release pressed now = Ok velocity /\
             message = [0x80; note; velocity])
        st (snd (on_key_release item_id now st))) /\
  (forall note velocity,
      0 < velocity ->
      wire_extends (eq [0x90; note; velocity])
                   st (snd (handle_midi_message (note_on note velocity) st))).
Proof.
  split; [| split].
  - intros item_id now. unfold on_key_press, bind, modify, get.
    set (st1 := with_key_press_times _ st).
    destruct (key_note st1 item_id) as [note|];
      [| now apply wire_extends_same].
    destruct (send_note_on note 100 st1) as [r st'] eqn:E.
    eapply wire_extends_trans; [now apply (wire_extends_same _ st st1) |].
    eapply send_note_on_wire; [| exact E]. now exists note.
  - intros item_id now. unfold on_key_release, bind, modify, get, lift.
    destruct (key_press_times st !! item_id) as [pressed|] eqn:Hp;
      [| apply wire_extends_refl].
    destruct (Velocity.on_release pressed now) as [velocity|e] eqn:Hv;
      [| now apply wire_extends_same].
    destruct (key_note st item_id) as [note|]; [| now apply wire_extends_same].
    set (st1 := with_key_press_times _ st).
    destruct (send_note_off note velocity st1) as [r st'] eqn:E.
    eapply wire_extends_trans; [now apply (wire_extends_same _ st st1) |].
    eapply send_note_off_wire; [| exact E]. now exists note, pressed, velocity.
  - intros note velocity Hv. cbn [handle_midi_message].
    destruct (controller_to_virtual_map note) as [vn|] eqn:Hmap;
      [| apply wire_extends_refl].
    assert (vn = note) as ->.
    { unfold controller_to_virtual_map in Hmap.
      destruct (_ && _); congruence. }
    destruct (note =? 0); [apply wire_extends_refl |].
    apply Z.ltb_lt in Hv. rewrite Hv.
    destruct (press_virtual_key note velocity st) as [r st'] eqn:E.
    revert E. apply keeps_bind.
    + apply wire_extends_trans.
    + apply keeps_get, wire_extends_refl.
    + intros st0. apply keeps_bind; [apply wire_extends_trans | |].
      * apply keeps_first_key; [apply wire_extends_refl |].
        now apply send_note_on_wire.
      * intros _. apply keeps_first_key; [apply wire_extends_refl |].
        now apply send_note_on_wire.
Qed.

Lemma note_velocities_witness :
  let st := init_app (Some (MkSerial true [] [])) in
  wire_extends (eq [0x90; 61; 33]) st (snd (handle_midi_message (note_on 61 33) st)).
Proof.
  intros st. destruct (note_velocities st) as (_ & _ & H). apply H. lia.
Defined.

(** ** The table of sounding notes *)

Section Dict.

Implicit Types (d : list (Z * Z)) (k v : Z).

Lemma dict_mem_keys k d : dict_mem k d = existsb (Z.eqb k) (map fst d).
Proof.
  unfold dict_mem. induction d as [|[k' v'] d IH]; cbn; [reflexivity |].
  now rewrite IH, (Z.eqb_sym k' k).
Qed.

Lemma dict_mem_in k d : dict_mem k d = true <-> In k (map fst d).
Proof.
  rewrite dict_mem_keys, existsb_exists. split.
  - intros (x & Hin & Heq). apply Z.eqb_eq in Heq. now subst.
  - intros Hin. exists k. split; [exact Hin | apply Z.eqb_refl].
Qed.

Lemma dict_set_keys k v d :
  map fst (dict_set k v d) = if dict_mem k d then map fst d else map fst d ++ [k].
Proof.
  induction d as [|[k' v'] d IH]; cbn; [reflexivity |].
  destruct (Z.eqb_spec k' k) as [->|Hne]; cbn; [reflexivity |].
  rewrite IH. unfold dict_mem. now destruct (existsb _ d).
Qed.

Lemma dict_set_mem k v d : dict_mem k (dict_set k v d) = true.
Proof.
  apply dict_mem_in. rewrite dict_set_keys.
  destruct (dict_mem k d) eqn:E; [now apply dict_mem_in |].
  apply in_or_app. right. now left.
Qed.

Lemma dict_del_keys k d :
  map fst (dict_del k d) = List.filter (fun n => negb (n =? k)) (map fst d).
Proof.
  unfold dict_del. induction d as [|[k' v'] d IH]; cbn; [reflexivity |].
  destruct (k' =? k); cbn; now rewrite IH.
Qed.

Lemma dict_del_mem k d : dict_mem k (dict_del k d) = false.
Proof.
  destruct (dict_mem k (dict_del k d)) eqn:E; [| reflexivity].
  apply dict_mem_in in E. rewrite dict_del_keys in E.
  apply filter_In in E. destruct E as [_ E]. now rewrite Z.eqb_refl in E.
Qed.

Lemma dict_del_absent k d : dict_mem k d = false -> dict_del k d = d.
Proof.
  unfold dict_mem, dict_del. induction d as [|[k' v'] d IH]; cbn; [reflexivity |].
  destruct (k' =? k); cbn; [discriminate |]. intros H. now rewrite IH.
Qed.

Lemma dict_set_nodup k v d : NoDup (map fst d) -> NoDup (map fst (dict_set k v d)).
Proof.
  intros H. rewrite dict_set_keys. destruct (dict_mem k d) eqn:E; [exact H |].
  apply NoDup_app. split; [exact H |]. split.
  - intros x Hx Hk. apply list_elem_of_In in Hx, Hk.
    destruct Hk as [<- | []].
    apply dict_mem_in in Hx. congruence.
  - apply NoDup_singleton.
Qed.

Lemma dict_del_nodup k d : NoDup (map fst d) -> NoDup (map fst (dict_del k d)).
Proof.
  rewrite dict_del_keys. generalize (map fst d). intros l H.
  induction H as [|x l Hx Hl IH]; cbn; [constructor |].
  destruct (negb (x =? k)); [| exact IH].
  constructor; [| exact IH].
  intros Hin. apply Hx. apply list_elem_of_In in Hin. apply list_elem_of_In.
  apply filter_In in Hin. tauto.
Qed.

Lemma dict_set_forall (Q : Z * Z -> Prop) k v d :
  Q (k, v) -> Forall Q d -> Forall Q (dict_set k v d).
Proof.
  intros Hq H. induction H as [|[k' v'] d Hx Hd IH]; cbn.
  - repeat constructor. exact Hq.
  - destruct (k' =? k); constructor; auto.
Qed.

Lemma dict_del_forall (Q : Z * Z -> Prop) k d : Forall Q d -> Forall Q (dict_del k d).
Proof.
  intros H. unfold dict_del. induction H as [|[k' v'] d Hx Hd IH]; cbn; [constructor |].
  destruct (negb (k' =? k)); [constructor |]; auto.
Qed.

End Dict.

Section NotesInvariant.

Lemma carries_refl (I : App -> Prop) (st : App) : carries I st st.
Proof. intros H. exact H. Qed.

Lemma carries_trans (I : App -> Prop) (a b c : App) :
  carries I a b -> carries I b c -> carries I a c.
Proof. unfold carries. auto. Qed.

Lemma sounding_snoc (messages : list (list Z)) (message : list Z) :
  sounding (messages ++ [message]) = sounding_step (sounding messages) message.
Proof. unfold sounding. now rewrite fold_left_app. Qed.

Lemma encode_bytes_ok (msg : MidiMessage) (message : list Z) :
  encode msg = Ok message -> forallb is_byte message = true.
Proof.
  destruct msg; cbn [encode]; unfold bytes;
    destruct (forallb _ _) eqn:E; intros [= <-]; exact E.
Qed.

Lemma encode_cc_shape (control v : Z) (message : list Z) :
  encode (ControlChange CHANNEL control v) = Ok message ->
  message = [0xB0; control; v].
Proof.
  cbn [encode]. unfold bytes. destruct (forallb _ _); [| discriminate].
  now intros [= <-].
Qed.

(** The invariant depends on the wire and on the table only. *)
Lemma notes_inv_same (a b : App) :
  wire b = wire a -> active_notes b = active_notes a -> notes_inv a -> notes_inv b.
Proof. unfold notes_inv. intros -> ->. auto. Qed.

Lemma wire_sent (message : list Z) (s : Serial) (st : App) :
  serial_conn st = Some s -> wire (sent message s st) = wire st ++ [message].
Proof. intros Hs. unfold wire. cbn. now rewrite Hs. Qed.

Lemma wire_dropped (s : Serial) (st : App) :
  serial_conn st = Some s -> wire (dropped s st) = wire st.
Proof. intros Hs. unfold wire. cbn. now rewrite Hs. Qed.

Lemma send_control_change_inv (control v : Z) :
  keeps (carries notes_inv) (send_control_change control v).
Proof.
  intros st r st'. rewrite send_control_change_cases.
  destruct (serial_conn st) as [s|] eqn:Hs; [| intros [= <- <-]; apply carries_refl].
  destruct (is_open s); [| intros [= <- <-]; apply carries_refl].
  destruct (encode _) as [message|e] eqn:He; [| intros [= <- <-]; apply carries_refl].
  apply encode_cc_shape in He. subst message.
  destruct (hd true (pending s)); intros [= <- <-] (Hk & Hn & Hb).
  - repeat split; try assumption.
    rewrite (wire_sent _ _ _ Hs), sounding_snoc. exact Hk.
  - apply (notes_inv_same st); [now apply wire_dropped | reflexivity |].
    repeat split; assumption.
Qed.

Lemma send_note_on_inv (note velocity : Z) :
  keeps (carries notes_inv) (send_note_on note velocity).
Proof.
  intros st r st'. rewrite send_note_on_cases.
  destruct (serial_conn st) as [s|] eqn:Hs; [| intros [= <- <-]; apply carries_refl].
  destruct (is_open s); [| intros [= <- <-]; apply carries_refl].
  destruct (encode _) as [message|e] eqn:He; [| intros [= <- <-]; apply carries_refl].
  pose proof (encode_bytes_ok _ _ He) as Hbytes.
  apply encode_note_on_here in He. subst message.
  destruct (hd true (pending s)); intros [= <- <-] (Hk & Hn & Hb).
  - cbn [forallb] in Hbytes. apply andb_true_iff in Hbytes as [_ Hbytes].
    apply andb_true_iff in Hbytes as [Hb1 Hbytes].
    apply andb_true_iff in Hbytes as [Hb2 _].
    split; [| split].
    + cbn [active_notes with_active_notes].
      change (wire (with_active_notes _ (sent ?m s st))) with (wire (sent m s st)).
      rewrite (wire_sent _ _ _ Hs), sounding_snoc, dict_set_keys, dict_mem_keys, Hk.
      reflexivity.
    + now apply dict_set_nodup.
    + now apply dict_set_forall.
  - apply (notes_inv_same st); [now apply wire_dropped | reflexivity |].
    repeat split; assumption.
Qed.

Lemma send_note_off_inv (note velocity : Z) :
  keeps (carries notes_inv) (send_note_off note velocity).
Proof.
  intros st r st'. rewrite send_note_off_cases.
  destruct (serial_conn st) as [s|] eqn:Hs; [| intros [= <- <-]; apply carries_refl].
  destruct (is_open s); [| intros [= <- <-]; apply carries_refl].
  destruct (encode _) as [message|e] eqn:He; [| intros [= <- <-]; apply carries_refl].
  apply encode_note_off_here in He. subst message.
  destruct (hd true (pending s)); intros [= <- <-] (Hk & Hn & Hb).
  - destruct (dict_mem note (active_notes st)) eqn:Hm.
    + split; [| split].
      * cbn [active_notes with_active_notes].
        change (wire (with_active_notes _ (sent ?m s st))) with (wire (sent m s st)).
        rewrite (wire_sent _ _ _ Hs), sounding_snoc, dict_del_keys, Hk. reflexivity.
      * now apply dict_del_nodup.
      * now apply dict_del_forall.
    + split; [| split]; try assumption.
      rewrite (wire_sent _ _ _ Hs), sounding_snoc.
      change (active_notes (sent ?m s st)) with (active_notes st).
      rewrite <- (dict_del_absent _ _ Hm) at 1. rewrite dict_del_keys, Hk. reflexivity.
  - apply (notes_inv_same st); [now apply wire_dropped | reflexivity |].
    repeat split; assumption.
Qed.

End NotesInvariant.

(** Every handler is built from the senders and from updates of the
    panel's own tables, so it carries the invariant. *)
Ltac keeps_inv :=
  repeat first
    [ apply send_control_change_inv
    | apply send_note_on_inv
    | apply send_note_off_inv
    | apply keeps_ret; apply carries_refl
    | apply keeps_raise; apply carries_refl
    | apply keeps_lift; apply carries_refl
    | apply keeps_get; apply carries_refl
    | apply keeps_modify; intros ? ?; assumption
    | apply keeps_first_key; [apply carries_refl |]
    | apply keeps_bind; [apply carries_trans | | intros ?]
    | match goal with
      | |- keeps _ (match ?x with _ => _ end) => destruct x
      end ].

Lemma handle_inv (e : event) : keeps (carries notes_inv) (handle e).
Proof.
  destruct e; cbn [handle].
  - unfold on_vertical_slider. keeps_inv.
  - unfold on_horizontal_slider. keeps_inv.
  - unfold set_value, the_knob, set_knob, knob_command, on_knob_change. keeps_inv.
  - unfold click, set_value, the_knob, set_knob, knob_command, on_knob_change. keeps_inv.
  - unfold release, the_knob, knob_command, on_knob_change. keeps_inv.
  - unfold on_button_press. keeps_inv.
  - unfold on_key_press. keeps_inv.
  - unfold on_key_release. keeps_inv.
  - unfold handle_midi_message, press_virtual_key, release_virtual_key. keeps_inv.
Qed.

Lemma init_inv (serial : option Serial) :
  (forall s, serial = Some s -> written s = []) -> notes_inv (init_app serial).
Proof.
  intros H. unfold notes_inv, wire. cbn.
  destruct serial as [s|]; [rewrite (H s eq_refl) |]; repeat split; constructor.
Qed.

Lemma run_inv (events : list event) (st : App) : notes_inv st -> notes_inv (run events st).
Proof.
  unfold run. revert st. induction events as [|e events IH]; intros st H; cbn; [exact H |].
  apply IH. unfold dispatch. destruct (handle e st) as [r st'] eqn:E.
  exact (handle_inv e _ _ _ E H).
Qed.

Section Closing.

Lemma encode_note_off_bytes (note velocity : Z) :
  is_byte note = true -> is_byte velocity = true ->
  encode (NoteOff CHANNEL note velocity) = Ok [0x80; note; velocity].
Proof.
  intros Hn Hv. cbn [encode]. unfold bytes. cbn [forallb].
  rewrite Hn, Hv. reflexivity.
Qed.

Lemma encode_note_on_bytes (note velocity : Z) :
  is_byte note = true -> is_byte velocity = true ->
  encode (NoteOn CHANNEL note velocity) = Ok [0x90; note; velocity].
Proof.
  intros Hn Hv. cbn [encode]. unfold bytes. cbn [forallb].
  rewrite Hn, Hv. reflexivity.
Qed.

(** A NoteOff that goes out: the message is on the wire and the note has
    left the table. *)
Lemma send_note_off_ok (note velocity : Z) (st : App) (s : Serial) :
  serial_conn st = Some s -> is_open s = true -> hd true (pending s) = true ->
  is_byte note = true -> is_byte velocity = true ->
  exists st',
    send_note_off note velocity st = (Ok tt, st') /\
    serial_conn st'
    = Some (MkSerial true (written s ++ [[0x80; note; velocity]]) (tl (pending s))) /\
    active_notes st' = dict_del note (active_notes st).
Proof.
  intros Hs Ho Hw Hn Hv. rewrite send_note_off_cases, Hs, Ho.
  rewrite (encode_note_off_bytes _ _ Hn Hv), Hw.
  destruct (dict_mem note (active_notes st)) eqn:Hm; eexists; split; try reflexivity.
  - cbn. rewrite Ho. split; reflexivity.
  - cbn. rewrite Ho. split; [reflexivity |]. symmetry. now apply dict_del_absent.
Qed.

(** A NoteOn that goes out: the message is on the wire and the note is in
    the table with its velocity. *)
Lemma send_note_on_ok (note velocity : Z) (st : App) (s : Serial) :
  serial_conn st = Some s -> is_open s = true -> hd true (pending s) = true ->
  is_byte note = true -> is_byte velocity = true ->
  exists st',
    send_note_on note velocity st = (Ok tt, st') /\
    serial_conn st'
    = Some (MkSerial true (written s ++ [[0x90; note; velocity]]) (tl (pending s))) /\
    active_notes st' = dict_set note velocity (active_notes st).
Proof.
  intros Hs Ho Hw Hn Hv. rewrite send_note_on_cases, Hs, Ho.
  rewrite (encode_note_on_bytes _ _ Hn Hv), Hw.
  eexists; split; [reflexivity |]. cbn. rewrite Ho. split; reflexivity.
Qed.

Lemma filter_dict_del (f : Z * Z -> bool) (k : Z) (d : list (Z * Z)) :
  List.filter f (dict_del k d)
  = List.filter (fun kv => negb (fst kv =? k) && f kv) d.
Proof.
  unfold dict_del. induction d as [|kv d IH]; cbn; [reflexivity |].
  destruct (negb (fst kv =? k)); cbn; [destruct (f kv) |]; now rewrite IH.
Qed.

Lemma release_all_ok (notes : list (Z * Z)) :
  forall (st : App) (s : Serial),
    serial_conn st = Some s -> is_open s = true -> forallb id (pending s) = true ->
    Forall (fun kv => is_byte (fst kv) = true /\ is_byte (snd kv) = true) notes ->
    exists st' s',
      release_all notes st = (Ok tt, st') /\
      serial_conn st' = Some s' /\ is_open s' = true /\
      written s' = written s ++ map note_off_of notes /\
      active_notes st'
      = List.filter (fun kv => negb (existsb (Z.eqb (fst kv)) (map fst notes)))
                    (active_notes st).
Proof.
  induction notes as [|[note velocity] notes IH]; intros st s Hs Ho Hw Hb.
  - exists st, s. cbn. rewrite app_nil_r. repeat split; auto.
    induction (active_notes st) as [|kv d IHd]; cbn; [reflexivity | now rewrite <- IHd].
  - apply Forall_cons in Hb as [[Hn Hv] Hb]. cbn in Hn, Hv.
    assert (Hhd : hd true (pending s) = true /\ forallb id (tl (pending s)) = true).
    { destruct (pending s) as [|b rest]; cbn in Hw |- *; [auto |].
      apply andb_true_iff in Hw. exact Hw. }
    destruct Hhd as [Hhd Htl].
    destruct (send_note_off_ok note velocity st s Hs Ho Hhd Hn Hv)
      as (st1 & Hrun & Hs1 & Ha1).
    destruct (IH st1 _ Hs1 eq_refl Htl Hb) as (st' & s' & Hrest & Hs' & Ho' & Hw' & Ha').
    exists st', s'. cbn [release_all]. unfold bind. rewrite Hrun.
    repeat split; auto.
    + rewrite Hw'. cbn [written map]. now rewrite <- app_assoc.
    + rewrite Ha', Ha1, filter_dict_del. cbn [map fst existsb].
      apply filter_ext. intros kv. now rewrite negb_orb.
Qed.

Lemma filter_own_keys (d : list (Z * Z)) :
  List.filter (fun kv => negb (existsb (Z.eqb (fst kv)) (map fst d))) d = [].
Proof.
  assert (H : forall l, incl l d ->
            List.filter (fun kv => negb (existsb (Z.eqb (fst kv)) (map fst d))) l = []).
  { induction l as [|kv l IH]; intros Hincl; cbn; [reflexivity |].
    replace (existsb (Z.eqb (fst kv)) (map fst d)) with true.
    - cbn. apply IH. intros x Hx. apply Hincl. now right.
    - symmetry. apply existsb_exists. exists (fst kv). split; [| apply Z.eqb_refl].
      apply in_map, Hincl. now left. }
  apply H, incl_refl.
Qed.

End Closing.

Lemma release_all_inv (notes : list (Z * Z)) : keeps (carries notes_inv) (release_all notes).
Proof.
  induction notes as [|[note velocity] notes IH]; cbn [release_all].
  - apply keeps_ret, carries_refl.
  - apply keeps_bind; [apply carries_trans | apply send_note_off_inv | intros _; exact IH].
Qed.

Lemma on_closing_inv : keeps (carries notes_inv) on_closing.
Proof.
  unfold on_closing. apply keeps_bind; [apply carries_trans | apply keeps_get, carries_refl |].
  intros st0. destruct (serial_ready st0); [| apply keeps_ret, carries_refl].
  apply keeps_bind; [apply carries_trans | apply release_all_inv |].
  intros _. apply keeps_modify. intros st. unfold carries.
  destruct (serial_conn st) as [s|] eqn:E; [| auto].
  apply notes_inv_same; [unfold wire; cbn; now rewrite E | reflexivity].
Qed.

Section ClosingOutcomes.

Lemma send_note_off_outcome (note velocity : Z) (st : App) (s : Serial) :
  serial_conn st = Some s -> is_open s = true ->
  is_byte note = true -> is_byte velocity = true ->
  exists st',
    send_note_off note velocity st = (Ok tt, st') /\
    serial_conn st'
    = Some (MkSerial true
              (written s ++ if hd true (pending s) then [[0x80; note; velocity]] else [])
              (tl (pending s))) /\
    active_notes st'
    = if hd true (pending s) then dict_del note (active_notes st) else active_notes st.
Proof.
  intros Hs Ho Hn Hv. destruct (hd true (pending s)) eqn:Hw.
  - destruct (send_note_off_ok note velocity st s Hs Ho Hw Hn Hv) as (st' & H1 & H2 & H3).
    eauto.
  - rewrite send_note_off_cases, Hs, Ho, (encode_note_off_bytes _ _ Hn Hv), Hw.
    eexists. split; [reflexivity |]. cbn. now rewrite Ho, app_nil_r.
Qed.

Lemma release_all_outcomes (notes : list (Z * Z)) :
  forall (st : App) (s : Serial),
    serial_conn st = Some s -> is_open s = true ->
    Forall (fun kv => is_byte (fst kv) = true /\ is_byte (snd kv) = true) notes ->
    exists st' s',
      release_all notes st = (Ok tt, st') /\
      serial_conn st' = Some s' /\ is_open s' = true /\
      written s' = written s ++ map note_off_of (flushed notes (pending s)) /\
      active_notes st'
      = List.filter
          (fun kv => negb (existsb (Z.eqb (fst kv)) (map fst (flushed notes (pending s)))))
          (active_notes st).
Proof.
  induction notes as [|[note velocity] notes IH]; intros st s Hs Ho Hb.
  - exists st, s. cbn. rewrite app_nil_r. repeat split; auto.
    induction (active_notes st) as [|kv d IHd]; cbn; [reflexivity | now rewrite <- IHd].
  - apply Forall_cons in Hb as [[Hn Hv] Hb]. cbn in Hn, Hv.
    destruct (send_note_off_outcome note velocity st s Hs Ho Hn Hv)
      as (st1 & Hrun & Hs1 & Ha1).
    destruct (IH st1 _ Hs1 eq_refl Hb) as (st' & s' & Hrest & Hs' & Ho' & Hw' & Ha').
    exists st', s'. cbn [release_all]. unfold bind. rewrite Hrun.
    cbn [written pending] in Hw', Ha'. cbn [flushed].
    repeat split; auto.
    + rewrite Hw'. destruct (hd true (pending s)); cbn [map note_off_of fst snd];
        now rewrite <- app_assoc.
    + rewrite Ha', Ha1. destruct (hd true (pending s)).
      * rewrite filter_dict_del. cbn [map fst existsb].
        apply filter_ext. intros kv. now rewrite negb_orb.
      * reflexivity.
Qed.

Lemma flushed_keys (notes : list (Z * Z)) (outcomes : list bool) (k : Z) :
  In k (map fst (flushed notes outcomes)) -> In k (map fst notes).
Proof.
  revert outcomes. induction notes as [|kv notes IH]; intros outcomes; cbn; [tauto |].
  destruct (hd true outcomes); cbn; intros H.
  - destruct H as [H|H]; [now left | right; eapply IH, H].
  - right. eapply IH, H.
Qed.

Lemma filter_absent_key (k : Z) (keys : list Z) (d : list (Z * Z)) :
  ~ In k (map fst d) ->
  List.filter (fun kv => negb ((fst kv =? k) || existsb (Z.eqb (fst kv)) keys)) d
  = List.filter (fun kv => negb (existsb (Z.eqb (fst kv)) keys)) d.
Proof.
  intros Hk. apply filter_ext_in. intros kv Hin.
  replace (fst kv =? k) with false; [reflexivity |].
  symmetry. apply Z.eqb_neq. intros E. apply Hk. rewrite <- E. now apply in_map.
Qed.

(** With one entry per key, what stays in the table is what was refused. *)
Lemma filter_flushed (notes : list (Z * Z)) (outcomes : list bool) :
  NoDup (map fst notes) ->
  List.filter (fun kv => negb (existsb (Z.eqb (fst kv)) (map fst (flushed notes outcomes))))
              notes
  = refused notes outcomes.
Proof.
  revert outcomes. induction notes as [|[k v] notes IH]; intros outcomes Hnd;
    [reflexivity |].
  cbn [map fst] in Hnd. apply NoDup_cons in Hnd as [Hk Hnd].
  cbn [flushed refused]. destruct (hd true outcomes).
  - cbn [map fst]. cbn [List.filter]. cbn [existsb fst]. rewrite Z.eqb_refl. cbn [orb negb].
    rewrite filter_absent_key; [now apply IH |].
    intros H. apply Hk. now apply list_elem_of_In.
  - cbn [List.filter fst].
    replace (existsb (Z.eqb k) (map fst (flushed notes (tl outcomes)))) with false.
    + cbn [negb]. f_equal. now apply IH.
    + symmetry. destruct (existsb _ _) eqn:E; [| reflexivity].
      apply List.existsb_exists in E as (x & Hx & Heq). apply Z.eqb_eq in Heq. subst x.
      exfalso. apply Hk. apply list_elem_of_In. eapply flushed_keys, Hx.
Qed.

Lemma flushed_all (notes : list (Z * Z)) (outcomes : list bool) :
  forallb id (firstn (length notes) outcomes) = true ->
  flushed notes outcomes = notes /\ refused notes outcomes = [].
Proof.
  revert outcomes. induction notes as [|kv notes IH]; intros outcomes H; [auto |].
  cbn [flushed refused]. destruct outcomes as [|b outcomes]; cbn [hd tl].
  - destruct (IH [] ltac:(now destruct notes)) as [-> ->]. auto.
  - cbn in H. apply andb_true_iff in H as [Hb H]. unfold id in Hb. subst b.
    destruct (IH outcomes H) as [-> ->]. auto.
Qed.

Lemma refused_some (notes : list (Z * Z)) (outcomes : list bool) :
  forallb id (firstn (length notes) outcomes) = false -> refused notes outcomes <> [].
Proof.
  revert outcomes. induction notes as [|kv notes IH]; intros outcomes H; [discriminate |].
  cbn [refused]. destruct outcomes as [|b outcomes]; cbn [hd tl].
  - exfalso. cbn in H. now destruct notes.
  - cbn in H. destruct b; cbn in H; [now apply IH | discriminate].
Qed.

End ClosingOutcomes.

(** C10, as the claim states it, fails when a NoteOff of the closing is
    refused by the driver: the key of note 36 is pressed, the NoteOn is
    written, the window is closed and the write of the NoteOff fails; the
    port is closed all the same, the note is still in the table and still
    sounding on the wire. *)
Lemma closing_leaves_note_sounding :
  let st := run [KeyPress 1 0%float]
                (init_app (Some (MkSerial true [] [true; false]))) in
  let st' := snd (on_closing st) in
  fst (on_closing st) = Ok tt /\
  serial_ready st' = false /\
  wire st' = [[0x90; 36; 100]] /\
  active_notes st' = [(36, 100)] /\
  sounding (wire st') = [36].
Proof. vm_compute. repeat split; reflexivity. Qed.

(** C10, amended. The table of active notes follows the wire. A NoteOn
    that is written puts its note in the table and a NoteOff that is
    written takes it out; after any sequence of events the keys of the
    table are exactly the notes that the messages written so far leave
    sounding, and closing the window keeps that. Closing with the port
    open tries one NoteOff for every entry of the table, in order, and
    then closes the port, without raising: the NoteOffs that the driver
    accepts are written and their notes leave the table; a NoteOff that
    the driver refuses is dropped, and its note stays in the table and
    stays sounding after the port is closed. So no note is left sounding
    exactly when the writes of the closing all succeed. *)
Theorem active_notes_invariant :
  (forall st s note velocity,
      serial_conn st = Some s -> is_open s = true -> hd true (pending s) = true ->
      is_byte note = true -> is_byte velocity = true ->
      exists st',
        send_note_on note velocity st = (Ok tt, st') /\
        wire st' = wire st ++ [[0x90; note; velocity]] /\
        dict_mem note (active_notes st') = true) /\
  (forall st s note velocity,
      serial_conn st = Some s -> is_open s = true -> hd true (pending s) = true ->
      is_byte note = true -> is_byte velocity = true ->
      exists st',
        send_note_off note velocity st = (Ok tt, st') /\
        wire st' = wire st ++ [[0x80; note; velocity]] /\
        dict_mem note (active_notes st') = false) /\
  (forall events outcomes,
      notes_inv (run events (init_app (Some (MkSerial true [] outcomes))))) /\
  (forall st, notes_inv st -> notes_inv (snd (on_closing st))) /\
  (forall st s,
      notes_inv st -> serial_conn st = Some s -> is_open s = true ->
      exists st',
        on_closing st = (Ok tt, st') /\
        serial_ready st' = false /\
        wire st' = wire st ++ map note_off_of (flushed (active_notes st) (pending s)) /\
        active_notes st' = refused (active_notes st) (pending s) /\
        sounding (wire st') = map fst (refused (active_notes st) (pending s)) /\
        (writes_ok (length (active_notes st)) st = true ->
         wire st' = wire st ++ map note_off_of (active_notes st) /\
         active_notes st' = [] /\ sounding (wire st') = []) /\
        (writes_ok (length (active_notes st)) st = false ->
         active_notes st' <> [] /\ sounding (wire st') <> [])).
Proof.
  split; [| split; [| split; [| split]]].
  - intros st s note velocity Hs Ho Hw Hn Hv.
    destruct (send_note_on_ok note velocity st s Hs Ho Hw Hn Hv) as (st' & Hrun & Hs' & Ha).
    exists st'. split; [exact Hrun |]. split.
    + unfold wire. now rewrite Hs', Hs.
    + rewrite Ha. apply dict_set_mem.
  - intros st s note velocity Hs Ho Hw Hn Hv.
    destruct (send_note_off_ok note velocity st s Hs Ho Hw Hn Hv) as (st' & Hrun & Hs' & Ha).
    exists st'. split; [exact Hrun |]. split.
    + unfold wire. now rewrite Hs', Hs.
    + rewrite Ha. apply dict_del_mem.
  - intros events outcomes. apply run_inv, init_inv. now intros s [= <-].
  - intros st Hinv. destruct (on_closing st) as [r st'] eqn:E.
    exact (on_closing_inv _ _ _ E Hinv).
  - intros st s Hinv Hs Ho.
    pose proof Hinv as (Hk & Hn & Hb).
    destruct (release_all_outcomes (active_notes st) st s Hs Ho Hb)
      as (st1 & s1 & Hrun & Hs1 & Ho1 & Hw1 & Ha1).
    rewrite (filter_flushed _ _ Hn) in Ha1.
    set (st' := with_serial (Some (MkSerial false (written s1) (pending s1))) st1).
    assert (Hclose : on_closing st = (Ok tt, st')).
    { unfold on_closing, bind, get, serial_ready. rewrite Hs, Ho, Hrun.
      unfold close_serial, modify. now rewrite Hs1. }
    assert (Hwire : wire st'
                    = wire st ++ map note_off_of (flushed (active_notes st) (pending s))).
    { unfold wire at 1 2. cbn. now rewrite Hs, Hw1. }
    assert (Hact : active_notes st' = refused (active_notes st) (pending s)) by exact Ha1.
    assert (Hsound : sounding (wire st') = map fst (active_notes st')).
    { assert (Hinv' : notes_inv (snd (on_closing st))).
      { destruct (on_closing st) as [r st2] eqn:E. exact (on_closing_inv _ _ _ E Hinv). }
      rewrite Hclose in Hinv'. cbn [snd] in Hinv'. destruct Hinv' as (Hk' & _).
      now rewrite <- Hk'. }
    exists st'. split; [exact Hclose |]. split; [reflexivity |].
    split; [exact Hwire |]. split; [exact Hact |].
    split; [now rewrite Hsound, Hact |]. split.
    + intros Hok. unfold writes_ok in Hok. rewrite Hs in Hok.
      destruct (flushed_all _ _ Hok) as [Hf Hr].
      rewrite Hsound, Hwire, Hact, Hf, Hr. auto.
    + intros Hbad. unfold writes_ok in Hbad. rewrite Hs in Hbad.
      pose proof (refused_some _ _ Hbad) as Hr.
      rewrite Hsound, Hact. split; [exact Hr |].
      destruct (refused _ _); [contradiction | discriminate].
Qed.

Lemma active_notes_invariant_witness :
  let st := run [KeyPress 1 0%float; KeyPress 2 0.1%float]
                (init_app (Some (MkSerial true [] [true; true; false; true]))) in
  exists st',
    on_closing st = (Ok tt, st') /\
    serial_ready st' = false /\
    wire st' = [[0x90; 36; 100]; [0x90; 37; 100]; [0x80; 37; 100]] /\
    active_notes st' = [(36, 100)] /\
    sounding (wire st') = [36].
Proof.
  intros st.
  destruct active_notes_invariant as (_ & _ & Hrun & _ & Hclose).
  destruct (Hclose st (MkSerial true [[0x90; 36; 100]; [0x90; 37; 100]] [false; true])
                   (Hrun _ _) eq_refl eq_refl)
    as (st' & H1 & H2 & H3 & H4 & H5 & _).
  exists st'. split; [exact H1 |]. split; [exact H2 |].
  split; [exact H3 |]. split; [exact H4 | exact H5].
Defined.

(** ** The order of binary64 values *)

Section FloatOrder.

Ltac cmp_cases :=
  repeat match goal with
         | |- context [Z.compare ?a ?b] => destruct (Z.compare_spec a b)
         | H : context [Z.compare ?a ?b] |- _ => destruct (Z.compare_spec a b)
         | |- context [Pos.compare_cont Eq ?a ?b] =>
             change (Pos.compare_cont Eq a b) with (Pos.compare a b);
             destruct (Pos.compare_spec a b)
         | H : context [Pos.compare_cont Eq ?a ?b] |- _ =>
             change (Pos.compare_cont Eq a b) with (Pos.compare a b) in H;
             destruct (Pos.compare_spec a b)
         end.

Ltac sf_cases :=
  cbn; try discriminate; try reflexivity;
  repeat match goal with s : bool |- _ => destruct s end;
  cbn; try discriminate; try reflexivity;
  cmp_cases; cbn; try discriminate; try reflexivity; intros; subst; try lia;
  try reflexivity; try discriminate.

Lemma SFle_lt_trans (x y z : spec_float) :
  SFleb x y = true -> SFltb y z = true -> SFltb z x = false.
Proof.
  unfold SFleb, SFltb.
  destruct x as [sx|sx| |sx mx ex], y as [sy|sy| |sy my ey], z as [sz|sz| |sz mz ez];
    sf_cases.
Qed.

Lemma SFle_le_trans (x y z : spec_float) :
  SFleb x y = true -> SFleb y z = true -> SFleb x z = true.
Proof.
  unfold SFleb.
  destruct x as [sx|sx| |sx mx ex], y as [sy|sy| |sy my ey], z as [sz|sz| |sz mz ez];
    sf_cases.
Qed.

Lemma SFle_not_lt (x y : spec_float) : SFleb x y = true -> SFltb y x = false.
Proof.
  unfold SFleb, SFltb.
  destruct x as [sx|sx| |sx mx ex], y as [sy|sy| |sy my ey]; sf_cases.
Qed.

Lemma SFlt_not_lt (x y : spec_float) : SFltb x y = true -> SFltb y x = false.
Proof.
  unfold SFltb.
  destruct x as [sx|sx| |sx mx ex], y as [sy|sy| |sy my ey]; sf_cases.
Qed.

Lemma SFlt_le (x y : spec_float) : SFltb x y = true -> SFleb x y = true.
Proof.
  unfold SFleb, SFltb. destruct (SFcompare x y) as [[]|]; auto.
Qed.

(** Two finite values that compare equal are the same value. *)
Lemma SFle_antisym_finite (s : bool) (m : positive) (e : Z) (x : spec_float) :
  SFleb (S754_finite s m e) x = true -> SFltb (S754_finite s m e) x = false ->
  x = S754_finite s m e.
Proof.
  unfold SFleb, SFltb.
  destruct x as [sx|sx| |sx mx ex]; sf_cases.
Qed.

Lemma leb_not_ltb (x y : float) : (x <=? y)%float = true -> (y <? x)%float = false.
Proof. rewrite leb_spec, ltb_spec. apply SFle_not_lt. Qed.

Lemma leb_ltb_trans (x y z : float) :
  (x <=? y)%float = true -> (y <? z)%float = true -> (z <? x)%float = false.
Proof. rewrite leb_spec, !ltb_spec. apply SFle_lt_trans. Qed.

Lemma ltb_asym (x y : float) : (x <? y)%float = true -> (y <? x)%float = false.
Proof. rewrite !ltb_spec. apply SFlt_not_lt. Qed.

End FloatOrder.

(** ** Saturation of the velocity *)

Section Saturation.

Lemma min_below_max : (Velocity.min_duration <? Velocity.max_duration)%float = true.
Proof. vm_compute. reflexivity. Qed.

(** A hold of at most [min_duration] is clamped to [min_duration]. *)
Lemma clamp_short (d : float) :
  (d <=? Velocity.min_duration)%float = true ->
  Velocity.clamp_duration d = Velocity.min_duration.
Proof.
  intros H. unfold Velocity.clamp_duration, fmax, fmin, max2, min2.
  rewrite (leb_ltb_trans d Velocity.min_duration Velocity.max_duration H min_below_max).
  now rewrite (leb_not_ltb _ _ H).
Qed.

(** A hold of at least [max_duration] is clamped to [max_duration]. *)
Lemma clamp_long (d : float) :
  (Velocity.max_duration <=? d)%float = true ->
  Velocity.clamp_duration d = Velocity.max_duration.
Proof.
  intros H. unfold Velocity.clamp_duration, fmax, fmin, max2, min2.
  assert (Hmin : (if (Velocity.max_duration <? d)%float
                  then Velocity.max_duration else d) = Velocity.max_duration).
  { destruct (Velocity.max_duration <? d)%float eqn:Hlt; [reflexivity |].
    apply Prim2SF_inj. rewrite leb_spec in H. rewrite ltb_spec in Hlt.
    change (Prim2SF Velocity.max_duration)
      with (S754_finite false 4503599627370496 (-53)) in *.
    now apply SFle_antisym_finite. }
  rewrite Hmin. now rewrite min_below_max.
Qed.

End Saturation.

(** X1. A hold of at most 0.05 s gives velocity 127 and a hold of at least
    0.5 s gives velocity 1 (the comparisons are those of binary64, as the
    code makes them; the infinities are included). *)
Theorem velocity_saturates (d : float) :
  ((d <=? 0.05)%float = true -> Velocity.of_duration d = Ok 127) /\
  ((0.5 <=? d)%float = true -> Velocity.of_duration d = Ok 1).
Proof.
  split; intros H; unfold Velocity.of_duration.
  - rewrite (clamp_short d H). vm_compute. reflexivity.
  - rewrite (clamp_long d H). vm_compute. reflexivity.
Qed.

Lemma velocity_saturates_witness :
  Velocity.of_duration 0.01%float = Ok 127 /\ Velocity.of_duration 2%float = Ok 1.
Proof.
  split.
  - apply (velocity_saturates 0.01%float). vm_compute. reflexivity.
  - apply (velocity_saturates 2%float). vm_compute. reflexivity.
Defined.

(** ** Rounding to binary64 *)

Lemma digits2_pos_size p : digits2_pos p = Pos.size p.
Proof. induction p; cbn; congruence. Qed.

Lemma Zdigits2_bounds x : 0 < x -> 2 ^ (Zdigits2 x - 1) <= x < 2 ^ Zdigits2 x.
Proof.
  intros Hx. destruct x as [|p|p]; try lia. cbn [Zdigits2].
  rewrite digits2_pos_size.
  pose proof (Pos.size_gt p) as Hgt. pose proof (Pos.size_le p) as Hle.
  split.
  - assert (H : 2 ^ Z.pos (Pos.size p) <= 2 * Z.pos p).
    { rewrite <- Pos2Z.inj_pow. change (2 * Z.pos p) with (Z.pos (p~0)). lia. }
    replace (Z.pos (Pos.size p)) with (Z.succ (Z.pos (Pos.size p) - 1)) in H by lia.
    rewrite Z.pow_succ_r in H by lia. lia.
  - rewrite <- Pos2Z.inj_pow. lia.
Qed.

Lemma Zdigits2_unique x k : 2 ^ (k - 1) <= x < 2 ^ k -> 0 < x -> Zdigits2 x = k.
Proof.
  intros [Hlo Hhi] Hx. pose proof (Zdigits2_bounds x Hx) as [Blo Bhi].
  assert (Hd : 0 < Zdigits2 x) by (destruct x; cbn; lia).
  assert (Hk : 0 < k).
  { destruct (Z_lt_le_dec 0 k); auto.
    destruct (Z.eq_dec k 0) as [->|]; [cbn in Hhi; lia |].
    rewrite Z.pow_neg_r in Hhi by lia. lia. }
  destruct (Z.lt_trichotomy (Zdigits2 x) k) as [H|[H|H]]; auto.
  - assert (2 ^ Zdigits2 x <= 2 ^ (k - 1)) by (apply Z.pow_le_mono_r; lia). lia.
  - assert (2 ^ k <= 2 ^ (Zdigits2 x - 1)) by (apply Z.pow_le_mono_r; lia). lia.
Qed.

Lemma Zrne_bounds N D : N / D <= Zrne N D <= N / D + 1.
Proof.
  unfold Zrne, loc_of, round_nearest_even.
  destruct (_ =? 0); [lia |]. destruct (_ ?= _); [destruct (Z.even _) | |]; lia.
Qed.

Lemma Zrne_mono N1 D1 N2 D2 :
  0 < D1 -> 0 < D2 -> N1 * D2 <= N2 * D1 -> Zrne N1 D1 <= Zrne N2 D2.
Proof.
  intros H1 H2 H.
  pose proof (Z.div_mod N1 D1 ltac:(lia)) as E1.
  pose proof (Z.div_mod N2 D2 ltac:(lia)) as E2.
  pose proof (Z.mod_pos_bound N1 D1 H1) as B1.
  pose proof (Z.mod_pos_bound N2 D2 H2) as B2.
  pose proof (Zrne_bounds N1 D1) as R1. pose proof (Zrne_bounds N2 D2) as R2.
  assert (Hq : N1 / D1 <= N2 / D2).
  { destruct (Z_le_gt_dec (N1 / D1) (N2 / D2)) as [|Hgt]; auto. exfalso.
    assert (Hq1 : N2 / D2 + 1 <= N1 / D1) by lia.
    assert (P1 : D1 * D2 * (N2 / D2 + 1) <= D1 * D2 * (N1 / D1))
      by (apply Z.mul_le_mono_nonneg_l; nia).
    assert (P2 : (N2 mod D2) * D1 < D2 * D1) by (apply Z.mul_lt_mono_pos_r; lia).
    rewrite E1, E2 in H. lia. }
  destruct (Z.eq_dec (N1 / D1) (N2 / D2)) as [Heq|Hne]; [| lia].
  assert (Hr : (N1 mod D1) * D2 <= (N2 mod D2) * D1).
  { rewrite E1, E2 in H. rewrite Heq in H. lia. }
  unfold Zrne, loc_of, round_nearest_even in *. rewrite <- Heq in *.
  set (q := N1 / D1) in *. set (r1 := N1 mod D1) in *. set (r2 := N2 mod D2) in *.
  destruct (Z.eqb_spec r1 0) as [Z1|Z1], (Z.eqb_spec r2 0) as [Z2|Z2];
    repeat match goal with
           | |- context [?a ?= ?b] => destruct (Z.compare_spec a b)
           end;
    try destruct (Z.even q); try lia; try nia.
Qed.

Lemma Zrne_scale c N D : 0 < c -> 0 < D -> Zrne (c * N) (c * D) = Zrne N D.
Proof.
  intros Hc HD. unfold Zrne, loc_of.
  rewrite Z.div_mul_cancel_l by lia. rewrite Z.mul_mod_distr_l by lia.
  replace (c * (N mod D) =? 0) with (N mod D =? 0).
  2:{ destruct (Z.eqb_spec (N mod D) 0), (Z.eqb_spec (c * (N mod D)) 0); auto; nia. }
  destruct (N mod D =? 0); [reflexivity |].
  replace (2 * (c * (N mod D)) ?= c * D) with (2 * (N mod D) ?= D); [reflexivity |].
  replace (2 * (c * (N mod D))) with (c * (2 * (N mod D))) by lia.
  destruct (Z.compare_spec (2 * (N mod D)) D),
    (Z.compare_spec (c * (2 * (N mod D))) (c * D)); try reflexivity; nia.
Qed.

Lemma shr_1_rec N D : 0 <= N -> 0 < D -> shr_1 (rec_of N D) = rec_of N (D * 2).
Proof.
  intros HN HD. unfold rec_of, loc_of.
  rewrite <- (Z.div_div N D 2) by lia.
  rewrite (Z.rem_mul_r N D 2) by lia.
  pose proof (Z.div_pos N D HN HD) as Hq.
  pose proof (Z.mod_pos_bound N D HD) as Hr.
  set (q := N / D) in *. set (r := N mod D) in *.
  pose proof (Z.div_mod q 2 ltac:(lia)) as Eq2.
  pose proof (Z.mod_pos_bound q 2 ltac:(lia)) as Bq2.
  set (h := q / 2) in *. set (b := q mod 2) in *.
  assert (Hcase : (q = 0 /\ h = 0 /\ b = 0) \/ (q = 1 /\ h = 0 /\ b = 1) \/
                  (exists p, q = Z.pos p~0 /\ h = Z.pos p /\ b = 0) \/
                  (exists p, q = Z.pos p~1 /\ h = Z.pos p /\ b = 1)).
  { destruct q as [|[p|p|]|p];
      [ left; lia | right; right; right; exists p; lia
      | right; right; left; exists p; lia | right; left; lia | lia ]. }
  clearbody q r h b.
  destruct Hcase as [(-> & -> & ->) | [(-> & -> & ->) | [(p & -> & -> & ->) | (p & -> & -> & ->)]]];
    destruct (Z.eqb_spec r 0) as [Zr|Zr];
    repeat match goal with
           | |- context [?a =? ?b] => destruct (Z.eqb_spec a b)
           | |- context [?a ?= ?b] => destruct (Z.compare_spec a b)
           end; cbn; try reflexivity; try lia.
Qed.

Lemma iter_pos_rec p : forall N D, 0 <= N -> 0 < D ->
  SpecFloat.iter_pos shr_1 p (rec_of N D) = rec_of N (D * 2 ^ Z.pos p).
Proof.
  assert (Hpow : forall k, 0 < 2 ^ Z.pos k) by (intros; apply Z.pow_pos_nonneg; lia).
  induction p as [p IH|p IH|]; intros N D HN HD; cbn [SpecFloat.iter_pos].
  - pose proof (Hpow p).
    rewrite shr_1_rec, !IH by nia.
    f_equal.
    assert (E : 2 ^ Z.pos p~1 = 2 * (2 ^ Z.pos p * 2 ^ Z.pos p)).
    { rewrite <- Z.pow_add_r, <- Z.pow_succ_r by lia. f_equal. lia. }
    rewrite E. ring.
  - pose proof (Hpow p).
    rewrite !IH by nia.
    f_equal.
    assert (E : 2 ^ Z.pos p~0 = 2 ^ Z.pos p * 2 ^ Z.pos p).
    { rewrite <- Z.pow_add_r by lia. f_equal. lia. }
    rewrite E. ring.
  - rewrite shr_1_rec by lia. reflexivity.
Qed.

Lemma rec_of_m N D : shr_m (rec_of N D) = N / D.
Proof. unfold rec_of. destruct (loc_of N D) as [|[]]; reflexivity. Qed.

Lemma rec_of_loc N D : loc_of_shr_record (rec_of N D) = loc_of N D.
Proof. unfold rec_of. destruct (loc_of N D) as [|[]]; reflexivity. Qed.

Lemma quotient_digits N D :
  0 < D -> 2 ^ 52 * D <= N ->
  let k := Zdigits2 (N / D) in
  53 <= k /\ 2 ^ 52 <= N / D /\ 2 ^ (k - 1) <= N / D < 2 ^ k.
Proof.
  intros HD HN k.
  assert (Hq : 2 ^ 52 <= N / D) by (apply Z.div_le_lower_bound; lia).
  pose proof (Zdigits2_bounds (N / D) ltac:(lia)) as B. fold k in B.
  split; [| split; [exact Hq | exact B]].
  destruct (Z_lt_le_dec k 53) as [Hlt|]; [| lia].
  assert (2 ^ k <= 2 ^ 52) by (apply Z.pow_le_mono_r; lia). lia.
Qed.

Lemma shifted_quotient N D :
  0 < D -> 2 ^ 52 * D <= N ->
  let n := Zdigits2 (N / D) - 53 in
  0 <= n /\ 0 < D * 2 ^ n /\
  2 ^ 52 <= N / (D * 2 ^ n) < 2 ^ 53.
Proof.
  intros HD HN n. destruct (quotient_digits N D HD HN) as (Hk & Hq & Hlo & Hhi).
  fold n. assert (Hn : 0 <= n) by (unfold n; lia).
  assert (Hp : 0 < 2 ^ n) by (apply Z.pow_pos_nonneg; lia).
  split; [exact Hn |]. split; [nia |].
  rewrite <- Z.div_div by lia.
  replace (Zdigits2 (N / D) - 1) with (52 + n) in Hlo by (unfold n; lia).
  replace (Zdigits2 (N / D)) with (53 + n) in Hhi by (unfold n; lia).
  rewrite Z.pow_add_r in Hlo, Hhi by lia.
  split.
  - apply Z.div_le_lower_bound; lia.
  - apply Z.div_lt_upper_bound; lia.
Qed.

Lemma shr_fexp_rec N D e :
  0 < D -> 2 ^ 52 * D <= N -> -1074 <= e ->
  let n := Zdigits2 (N / D) - 53 in
  shr_fexp prec emax (N / D) e (loc_of N D) = (rec_of N (D * 2 ^ n), e + n).
Proof.
  intros HD HN He n. destruct (quotient_digits N D HD HN) as (Hk & Hq & _).
  unfold shr_fexp, fexp, SpecFloat.emin, prec, emax. fold (rec_of N D).
  replace (Z.max (Zdigits2 (N / D) + e - 53) (3 - 1024 - 53) - e) with n by (unfold n; lia).
  assert (Hn : 0 <= n) by (unfold n; lia).
  unfold shr. destruct n as [|p|p] eqn:En; try lia.
  - rewrite Z.mul_1_r, Z.add_0_r. reflexivity.
  - rewrite iter_pos_rec by nia. reflexivity.
Qed.

Theorem binary_round_aux_spec N D e :
  0 < D -> 2 ^ 52 * D <= N -> -1074 <= e ->
  binary_round_aux prec emax false (N / D) e (loc_of N D) = SF_of_pair (round_spec N D e).
Proof.
  intros HD HN He. unfold binary_round_aux.
  rewrite (shr_fexp_rec N D e HD HN He).
  destruct (shifted_quotient N D HD HN) as (Hn & HD' & Hlo & Hhi).
  set (n := Zdigits2 (N / D) - 53) in *.
  rewrite rec_of_m, rec_of_loc. fold (Zrne N (D * 2 ^ n)).
  pose proof (Zrne_bounds N (D * 2 ^ n)) as Hb.
  unfold round_spec. fold n. set (m := Zrne N (D * 2 ^ n)) in *.
  unfold shr_fexp, fexp, SpecFloat.emin, prec, emax.
  destruct (Z.eqb_spec m (2 ^ 53)) as [Em|Em].
  - rewrite Em. change (Zdigits2 (2 ^ 53)) with 54.
    replace (Z.max (54 + (e + n) - 53) (3 - 1024 - 53) - (e + n)) with 1 by lia.
    cbn [shr shr_record_of_loc SpecFloat.iter_pos]. cbn [shr_1 shr_m].
    unfold SF_of_pair. cbn [fst snd]. change (1024 - 53) with 971.
    replace (e + n + 1) with (e + n + 1) by lia. reflexivity.
  - assert (Hd : Zdigits2 m = 53) by (apply Zdigits2_unique; lia).
    rewrite Hd.
    replace (Z.max (53 + (e + n) - 53) (3 - 1024 - 53) - (e + n)) with 0 by lia.
    cbn [shr shr_record_of_loc shr_m]. unfold SF_of_pair. cbn [fst snd].
    destruct m as [|pm|pm]; try lia. reflexivity.
Qed.

Lemma round_spec_normal N D e :
  0 < D -> 2 ^ 52 * D <= N ->
  2 ^ 52 <= fst (round_spec N D e) < 2 ^ 53 /\ e <= snd (round_spec N D e).
Proof.
  intros HD HN. destruct (shifted_quotient N D HD HN) as (Hn & HD' & Hlo & Hhi).
  unfold round_spec. set (n := Zdigits2 (N / D) - 53) in *.
  pose proof (Zrne_bounds N (D * 2 ^ n)) as Hb.
  destruct (Z.eqb_spec (Zrne N (D * 2 ^ n)) (2 ^ 53)); cbn [fst snd]; lia.
Qed.

Lemma Zdigits2_mono x y : 0 < x -> x <= y -> Zdigits2 x <= Zdigits2 y.
Proof.
  intros Hx Hxy.
  pose proof (Zdigits2_bounds x Hx) as [Lx Ux].
  pose proof (Zdigits2_bounds y ltac:(lia)) as [Ly Uy].
  destruct (Z_le_gt_dec (Zdigits2 x) (Zdigits2 y)) as [|Hgt]; [assumption |].
  assert (2 ^ Zdigits2 y <= 2 ^ (Zdigits2 x - 1)) by (apply Z.pow_le_mono_r; lia). lia.
Qed.

Lemma sv_round_spec N D e :
  0 < D -> 2 ^ 52 * D <= N -> -1074 <= e ->
  let n := Zdigits2 (N / D) - 53 in
  sv (round_spec N D e) = Zrne N (D * 2 ^ n) * 2 ^ (e + n + 1074).
Proof.
  intros HD HN He n. destruct (shifted_quotient N D HD HN) as (Hn & _). fold n in Hn.
  unfold round_spec, sv. fold n.
  destruct (Z.eqb_spec (Zrne N (D * 2 ^ n)) (2 ^ 53)) as [E|E]; cbn [fst snd]; [| reflexivity].
  rewrite E.
  replace (e + n + 1 + 1074) with (Z.succ (e + n + 1074)) by lia.
  rewrite Z.pow_succ_r by lia. lia.
Qed.

Lemma round_spec_scale N D e k :
  0 < D -> 2 ^ 52 * D <= N -> 0 <= k ->
  round_spec (N * 2 ^ k) D (e - k) = round_spec N D e.
Proof.
  intros HD HN Hk. destruct (quotient_digits N D HD HN) as (Hd & Hq & Hlo & Hhi).
  assert (Hp : 0 < 2 ^ k) by (apply Z.pow_pos_nonneg; lia).
  assert (Hdig : Zdigits2 (N * 2 ^ k / D) = Zdigits2 (N / D) + k).
  { pose proof (Z.div_mod N D ltac:(lia)) as EN.
    pose proof (Z.mod_pos_bound N D HD) as BN.
    set (q := N / D) in *. set (d := Zdigits2 q) in *.
    assert (L : q * 2 ^ k <= N * 2 ^ k / D) by (apply Z.div_le_lower_bound; nia).
    assert (U : N * 2 ^ k / D < (q + 1) * 2 ^ k) by (apply Z.div_lt_upper_bound; nia).
    apply Zdigits2_unique; [| nia].
    replace (d + k - 1) with (d - 1 + k) by lia.
    rewrite !Z.pow_add_r by lia. split; nia. }
  unfold round_spec. rewrite Hdig.
  set (n := Zdigits2 (N / D) - 53).
  replace (Zdigits2 (N / D) + k - 53) with (k + n) by (unfold n; lia).
  assert (Hn : 0 <= n) by (unfold n; lia).
  rewrite Z.pow_add_r by lia.
  replace (N * 2 ^ k) with (2 ^ k * N) by lia.
  replace (D * (2 ^ k * 2 ^ n)) with (2 ^ k * (D * 2 ^ n)) by lia.
  assert (Hpn : 0 < 2 ^ n) by (apply Z.pow_pos_nonneg; lia).
  rewrite Zrne_scale by nia.
  replace (e - k + (k + n)) with (e + n) by lia. reflexivity.
Qed.

Lemma round_spec_factor c N D e :
  0 < c -> 0 < D -> 2 ^ 52 * D <= N ->
  round_spec (c * N) (c * D) e = round_spec N D e.
Proof.
  intros Hc HD HN. destruct (shifted_quotient N D HD HN) as (Hn & _).
  unfold round_spec. rewrite Z.div_mul_cancel_l by lia.
  set (n := Zdigits2 (N / D) - 53) in *.
  assert (Hpn : 0 < 2 ^ n) by (apply Z.pow_pos_nonneg; lia).
  replace (c * D * 2 ^ n) with (c * (D * 2 ^ n)) by lia.
  rewrite Zrne_scale by nia. reflexivity.
Qed.

Lemma round_spec_mono_same N1 D1 N2 D2 e :
  0 < D1 -> 0 < D2 -> 2 ^ 52 * D1 <= N1 -> N1 * D2 <= N2 * D1 -> -1074 <= e ->
  sv (round_spec N1 D1 e) <= sv (round_spec N2 D2 e).
Proof.
  intros HD1 HD2 HN1 Hle He.
  assert (HN2 : 2 ^ 52 * D2 <= N2) by nia.
  rewrite !sv_round_spec by assumption.
  destruct (shifted_quotient N1 D1 HD1 HN1) as (Hn1 & HP1 & Hlo1 & Hhi1).
  destruct (shifted_quotient N2 D2 HD2 HN2) as (Hn2 & HP2 & Hlo2 & Hhi2).
  destruct (quotient_digits N1 D1 HD1 HN1) as (_ & Hq1 & _).
  assert (Hq : N1 / D1 <= N2 / D2).
  { apply Z.div_le_lower_bound; [lia |].
    pose proof (Z.mul_div_le N1 D1 HD1).
    assert (D2 * (D1 * (N1 / D1)) <= D1 * N2) by nia.
    assert (D1 * (D2 * (N1 / D1)) <= D1 * N2) by lia.
    apply (Z.mul_le_mono_pos_l _ _ D1); lia. }
  pose proof (Zdigits2_mono (N1 / D1) (N2 / D2) ltac:(lia) Hq) as Hdig.
  set (n1 := Zdigits2 (N1 / D1) - 53) in *. set (n2 := Zdigits2 (N2 / D2) - 53) in *.
  pose proof (Zrne_bounds N1 (D1 * 2 ^ n1)) as B1.
  pose proof (Zrne_bounds N2 (D2 * 2 ^ n2)) as B2.
  set (M1 := Zrne N1 (D1 * 2 ^ n1)) in *. set (M2 := Zrne N2 (D2 * 2 ^ n2)) in *.
  assert (Hn : n1 <= n2) by (unfold n1, n2; lia).
  destruct (Z.eq_dec n1 n2) as [En|En].
  - assert (HM : M1 <= M2).
    { unfold M1, M2. rewrite <- En. apply Zrne_mono; try lia.
      assert (0 < 2 ^ n1) by (apply Z.pow_pos_nonneg; lia). nia. }
    rewrite <- En. apply Z.mul_le_mono_nonneg_r; [| exact HM].
    apply Z.pow_nonneg. lia.
  - assert (Hp : 2 * 2 ^ (e + n1 + 1074) <= 2 ^ (e + n2 + 1074)).
    { rewrite <- Z.pow_succ_r by lia. apply Z.pow_le_mono_r; lia. }
    assert (0 < 2 ^ (e + n1 + 1074)) by (apply Z.pow_pos_nonneg; lia).
    nia.
Qed.

Lemma round_spec_mono N1 D1 e1 N2 D2 e2 :
  0 < D1 -> 0 < D2 -> 2 ^ 52 * D1 <= N1 -> 2 ^ 52 * D2 <= N2 ->
  -1074 <= e1 -> -1074 <= e2 ->
  N1 * 2 ^ (e1 + 1074) * D2 <= N2 * 2 ^ (e2 + 1074) * D1 ->
  sv (round_spec N1 D1 e1) <= sv (round_spec N2 D2 e2).
Proof.
  intros HD1 HD2 HN1 HN2 He1 He2 Hle.
  rewrite <- (round_spec_scale N1 D1 e1 (e1 + 1074)) by lia.
  rewrite <- (round_spec_scale N2 D2 e2 (e2 + 1074)) by lia.
  replace (e1 - (e1 + 1074)) with (-1074) by lia.
  replace (e2 - (e2 + 1074)) with (-1074) by lia.
  assert (0 < 2 ^ (e1 + 1074)) by (apply Z.pow_pos_nonneg; lia).
  apply round_spec_mono_same; try lia. nia.
Qed.

Lemma loc_exact N : loc_of N 1 = loc_Exact.
Proof. unfold loc_of. now rewrite Z.mod_1_r. Qed.

Lemma normal_digits m e : normal m e -> Zdigits2 (Z.pos m) = 53.
Proof. intros [H _]. apply Zdigits2_unique; lia. Qed.

Lemma pos_iter_xO m d : Z.pos (Pos.iter xO m d) = Z.pos m * 2 ^ Z.pos d.
Proof.
  induction d as [|d IH] using Pos.peano_ind.
  - cbn. lia.
  - rewrite Pos.iter_succ, Pos2Z.inj_xO, IH, Pos2Z.inj_succ, Z.pow_succ_r by lia. lia.
Qed.

Lemma shl_align_fst m e e' :
  e' <= e -> Z.pos (fst (shl_align m e e')) = Z.pos m * 2 ^ (e - e') /\
             snd (shl_align m e e') = e'.
Proof.
  intros H. unfold shl_align. destruct (e' - e) as [|p|p] eqn:E; cbn [fst snd]; try lia.
  - replace (e - e') with 0 by lia. split; lia.
  - rewrite pos_iter_xO. replace (e - e') with (Z.pos p) by lia. split; lia.
Qed.

Lemma shl_align_id m e e' : e <= e' -> shl_align m e e' = (m, e).
Proof.
  intros H. unfold shl_align. destruct (e' - e) as [|p|p] eqn:E; try reflexivity. lia.
Qed.

Lemma new_location_loc_of N D :
  0 < D -> new_location D (N mod D) = loc_of N D.
Proof.
  intros HD. pose proof (Z.mod_pos_bound N D HD) as B.
  unfold new_location, new_location_even, new_location_odd, loc_of.
  set (r := N mod D) in *.
  destruct (Z.even D) eqn:Ev; [reflexivity |].
  destruct (Z.eqb_spec r 0); [reflexivity |]. f_equal.
  assert (Hodd : Z.odd D = true) by (rewrite <- Z.negb_even, Ev; reflexivity).
  apply Z.odd_spec in Hodd. destruct Hodd as [j Hj].
  destruct (Z.compare_spec (2 * r + 1) D), (Z.compare_spec (2 * r) D); try reflexivity; lia.
Qed.

(** The product of two normal numbers. *)
Lemma SFmul_round mx ex my ey :
  normal mx ex -> normal my ey -> -1074 <= ex + ey ->
  SFmul prec emax (S754_finite false mx ex) (S754_finite false my ey)
  = SF_of_pair (rnd (svf mx ex * svf my ey) (2 ^ 1074)).
Proof.
  intros [Hx Hex] [Hy Hey] He. cbn [SFmul xorb].
  rewrite Pos2Z.inj_mul.
  rewrite <- (Z.div_1_r (Z.pos mx * Z.pos my)) at 1.
  rewrite <- (loc_exact (Z.pos mx * Z.pos my)).
  rewrite binary_round_aux_spec by nia.
  f_equal. unfold rnd.
  rewrite <- (round_spec_scale _ 1 (ex + ey) (ex + ey + 1074)) by nia.
  replace (ex + ey - (ex + ey + 1074)) with (-1074) by lia.
  assert (P : 0 < 2 ^ 1074) by (apply Z.pow_pos_nonneg; lia).
  assert (Q : 0 < 2 ^ (ex + ey + 1074)) by (apply Z.pow_pos_nonneg; lia).
  rewrite <- (round_spec_factor (2 ^ 1074) _ 1) by nia.
  assert (E : 2 ^ 1074 * 2 ^ (ex + ey + 1074) = 2 ^ (ex + 1074) * 2 ^ (ey + 1074)).
  { rewrite <- !Z.pow_add_r by lia. f_equal. lia. }
  replace (2 ^ 1074 * (Z.pos mx * Z.pos my * 2 ^ (ex + ey + 1074)))
    with (svf mx ex * svf my ey) by (unfold svf; nia).
  now rewrite Z.mul_1_r.
Qed.

Lemma pow2_pos k : 0 <= k -> 0 < 2 ^ k.
Proof. intros. apply Z.pow_pos_nonneg; lia. Qed.

Lemma pow2_split a b : 0 <= a -> 0 <= b -> 2 ^ (a + b) = 2 ^ a * 2 ^ b.
Proof. intros. apply Z.pow_add_r; lia. Qed.

Lemma binary_round_aux_exact N e :
  2 ^ 52 <= N -> -1074 <= e ->
  binary_round_aux prec emax false N e loc_Exact = SF_of_pair (round_spec N 1 e).
Proof.
  intros HN He. pose proof (binary_round_aux_spec N 1 e ltac:(lia) ltac:(lia) He) as H.
  now rewrite Z.div_1_r, loc_exact in H.
Qed.

Lemma binary_round_rnd p e :
  -1074 <= e -> 2 ^ 52 <= Z.pos p * 2 ^ (e + 1074) ->
  binary_round prec emax false p e = SF_of_pair (rnd (Z.pos p * 2 ^ (e + 1074)) 1).
Proof.
  intros He Hn. unfold binary_round.
  pose proof (Zdigits2_bounds (Z.pos p) ltac:(lia)) as [Lo Hi]. cbn [Zdigits2] in Lo, Hi.
  set (d := Z.pos (digits2_pos p)) in *.
  assert (Hd : 0 < d) by (unfold d; lia).
  pose proof (pow2_pos (e + 1074) ltac:(lia)) as Pe.
  assert (Ht : -1074 <= d + e - 53).
  { destruct (Z_le_gt_dec (-1074) (d + e - 53)) as [|Hgt]; [assumption | exfalso].
    assert (2 ^ (d + (e + 1074)) <= 2 ^ 52) by (apply Z.pow_le_mono_r; lia).
    rewrite pow2_split in H by lia. nia. }
  unfold fexp, SpecFloat.emin, prec, emax.
  replace (Z.max (d + e - 53) (3 - 1024 - 53)) with (d + e - 53) by lia.
  set (t := d + e - 53) in *.
  destruct (Z_le_gt_dec t e) as [Hte|Hte].
  - destruct (shl_align_fst p e t Hte) as [Hm Hs].
    destruct (shl_align p e t) as [mz ez']. cbn [fst snd] in Hm, Hs. subst ez'.
    pose proof (pow2_pos (e - t) ltac:(lia)) as Pt.
    assert (Hmz : 2 ^ 52 <= Z.pos mz).
    { rewrite Hm. replace 52 with ((d - 1) + (e - t)) by (unfold t; lia).
      rewrite pow2_split by lia. nia. }
    rewrite binary_round_aux_exact by lia. f_equal. unfold rnd.
    rewrite <- (round_spec_scale _ 1 t (t + 1074)) by lia.
    replace (t - (t + 1074)) with (-1074) by lia. f_equal.
    rewrite Hm, <- Z.mul_assoc, <- pow2_split by lia. do 2 f_equal. lia.
  - rewrite shl_align_id by lia.
    assert (Hp : 2 ^ 52 <= Z.pos p).
    { assert (2 ^ 52 <= 2 ^ (d - 1)) by (apply Z.pow_le_mono_r; unfold t in Hte; lia). lia. }
    rewrite binary_round_aux_exact by lia. f_equal. unfold rnd.
    rewrite <- (round_spec_scale _ 1 e (e + 1074)) by lia.
    replace (e - (e + 1074)) with (-1074) by lia. reflexivity.
Qed.

(** The difference of two normal numbers, the first the larger. *)
Lemma SFsub_round mx ex my ey :
  normal mx ex -> normal my ey -> 2 ^ 52 <= svf mx ex - svf my ey ->
  SFsub prec emax (S754_finite false mx ex) (S754_finite false my ey)
  = SF_of_pair (rnd (svf mx ex - svf my ey) 1).
Proof.
  intros [Hx Hex] [Hy Hey] Hd. cbn [SFsub cond_Zopp].
  set (ez := Z.min ex ey).
  destruct (shl_align_fst mx ex ez ltac:(unfold ez; lia)) as [Ex _].
  destruct (shl_align_fst my ey ez ltac:(unfold ez; lia)) as [Ey _].
  rewrite Ex, Ey.
  pose proof (pow2_pos (ez + 1074) ltac:(unfold ez; lia)) as Pz.
  assert (E : (Z.pos mx * 2 ^ (ex - ez) - Z.pos my * 2 ^ (ey - ez)) * 2 ^ (ez + 1074)
              = svf mx ex - svf my ey).
  { assert (A1 : 2 ^ (ex - ez) * 2 ^ (ez + 1074) = 2 ^ (ex + 1074))
      by (rewrite <- pow2_split by (unfold ez; lia); f_equal; lia).
    assert (A2 : 2 ^ (ey - ez) * 2 ^ (ez + 1074) = 2 ^ (ey + 1074))
      by (rewrite <- pow2_split by (unfold ez; lia); f_equal; lia).
    unfold svf. rewrite Z.mul_sub_distr_r, <- !Z.mul_assoc, A1, A2. reflexivity. }
  set (delta := Z.pos mx * 2 ^ (ex - ez) - Z.pos my * 2 ^ (ey - ez)) in *.
  destruct delta as [|p|p] eqn:Ed; try nia.
  cbn [binary_normalize]. rewrite binary_round_rnd; [now rewrite E | unfold ez; lia | lia].
Qed.

(** The same difference when the two numbers are equal. *)
Lemma SFsub_zero m e :
  SFsub prec emax (S754_finite false m e) (S754_finite false m e) = S754_zero false.
Proof.
  cbn [SFsub cond_Zopp]. rewrite Z.sub_diag. reflexivity.
Qed.

(** The quotient of two normal numbers. *)
Lemma SFdiv_round mx ex my ey :
  normal mx ex -> normal my ey -> -1074 <= ex - ey - 53 ->
  SFdiv prec emax (S754_finite false mx ex) (S754_finite false my ey)
  = SF_of_pair (rnd (svf mx ex * 2 ^ 1074) (svf my ey)).
Proof.
  intros Nx Ny He. pose proof Nx as [Hx Hex]. pose proof Ny as [Hy Hey].
  cbn [SFdiv xorb]. unfold SFdiv_core_binary.
  rewrite (normal_digits _ _ Nx), (normal_digits _ _ Ny).
  unfold fexp, SpecFloat.emin, prec, emax.
  replace (Z.min (Z.max (53 + ex - (53 + ey) - 53) (3 - 1024 - 53)) (ex - ey))
    with (ex - ey - 53) by lia.
  replace (ex - ey - (ex - ey - 53)) with 53 by lia.
  rewrite Z.shiftl_mul_pow2 by lia.
  set (N := Z.pos mx * 2 ^ 53).
  destruct (Z.div_eucl N (Z.pos my)) as [q r] eqn:E.
  assert (Eq : q = N / Z.pos my) by (unfold Z.div; now rewrite E).
  assert (Er : r = N mod Z.pos my) by (unfold Z.modulo; now rewrite E).
  subst q r. rewrite new_location_loc_of by lia.
  rewrite binary_round_aux_spec by (unfold N; lia). f_equal. unfold rnd.
  rewrite <- (round_spec_scale N _ (ex - ey - 53) (ex - ey - 53 + 1074)) by (unfold N; lia).
  replace (ex - ey - 53 - (ex - ey - 53 + 1074)) with (-1074) by lia.
  pose proof (pow2_pos (ey + 1074) ltac:(lia)) as Py.
  pose proof (pow2_pos (ex - ey - 53 + 1074) ltac:(lia)) as Pk.
  rewrite <- (round_spec_factor (2 ^ (ey + 1074))) by (unfold N; nia).
  f_equal.
  - assert (A : 2 ^ (ey + 1074) * (2 ^ 53 * 2 ^ (ex - ey - 53 + 1074))
                = 2 ^ (ex + 1074) * 2 ^ 1074)
      by (rewrite <- !pow2_split by lia; f_equal; lia).
    unfold N, svf.
    replace (2 ^ (ey + 1074) * (Z.pos mx * 2 ^ 53 * 2 ^ (ex - ey - 53 + 1074)))
      with (Z.pos mx * (2 ^ (ey + 1074) * (2 ^ 53 * 2 ^ (ex - ey - 53 + 1074)))) by ring.
    rewrite A. ring.
  - unfold svf. ring.
Qed.

Lemma svf_pos m e : -1074 <= e -> 0 < svf m e.
Proof. intros. unfold svf. pose proof (pow2_pos (e + 1074) ltac:(lia)). nia. Qed.

Lemma normal_exp_lower m e k :
  normal m e -> 0 <= k -> 2 ^ k <= svf m e -> k - 1126 <= e.
Proof.
  intros [Hm He] Hk H. destruct (Z_le_gt_dec (k - 1126) e) as [|Hgt]; [assumption | exfalso].
  unfold svf in H. pose proof (pow2_pos (e + 1074) ltac:(lia)) as P.
  assert (2 ^ 53 * 2 ^ (e + 1074) <= 2 ^ k).
  { rewrite <- pow2_split by lia. apply Z.pow_le_mono_r; lia. }
  nia.
Qed.

Lemma normal_exp_mono m1 e1 m2 e2 :
  normal m1 e1 -> normal m2 e2 -> svf m1 e1 <= svf m2 e2 -> e1 <= e2.
Proof.
  intros [Hm1 He1] [Hm2 He2] H.
  destruct (Z_le_gt_dec e1 e2) as [|Hgt]; [assumption | exfalso].
  unfold svf in H.
  pose proof (pow2_pos (e2 + 1074) ltac:(lia)) as P.
  assert (2 * 2 ^ (e2 + 1074) <= 2 ^ (e1 + 1074)).
  { rewrite <- Z.pow_succ_r by lia. apply Z.pow_le_mono_r; lia. }
  nia.
Qed.

Lemma normal_svf_inj m1 e1 m2 e2 :
  normal m1 e1 -> normal m2 e2 -> svf m1 e1 = svf m2 e2 -> m1 = m2 /\ e1 = e2.
Proof.
  intros N1 N2 H.
  assert (e1 = e2) as ->.
  { pose proof (normal_exp_mono _ _ _ _ N1 N2 ltac:(lia)).
    pose proof (normal_exp_mono _ _ _ _ N2 N1 ltac:(lia)). lia. }
  destruct N1 as [_ He]. unfold svf in H.
  pose proof (pow2_pos (e2 + 1074) ltac:(lia)) as P.
  split; [| reflexivity].
  assert (Z.pos m1 = Z.pos m2) by nia. congruence.
Qed.

(** The scaled values of numbers of exponent at least [E] are apart by
    multiples of [2^(E+1074)]. *)
Lemma svf_gap m1 e1 m2 e2 E :
  -1074 <= E -> E <= e1 -> E <= e2 -> svf m2 e2 < svf m1 e1 ->
  2 ^ (E + 1074) <= svf m1 e1 - svf m2 e2.
Proof.
  intros HE H1 H2 Hlt.
  assert (A : forall m e, E <= e ->
            svf m e = (Z.pos m * 2 ^ (e - E)) * 2 ^ (E + 1074)).
  { intros m e He. unfold svf. rewrite <- Z.mul_assoc, <- pow2_split by lia.
    do 2 f_equal. lia. }
  rewrite (A m1 e1 H1), (A m2 e2 H2) in *.
  pose proof (pow2_pos (E + 1074) ltac:(lia)) as P.
  set (u := 2 ^ (E + 1074)) in *.
  set (a := Z.pos m1 * 2 ^ (e1 - E)) in *. set (b := Z.pos m2 * 2 ^ (e2 - E)) in *.
  assert (Hba : b < a) by (apply (Z.mul_lt_mono_pos_r u); lia).
  assert (1 * u <= (a - b) * u) by (apply Z.mul_le_mono_nonneg_r; lia).
  lia.
Qed.

Lemma SFsub_cases mx ex my ey :
  normal mx ex -> normal my ey -> svf my ey <= svf mx ex -> -1022 <= ey ->
  (svf mx ex = svf my ey /\
   SFsub prec emax (S754_finite false mx ex) (S754_finite false my ey) = S754_zero false) \/
  (2 ^ (ey + 1074) <= svf mx ex - svf my ey /\
   SFsub prec emax (S754_finite false mx ex) (S754_finite false my ey)
   = SF_of_pair (rnd (svf mx ex - svf my ey) 1)).
Proof.
  intros Nx Ny Hle Hey.
  destruct (Z.eq_dec (svf mx ex) (svf my ey)) as [E|E].
  - left. split; [exact E |].
    destruct (normal_svf_inj _ _ _ _ Nx Ny E) as [-> ->]. apply SFsub_zero.
  - right. pose proof (normal_exp_mono _ _ _ _ Ny Nx Hle) as Hexp.
    pose proof (svf_gap mx ex my ey ey ltac:(lia) Hexp ltac:(lia) ltac:(lia)) as G.
    split; [exact G |]. apply SFsub_round; try assumption.
    assert (2 ^ 52 <= 2 ^ (ey + 1074)) by (apply Z.pow_le_mono_r; lia). lia.
Qed.

Lemma rnd_good N D U :
  0 < D -> 2 ^ 52 * D <= N -> sv (rnd N D) <= U -> U < 2 ^ 2098 ->
  exists m e, SF_of_pair (rnd N D) = S754_finite false m e /\ normal m e /\
              svf m e = sv (rnd N D).
Proof.
  intros HD HN HU HB. unfold rnd in *.
  destruct (round_spec_normal N D (-1074) HD HN) as [Hm He].
  destruct (round_spec N D (-1074)) as [M E]. cbn [fst snd] in *.
  unfold sv in HU. cbn [fst snd] in HU.
  assert (HE : E <= 971).
  { destruct (Z_le_gt_dec E 971) as [|Hgt]; [assumption | exfalso].
    assert (2 ^ 2046 <= 2 ^ (E + 1074)) by (apply Z.pow_le_mono_r; lia).
    assert (2 ^ 52 * 2 ^ 2046 <= M * 2 ^ (E + 1074)) by nia.
    rewrite <- pow2_split in H0 by lia. change (52 + 2046) with 2098 in H0. lia. }
  destruct M as [|m|m]; try lia.
  exists m, E. unfold SF_of_pair. cbn [fst snd].
  destruct (Z.leb_spec E 971); [| lia].
  repeat split; try lia.
Qed.

Ltac by_compute := apply Z.leb_le; vm_compute; reflexivity.

Lemma rnd_mono N1 D1 N2 D2 :
  0 < D1 -> 0 < D2 -> 2 ^ 52 * D1 <= N1 -> N1 * D2 <= N2 * D1 ->
  sv (rnd N1 D1) <= sv (rnd N2 D2).
Proof. intros. apply round_spec_mono_same; lia. Qed.

Lemma normal_consts :
  normal m_min (-57) /\ normal m_max (-53) /\ normal m_span (-54) /\
  normal m_one (-52) /\ normal m_127 (-46).
Proof. unfold normal. cbv [m_min m_max m_span m_one m_127]. lia. Qed.

Lemma consts_pos : 0 < S_min /\ 0 < S_span /\ 0 < S_one /\ 0 < S_127 /\ S_min < S_max.
Proof. repeat split; apply Z.ltb_lt; vm_compute; reflexivity. Qed.

(* end-point evaluations *)
Lemma G1_top : sv (rnd (S_max - S_min) 1) = S_span.
Proof. vm_compute. reflexivity. Qed.
Lemma G1_bottom : sv (rnd (2 ^ 1017) 1) = 2 ^ 1017.
Proof. vm_compute. reflexivity. Qed.
Lemma G2_top : sv (rnd (S_span * 2 ^ 1074) S_span) = S_one.
Proof. vm_compute. reflexivity. Qed.
Lemma G2_bottom : 2 ^ 1018 <= sv (rnd (2 ^ 1017 * 2 ^ 1074) S_span).
Proof. by_compute. Qed.
Lemma G3_top : sv (rnd S_one 1) = S_one.
Proof. vm_compute. reflexivity. Qed.
Lemma G3_bottom : sv (rnd (2 ^ 966) 1) = 2 ^ 966.
Proof. vm_compute. reflexivity. Qed.
Lemma G4_top : sv (rnd (S_127 * S_one) (2 ^ 1074)) = S_127.
Proof. vm_compute. reflexivity. Qed.

Lemma pow_facts :
  0 < 2 ^ 966 /\ 2 ^ 52 <= 2 ^ 966 /\ 2 ^ 966 <= 2 ^ 1017 /\ 2 ^ 1017 <= 2 ^ 1018 /\
  0 < 2 ^ 1074 /\ 2 ^ 966 <= S_one /\ 2 ^ 52 * S_span <= 2 ^ 1017 * 2 ^ 1074 /\
  2 ^ 52 * 2 ^ 1074 <= S_127 * 2 ^ 966.
Proof. repeat split; first [by_compute | apply Z.ltb_lt; vm_compute; reflexivity]. Qed.

Lemma G1_range s : dom1 s -> G1 s = 0 \/ (2 ^ 1017 <= G1 s <= S_span).
Proof.
  destruct pow_facts as (P0 & P1 & P2 & _).
  intros [->|[Hlo Hhi]]; unfold G1.
  - rewrite Z.eqb_refl. now left.
  - destruct (Z.eqb_spec s S_min) as [E|E]; [lia |]. right. split.
    + rewrite <- G1_bottom. apply rnd_mono; lia.
    + rewrite <- G1_top. apply rnd_mono; lia.
Qed.

Lemma G1_mono s1 s2 : dom1 s1 -> dom1 s2 -> s1 <= s2 -> G1 s1 <= G1 s2.
Proof.
  destruct pow_facts as (P0 & P1 & P2 & _).
  intros H1 H2 Hle. pose proof (G1_range s2 H2) as R2.
  destruct H1 as [->|[Hlo1 Hhi1]].
  - unfold G1 at 1. rewrite Z.eqb_refl. lia.
  - destruct H2 as [->|[Hlo2 Hhi2]]; [lia |]. unfold G1.
    destruct (Z.eqb_spec s1 S_min), (Z.eqb_spec s2 S_min); try lia.
    apply rnd_mono; lia.
Qed.

Lemma G2_range a : dom2 a -> G2 a = 0 \/ (2 ^ 1018 <= G2 a <= S_one).
Proof.
  destruct pow_facts as (P0 & P1 & P2 & P3 & P4 & P5 & P6 & _).
  destruct consts_pos as (C1 & C2 & C3 & C4 & C5).
  intros [->|[Hlo Hhi]]; unfold G2.
  - now left.
  - destruct (Z.eqb_spec a 0) as [E|E]; [lia |]. right.
    assert (Ha : 2 ^ 1017 * 2 ^ 1074 <= a * 2 ^ 1074) by (apply Z.mul_le_mono_nonneg_r; lia).
    split.
    + etransitivity; [apply G2_bottom |]. apply rnd_mono; try lia.
      apply Z.mul_le_mono_nonneg_r; lia.
    + rewrite <- G2_top. apply rnd_mono; try lia.
      apply Z.mul_le_mono_nonneg_r; [lia |]. apply Z.mul_le_mono_nonneg_r; lia.
Qed.

Lemma G2_mono a1 a2 : dom2 a1 -> dom2 a2 -> a1 <= a2 -> G2 a1 <= G2 a2.
Proof.
  destruct pow_facts as (P0 & P1 & P2 & P3 & P4 & P5 & P6 & _).
  destruct consts_pos as (C1 & C2 & C3 & C4 & C5).
  intros H1 H2 Hle. pose proof (G2_range a2 H2) as R2.
  destruct H1 as [->|[Hlo1 Hhi1]].
  - unfold G2 at 1. cbn. lia.
  - destruct H2 as [->|[Hlo2 Hhi2]]; [lia |]. unfold G2.
    destruct (Z.eqb_spec a1 0), (Z.eqb_spec a2 0); try lia.
    assert (Ha : 2 ^ 1017 * 2 ^ 1074 <= a1 * 2 ^ 1074) by (apply Z.mul_le_mono_nonneg_r; lia).
    apply rnd_mono; try lia.
    apply Z.mul_le_mono_nonneg_r; [lia |]. apply Z.mul_le_mono_nonneg_r; lia.
Qed.

Lemma G3_range b : dom3 b -> G3 b = 0 \/ (2 ^ 966 <= G3 b <= S_one).
Proof.
  destruct pow_facts as (P0 & P1 & P2 & P3 & P4 & P5 & P6 & _).
  destruct consts_pos as (C1 & C2 & C3 & C4 & C5).
  intros [->|[->|[Hlo Hgap]]]; unfold G3.
  - cbn [Z.eqb]. right. lia.
  - destruct (Z.eqb_spec S_one 0); [lia |]. rewrite Z.eqb_refl. now left.
  - destruct (Z.eqb_spec b 0); [lia |]. destruct (Z.eqb_spec b S_one); [lia |]. right.
    split.
    + rewrite <- G3_bottom. apply rnd_mono; lia.
    + rewrite <- G3_top at 2. apply rnd_mono; lia.
Qed.

Lemma G3_anti b1 b2 : dom3 b1 -> dom3 b2 -> b1 <= b2 -> G3 b2 <= G3 b1.
Proof.
  destruct pow_facts as (P0 & P1 & P2 & P3 & P4 & P5 & P6 & _).
  destruct consts_pos as (C1 & C2 & C3 & C4 & C5).
  intros H1 H2 Hle.
  pose proof (G3_range b1 H1) as R1. pose proof (G3_range b2 H2) as R2.
  destruct H2 as [->|[->|[Hlo2 Hgap2]]].
  - destruct H1 as [->|[->|[Hlo1 Hgap1]]]; lia.
  - unfold G3 at 1. destruct (Z.eqb_spec S_one 0); [lia |]. rewrite Z.eqb_refl. lia.
  - destruct H1 as [->|[->|[Hlo1 Hgap1]]].
    + unfold G3 at 2. cbn [Z.eqb]. lia.
    + lia.
    + unfold G3.
      destruct (Z.eqb_spec b1 0), (Z.eqb_spec b2 0), (Z.eqb_spec b1 S_one),
        (Z.eqb_spec b2 S_one); try lia.
      apply rnd_mono; lia.
Qed.

Lemma G4_range e : dom4 e -> 0 <= G4 e <= S_127.
Proof.
  destruct pow_facts as (P0 & P1 & P2 & P3 & P4 & P5 & P6 & P7).
  destruct consts_pos as (C1 & C2 & C3 & C4 & C5).
  intros [->|[Hlo Hhi]]; unfold G4.
  - cbn [Z.eqb]. lia.
  - destruct (Z.eqb_spec e 0); [lia |].
    assert (He : S_127 * 2 ^ 966 <= S_127 * e) by (apply Z.mul_le_mono_nonneg_l; lia).
    split.
    + unfold sv, rnd.
      assert (HN : 2 ^ 52 * 2 ^ 1074 <= S_127 * e) by (etransitivity; [exact P7 | exact He]).
      destruct (round_spec_normal (S_127 * e) (2 ^ 1074) (-1074) ltac:(lia) HN) as [Hm Hx].
      apply Z.mul_nonneg_nonneg; [lia |]. apply Z.pow_nonneg. lia.
    + rewrite <- G4_top.
      assert (2 ^ 52 * 2 ^ 1074 <= S_127 * e) by (etransitivity; [exact P7 | exact He]).
      apply rnd_mono; [lia | lia | assumption |].
      apply Z.mul_le_mono_nonneg_r; [lia |]. apply Z.mul_le_mono_nonneg_l; lia.
Qed.

Lemma G4_mono e1 e2 : dom4 e1 -> dom4 e2 -> e1 <= e2 -> G4 e1 <= G4 e2.
Proof.
  destruct pow_facts as (P0 & P1 & P2 & P3 & P4 & P5 & P6 & P7).
  destruct consts_pos as (C1 & C2 & C3 & C4 & C5).
  intros H1 H2 Hle. pose proof (G4_range e2 H2) as R2.
  destruct H1 as [->|[Hlo1 Hhi1]].
  - unfold G4 at 1. cbn [Z.eqb]. lia.
  - destruct H2 as [->|[Hlo2 Hhi2]]; [lia |]. unfold G4.
    destruct (Z.eqb_spec e1 0), (Z.eqb_spec e2 0); try lia.
    assert (He : S_127 * 2 ^ 966 <= S_127 * e1) by (apply Z.mul_le_mono_nonneg_l; lia).
    assert (2 ^ 52 * 2 ^ 1074 <= S_127 * e1) by (etransitivity; [exact P7 | exact He]).
    apply rnd_mono; [lia | lia | assumption |].
    apply Z.mul_le_mono_nonneg_r; [lia |]. apply Z.mul_le_mono_nonneg_l; lia.
Qed.

Lemma bound_facts :
  S_span < 2 ^ 2098 /\ S_one < 2 ^ 2098 /\ S_127 < 2 ^ 2098.
Proof. repeat split; apply Z.ltb_lt; vm_compute; reflexivity. Qed.

Lemma stage1 m e :
  normal m e -> S_min <= svf m e <= S_max ->
  let y := SFsub prec emax (S754_finite false m e) c_min in
  good y /\ sval y = G1 (svf m e) /\ dom1 (svf m e).
Proof.
  intros Nx [Hlo Hhi] y. destruct normal_consts as (Nmin & _).
  destruct bound_facts as (B1 & _). destruct pow_facts as (P0 & P1 & P2 & _).
  destruct consts_pos as (C1 & C2 & C3 & C4 & C5).
  destruct (SFsub_cases m e m_min (-57) Nx Nmin Hlo ltac:(lia)) as [[E Hy]|[Hgap Hy]];
    fold c_min in Hy; fold y in Hy; fold S_min in *.
  - rewrite Hy. split; [now left |]. split; [| now left].
    unfold G1. rewrite E, Z.eqb_refl. reflexivity.
  - change (2 ^ (-57 + 1074)) with (2 ^ 1017) in Hgap.
    assert (D1 : dom1 (svf m e)) by (right; lia).
    pose proof (G1_range _ D1) as R. unfold G1 in R |- *.
    destruct (Z.eqb_spec (svf m e) S_min) as [E|E]; [lia |].
    destruct (rnd_good (svf m e - S_min) 1 S_span ltac:(lia) ltac:(lia) ltac:(lia) B1)
      as (m' & e' & Hf & Nf & Hs).
    rewrite Hy, Hf. split; [right; eauto |]. split; [exact Hs | exact D1].
Qed.

Lemma stage2 y :
  good y -> dom2 (sval y) ->
  let z := SFdiv prec emax y c_span in
  good z /\ sval z = G2 (sval y).
Proof.
  intros Gy Dy z. destruct normal_consts as (_ & _ & Nspan & _).
  destruct bound_facts as (_ & B2 & _).
  destruct pow_facts as (P0 & P1 & P2 & P3 & P4 & P5 & P6 & _).
  destruct consts_pos as (C1 & C2 & C3 & C4 & C5).
  destruct Gy as [->|(m & e & -> & Ny)].
  - subst z. cbn. split; [now left | reflexivity].
  - cbn [sval] in *. pose proof (svf_pos m e ltac:(destruct Ny; lia)) as Hpos.
    destruct Dy as [Dy|[Hlo Hhi]]; [lia |].
    pose proof (G2_range (svf m e) ltac:(right; lia)) as R. unfold G2 in R |- *.
    destruct (Z.eqb_spec (svf m e) 0) as [E|E]; [lia |].
    assert (Hz : z = SF_of_pair (rnd (svf m e * 2 ^ 1074) S_span)).
    { subst z. unfold c_span. rewrite SFdiv_round; [reflexivity | assumption | assumption |].
      destruct Ny; lia. }
    assert (HN : 2 ^ 52 * S_span <= svf m e * 2 ^ 1074).
    { etransitivity; [exact P6 |]. apply Z.mul_le_mono_nonneg_r; lia. }
    destruct (rnd_good (svf m e * 2 ^ 1074) S_span S_one C2 HN ltac:(lia) B2)
      as (m' & e' & Hf & Nf & Hs).
    rewrite Hz, Hf. split; [right; eauto | exact Hs].
Qed.

Lemma stage3 z :
  good z -> (sval z = 0 \/ 2 ^ 1018 <= sval z <= S_one) ->
  let w := SFsub prec emax c_one z in
  good w /\ sval w = G3 (sval z) /\ dom3 (sval z).
Proof.
  intros Gz Dz w. destruct normal_consts as (_ & _ & _ & None & _).
  destruct bound_facts as (_ & B2 & _).
  destruct pow_facts as (P0 & P1 & P2 & P3 & P4 & P5 & P6 & _).
  destruct consts_pos as (C1 & C2 & C3 & C4 & C5).
  destruct Gz as [->|(m & e & -> & Nz)].
  - assert (Hw : w = c_one) by reflexivity. rewrite Hw.
    split; [right; exists m_one, (-52); split; [reflexivity | exact None] |].
    split; [reflexivity | now left].
  - cbn [sval] in *. pose proof (svf_pos m e ltac:(destruct Nz; lia)) as Hpos.
    destruct Dz as [Dz|[Hlo Hhi]]; [lia |].
    pose proof (normal_exp_lower m e 1018 Nz ltac:(lia) Hlo) as He.
    destruct (SFsub_cases m_one (-52) m e None Nz Hhi ltac:(lia)) as [[E Hw]|[Hgap Hw]];
      fold c_one in Hw; fold w in Hw; fold S_one in *.
    + rewrite Hw. split; [now left |]. split; [| right; left; lia].
      unfold G3. destruct (Z.eqb_spec (svf m e) 0); [lia |].
      rewrite <- E, Z.eqb_refl. reflexivity.
    + assert (Hg : 2 ^ 966 <= S_one - svf m e).
      { etransitivity; [| exact Hgap]. apply Z.pow_le_mono_r; lia. }
      assert (D3 : dom3 (svf m e)) by (right; right; lia).
      pose proof (G3_range _ D3) as R. unfold G3 in R |- *.
      destruct (Z.eqb_spec (svf m e) 0); [lia |].
      destruct (Z.eqb_spec (svf m e) S_one); [lia |].
      destruct (rnd_good (S_one - svf m e) 1 S_one ltac:(lia) ltac:(lia) ltac:(lia) B2)
        as (m' & e' & Hf & Nf & Hs).
      rewrite Hw, Hf. split; [right; eauto |]. split; [exact Hs | exact D3].
Qed.

Lemma stage4 w :
  good w -> dom4 (sval w) ->
  let f := SFmul prec emax c_127 w in
  good f /\ sval f = G4 (sval w).
Proof.
  intros Gw Dw f. destruct normal_consts as (_ & _ & _ & _ & N127).
  destruct bound_facts as (_ & _ & B3).
  destruct pow_facts as (P0 & P1 & P2 & P3 & P4 & P5 & P6 & P7).
  destruct consts_pos as (C1 & C2 & C3 & C4 & C5).
  destruct Gw as [->|(m & e & -> & Nw)].
  - subst f. cbn. split; [now left | reflexivity].
  - cbn [sval] in *. pose proof (svf_pos m e ltac:(destruct Nw; lia)) as Hpos.
    destruct Dw as [Dw|[Hlo Hhi]]; [lia |].
    pose proof (normal_exp_lower m e 966 Nw ltac:(lia) Hlo) as He.
    pose proof (G4_range (svf m e) ltac:(right; lia)) as R. unfold G4 in R |- *.
    destruct (Z.eqb_spec (svf m e) 0) as [E|E]; [lia |].
    assert (Hf : f = SF_of_pair (rnd (S_127 * svf m e) (2 ^ 1074))).
    { subst f. unfold c_127. rewrite SFmul_round; [reflexivity | assumption | assumption | lia]. }
    assert (HN : 2 ^ 52 * 2 ^ 1074 <= S_127 * svf m e).
    { etransitivity; [exact P7 |]. apply Z.mul_le_mono_nonneg_l; lia. }
    destruct (rnd_good (S_127 * svf m e) (2 ^ 1074) S_127 P4 HN ltac:(lia) B3)
      as (m' & e' & Hf' & Nf & Hs).
    rewrite Hf, Hf'. split; [right; eauto | exact Hs].
Qed.

(** * The release velocity over binary64 *)

Lemma trunc_svf m e : -1074 <= e -> trunc_finite false m e = svf m e / 2 ^ 1074.
Proof.
  intros He. unfold trunc_finite, svf.
  pose proof (pow2_pos 1074 ltac:(lia)) as P.
  destruct e as [|p|p].
  - cbn [Z.shiftl]. rewrite Z.add_0_l, Z.div_mul by lia. reflexivity.
  - rewrite Z.shiftl_mul_pow2 by lia. rewrite pow2_split by lia.
    rewrite Z.mul_assoc, Z.div_mul by lia. reflexivity.
  - rewrite Z.shiftr_div_pow2 by lia.
    assert (E : 2 ^ 1074 = 2 ^ (Z.neg p + 1074) * 2 ^ Z.pos p).
    { rewrite <- pow2_split by lia. f_equal. lia. }
    rewrite E. pose proof (pow2_pos (Z.neg p + 1074) ltac:(lia)).
    pose proof (pow2_pos (Z.pos p) ltac:(lia)).
    rewrite (Z.mul_comm (Z.pos m)), Z.div_mul_cancel_l by lia. reflexivity.
Qed.

Lemma SFleb_svf m1 e1 m2 e2 :
  normal m1 e1 -> normal m2 e2 ->
  SFleb (S754_finite false m1 e1) (S754_finite false m2 e2) = true ->
  svf m1 e1 <= svf m2 e2.
Proof.
  intros [Hm1 He1] [Hm2 He2]. unfold SFleb, SFcompare, svf.
  pose proof (pow2_pos (e1 + 1074) ltac:(lia)) as P1.
  destruct (Z.compare_spec e1 e2) as [->|Hlt|Hgt].
  - change (Pos.compare_cont Eq m1 m2) with (Pos.compare m1 m2).
    destruct (Pos.compare_spec m1 m2); try discriminate; intros _; nia.
  - intros _.
    assert (2 * 2 ^ (e1 + 1074) <= 2 ^ (e2 + 1074)).
    { rewrite <- Z.pow_succ_r by lia. apply Z.pow_le_mono_r; lia. }
    nia.
  - discriminate.
Qed.

Lemma window_normal (x : spec_float) :
  valid_binary x = true -> SFleb c_min x = true -> SFleb x c_max = true ->
  exists m e, x = S754_finite false m e /\ normal m e /\ S_min <= svf m e <= S_max.
Proof.
  intros Hv Hlo Hhi. destruct normal_consts as (Nmin & Nmax & _).
  destruct x as [s|s| |s m e].
  - lazy in Hlo. discriminate.
  - destruct s; [lazy in Hlo | lazy in Hhi]; discriminate.
  - lazy in Hlo. discriminate.
  - destruct s; [lazy in Hlo; discriminate |].
    assert (He : -57 <= e <= -53).
    { unfold SFleb, SFcompare, c_min, c_max in Hlo, Hhi.
      destruct (Z.compare_spec (-57) e), (Z.compare_spec e (-53)); try discriminate; lia. }
    assert (Nx : normal m e).
    { cbn [SpecFloat.valid_binary] in Hv. unfold bounded, canonical_mantissa in Hv.
    apply andb_true_iff in Hv as [Hc _]. apply Z.eqb_eq in Hc.
    unfold fexp, SpecFloat.emin, prec, emax in Hc.
    pose proof (Zdigits2_bounds (Z.pos m) ltac:(lia)) as B. cbn [Zdigits2] in B.
    assert (Hd : Z.pos (digits2_pos m) = 53) by lia. rewrite Hd in B.
    split; [exact B | lia]. }
    exists m, e. split; [reflexivity |]. split; [exact Nx |]. split.
    + apply (SFleb_svf m_min (-57) m e Nmin Nx Hlo).
    + apply (SFleb_svf m e m_max (-53) Nx Nmax Hhi).
Qed.

Lemma Prim2SF_consts :
  Prim2SF Velocity.min_duration = c_min /\
  Prim2SF Velocity.max_duration = c_max /\
  Prim2SF (Velocity.max_duration - Velocity.min_duration)%float = c_span /\
  Prim2SF 1%float = c_one /\
  Prim2SF 127%float = c_127.
Proof. repeat split; vm_compute; reflexivity. Qed.

Lemma scaled_spec (d : float) :
  Prim2SF (Velocity.scaled d)
  = SFmul prec emax c_127
      (SFsub prec emax c_one
         (SFdiv prec emax (SFsub prec emax (Prim2SF d) c_min) c_span)).
Proof.
  destruct Prim2SF_consts as (Emin & _ & Espan & Eone & E127).
  unfold Velocity.scaled.
  rewrite mul_spec, E127.
  rewrite (sub_spec 1%float), Eone.
  rewrite div_spec, Espan.
  rewrite (sub_spec d), Emin. reflexivity.
Qed.

Lemma int_good (y : float) (f : spec_float) :
  Prim2SF y = f -> good f -> int y = Ok (sval f / 2 ^ 1074).
Proof.
  intros E Gf. unfold int. rewrite E.
  destruct Gf as [->|(m & e & -> & [_ He])].
  - reflexivity.
  - cbn [sval]. rewrite trunc_svf by lia. reflexivity.
Qed.

Lemma scaled_window (d : float) (m : positive) (e : Z) :
  Prim2SF d = S754_finite false m e -> normal m e -> S_min <= svf m e <= S_max ->
  int (Velocity.scaled d) = Ok (V (svf m e)) /\ chain (svf m e) /\
  0 <= V (svf m e) <= 127.
Proof.
  intros Ed Nx Hw.
  destruct (stage1 m e Nx Hw) as (Gy & Sy & D1).
  set (y := SFsub prec emax (S754_finite false m e) c_min) in *.
  pose proof (G1_range _ D1) as R1. rewrite <- Sy in R1.
  destruct (stage2 y Gy R1) as (Gz & Sz).
  set (z := SFdiv prec emax y c_span) in *.
  pose proof (G2_range _ R1) as R2. rewrite <- Sz in R2.
  destruct (stage3 z Gz R2) as (Gw & Sw & D3).
  set (w := SFsub prec emax c_one z) in *.
  pose proof (G3_range _ D3) as R3. rewrite <- Sw in R3.
  destruct (stage4 w Gw R3) as (Gf & Sf).
  set (f := SFmul prec emax c_127 w) in *.
  pose proof (G4_range _ R3) as R4. rewrite <- Sf in R4.
  assert (Ef : sval f = G4 (G3 (G2 (G1 (svf m e))))) by congruence.
  split; [| split].
  - unfold V. rewrite <- Ef. apply int_good; [| exact Gf].
    rewrite scaled_spec, Ed. reflexivity.
  - unfold chain. rewrite <- Sy, <- Sz, <- Sw. auto.
  - unfold V. rewrite <- Ef.
    assert (P : 0 < 2 ^ 1074) by (apply Z.pow_pos_nonneg; lia).
    assert (T : S_127 = 127 * 2 ^ 1074) by (vm_compute; reflexivity).
    split; [apply Z.div_pos; lia |].
    apply Z.div_le_upper_bound; lia.
Qed.

Lemma V_anti (s1 s2 : Z) : chain s1 -> chain s2 -> s1 <= s2 -> V s2 <= V s1.
Proof.
  intros (A1 & A2 & A3 & A4) (B1 & B2 & B3 & B4) H. unfold V.
  apply Z.div_le_mono; [apply Z.pow_pos_nonneg; lia |].
  apply G4_mono; try assumption.
  apply G3_anti; try assumption.
  apply G2_mono; try assumption.
  apply G1_mono; assumption.
Qed.

Ltac cmp_cases :=
  repeat match goal with
         | |- context [Z.compare ?a ?b] => destruct (Z.compare_spec a b)
         | H : context [Z.compare ?a ?b] |- _ => destruct (Z.compare_spec a b)
         | |- context [Pos.compare_cont Eq ?a ?b] =>
             change (Pos.compare_cont Eq a b) with (Pos.compare a b);
             destruct (Pos.compare_spec a b)
         | H : context [Pos.compare_cont Eq ?a ?b] |- _ =>
             change (Pos.compare_cont Eq a b) with (Pos.compare a b) in H;
             destruct (Pos.compare_spec a b)
         end.

Ltac sf_cases :=
  cbn; try discriminate; try reflexivity;
  repeat match goal with s : bool |- _ => destruct s end;
  cbn; try discriminate; try reflexivity;
  cmp_cases; cbn; try discriminate; try reflexivity; intros; subst; try lia;
  try reflexivity; try discriminate.

(** A value that is above some value and not above a finite one is at most
    the latter. *)
Lemma SFlt_not_lt_le (a x : spec_float) (s : bool) (m : positive) (e : Z) :
  SFltb a x = true -> SFltb (S754_finite s m e) x = false ->
  SFleb x (S754_finite s m e) = true.
Proof.
  unfold SFleb, SFltb.
  destruct a as [sa|sa| |sa ma ea], x as [sx|sx| |sx mx ex]; sf_cases.
Qed.

(** A value that is not NaN and is neither below nor above a finite one is
    that one. *)
Lemma SF_not_lt_eq (x : spec_float) (s : bool) (m : positive) (e : Z) :
  x <> S754_nan ->
  SFltb x (S754_finite s m e) = false -> SFltb (S754_finite s m e) x = false ->
  x = S754_finite s m e.
Proof.
  unfold SFltb. intros Hn.
  destruct x as [sx|sx| |sx mx ex]; try contradiction; sf_cases.
Qed.

Lemma is_nan_spec (d : float) : PrimFloat.is_nan d = false -> Prim2SF d <> S754_nan.
Proof.
  unfold PrimFloat.is_nan. rewrite FloatAxioms.eqb_spec. intros H E. rewrite E in H. discriminate.
Qed.

Lemma ltb_leb (x y : float) : (x <? y)%float = true -> (x <=? y)%float = true.
Proof. rewrite ltb_spec, leb_spec. apply SFlt_le. Qed.

Lemma leb_trans (x y z : float) :
  (x <=? y)%float = true -> (y <=? z)%float = true -> (x <=? z)%float = true.
Proof. rewrite !leb_spec. apply SFle_le_trans. Qed.

Lemma window_consts :
  (Velocity.min_duration <=? Velocity.min_duration)%float = true /\
  (Velocity.min_duration <=? Velocity.max_duration)%float = true /\
  (Velocity.max_duration <=? Velocity.max_duration)%float = true.
Proof. repeat split; vm_compute; reflexivity. Qed.

(** The clamped duration is always inside the window. *)
Lemma clamp_window (d : float) :
  (Velocity.min_duration <=? Velocity.clamp_duration d)%float = true /\
  (Velocity.clamp_duration d <=? Velocity.max_duration)%float = true.
Proof.
  destruct window_consts as (W1 & W2 & W3).
  destruct Prim2SF_consts as (Emin & Emax & _).
  unfold Velocity.clamp_duration, fmax, fmin, max2, min2.
  destruct (Velocity.max_duration <? d)%float eqn:Hhi.
  - rewrite min_below_max. auto.
  - destruct (Velocity.min_duration <? d)%float eqn:Hlo; [| auto].
    split; [now apply ltb_leb |].
    rewrite ltb_spec in Hhi, Hlo. rewrite leb_spec.
    rewrite Emax in *. unfold c_max in *.
    eapply SFlt_not_lt_le; eassumption.
Qed.

(** Inside the window the clamp changes nothing. *)
Lemma clamp_inside (d : float) :
  (Velocity.min_duration <=? d)%float = true ->
  (d <=? Velocity.max_duration)%float = true ->
  Velocity.clamp_duration d = d.
Proof.
  intros Hlo Hhi. destruct Prim2SF_consts as (Emin & _).
  unfold Velocity.clamp_duration, fmax, fmin, max2, min2.
  rewrite (leb_not_ltb _ _ Hhi).
  destruct (Velocity.min_duration <? d)%float eqn:Hlt; [reflexivity |].
  apply Prim2SF_inj. rewrite leb_spec in Hlo. rewrite ltb_spec in Hlt.
  rewrite Emin in *. unfold c_min in *. symmetry.
  now apply SFle_antisym_finite.
Qed.

(** The code's clamp is the three-way clamp, NaN apart. *)
Lemma clamp_three_way (d : float) :
  PrimFloat.is_nan d = false ->
  Velocity.clamp_duration d = Velocity.clamp d Velocity.min_duration Velocity.max_duration.
Proof.
  intros Hn. apply is_nan_spec in Hn.
  destruct Prim2SF_consts as (Emin & Emax & _).
  unfold Velocity.clamp_duration, Velocity.clamp, fmax, fmin, max2, min2.
  destruct (Velocity.max_duration <? d)%float eqn:Hhi.
  - rewrite min_below_max.
    assert (Hd : (d <? Velocity.min_duration)%float = false).
    { apply (leb_ltb_trans Velocity.min_duration Velocity.max_duration d);
        [vm_compute; reflexivity | exact Hhi]. }
    now rewrite Hd.
  - destruct (Velocity.min_duration <? d)%float eqn:Hlo.
    + now rewrite (ltb_asym _ _ Hlo).
    + destruct (d <? Velocity.min_duration)%float eqn:Hlt; [reflexivity |].
      apply Prim2SF_inj. rewrite ltb_spec in Hlo, Hlt.
      rewrite Emin in *. unfold c_min in *. symmetry.
      now apply SF_not_lt_eq.
Qed.

Lemma of_duration_window (d : float) :
  (Velocity.min_duration <=? d)%float = true ->
  (d <=? Velocity.max_duration)%float = true ->
  exists m e,
    Prim2SF d = S754_finite false m e /\ normal m e /\
    int (Velocity.scaled d) = Ok (V (svf m e)) /\ chain (svf m e) /\
    0 <= V (svf m e) <= 127.
Proof.
  intros Hlo Hhi. destruct Prim2SF_consts as (Emin & Emax & _).
  rewrite leb_spec in Hlo, Hhi. rewrite Emin in Hlo. rewrite Emax in Hhi.
  destruct (window_normal (Prim2SF d) (Prim2SF_valid d) Hlo Hhi) as (m & e & Ed & Nx & Hw).
  destruct (scaled_window d m e Ed Nx Hw) as (Hint & Hc & Hv).
  exists m, e. auto.
Qed.

Lemma zclamp_three_way (v : Z) : zmax 1 (zmin 127 v) = Velocity.clampZ v 1 127.
Proof.
  unfold zmax, zmin, max2, min2, Velocity.clampZ.
  destruct (Z.ltb_spec v 127), (Z.ltb_spec v 1), (Z.ltb_spec 127 v); try lia;
    repeat match goal with |- context [?a <? ?b] => destruct (Z.ltb_spec a b) end; lia.
Qed.

(** X2. Within the window the velocity does not increase with the hold:
    for binary64 durations [0.05 <= d1 <= d2 <= 0.5] the velocities exist
    and the one of [d2] is at most the one of [d1]. *)
Theorem velocity_monotone (d1 d2 : float) :
  (0.05 <=? d1)%float = true -> (d1 <=? d2)%float = true -> (d2 <=? 0.5)%float = true ->
  exists v1 v2,
    Velocity.of_duration d1 = Ok v1 /\ Velocity.of_duration d2 = Ok v2 /\ v2 <= v1.
Proof.
  intros H1 H12 H2.
  change 0.05%float with Velocity.min_duration in H1.
  change 0.5%float with Velocity.max_duration in H2.
  pose proof (leb_trans _ _ _ H12 H2) as H1'. pose proof (leb_trans _ _ _ H1 H12) as H2'.
  destruct (of_duration_window d1 H1 H1') as (m1 & e1 & E1 & N1 & I1 & C1 & B1).
  destruct (of_duration_window d2 H2' H2) as (m2 & e2 & E2 & N2 & I2 & C2 & B2).
  assert (Hs : svf m1 e1 <= svf m2 e2).
  { apply SFleb_svf; try assumption. rewrite <- E1, <- E2, <- leb_spec. exact H12. }
  pose proof (V_anti _ _ C1 C2 Hs) as HV.
  unfold Velocity.of_duration.
  rewrite (clamp_inside d1 H1 H1'), (clamp_inside d2 H2' H2), I1, I2.
  cbn [rbind]. do 2 eexists. split; [reflexivity |]. split; [reflexivity |].
  rewrite !zclamp_range by lia. lia.
Qed.

Lemma velocity_monotone_witness :
  exists v1 v2,
    Velocity.of_duration 0.1%float = Ok v1 /\ Velocity.of_duration 0.3%float = Ok v2 /\
    v2 <= v1.
Proof.
  apply (velocity_monotone 0.1%float 0.3%float); vm_compute; reflexivity.
Defined.

Lemma SFeqb_irrefl_nan (x : spec_float) : SFeqb x x = false -> x = S754_nan.
Proof.
  unfold SFeqb, SFcompare. destruct x as [s|s| |s m e]; try destruct s;
    rewrite ?Z.compare_refl, ?Pos.compare_cont_refl; cbn; congruence.
Qed.

(** A duration that is NaN is taken for the shortest one. *)
Lemma clamp_nan (d : float) :
  PrimFloat.is_nan d = true -> Velocity.clamp_duration d = Velocity.min_duration.
Proof.
  unfold PrimFloat.is_nan. rewrite negb_true_iff, FloatAxioms.eqb_spec.
  intros Hn. apply SFeqb_irrefl_nan in Hn.
  destruct Prim2SF_consts as (Emin & Emax & _).
  unfold Velocity.clamp_duration, fmax, fmin, max2, min2.
  assert (H1 : (Velocity.max_duration <? d)%float = false).
  { rewrite ltb_spec, Emax, Hn. reflexivity. }
  rewrite H1.
  assert (H2 : (Velocity.min_duration <? d)%float = false).
  { rewrite ltb_spec, Emin, Hn. reflexivity. }
  now rewrite H2.
Qed.

(** The velocity of a release exists and is in 1..127 for every pair of
    instants. *)
Lemma on_release_range (press release : float) :
  exists v, Velocity.on_release press release = Ok v /\ 1 <= v <= 127.
Proof.
  unfold Velocity.on_release, Velocity.of_duration.
  destruct (clamp_window (release - press)%float) as [Hlo Hhi].
  destruct (of_duration_window _ Hlo Hhi) as (m & e & _ & _ & Hint & _ & HV).
  rewrite Hint. cbn [rbind]. eexists. split; [reflexivity |].
  rewrite zclamp_range by lia. lia.
Qed.

(** The code's nested [max] and [min] are the three-way clamp, and the
    two final [max] and [min] likewise, unless the duration is NaN. *)
Lemma on_release_three_way (press release : float) :
  PrimFloat.is_nan (release - press)%float = false ->
  Velocity.on_release press release = Velocity.spec_velocity int press release.
Proof.
  intros Hn. unfold Velocity.on_release, Velocity.of_duration, Velocity.spec_velocity.
  rewrite (clamp_three_way _ Hn). unfold Velocity.scaled.
  destruct (int _) as [v|err]; cbn [rbind]; [| reflexivity].
  now rewrite zclamp_three_way.
Qed.

(** Truncation and rounding differ: for a key held 0.1 s the code gives
    velocity 112, where rounding the scaled value to the nearest integer
    gives 113; the release of a key pressed at 0 and released at 0.1
    writes NoteOff with velocity 112. *)
Lemma velocity_truncated_not_rounded :
  Velocity.on_release 0%float 0.1%float = Ok 112 /\
  Velocity.spec_velocity round 0%float 0.1%float = Ok 113 /\
  wire (run [KeyPress 1 0%float; KeyRelease 1 0.1%float]
            (init_app (Some (MkSerial true [] []))))
  = [[0x90; 36; 100]; [0x80; 36; 112]].
Proof. vm_compute. repeat split; reflexivity. Qed.

(** X3. For every press instant and release instant, whatever floats they
    are, the release yields a velocity [v] with [1 <= v <= 127]: the
    conversion never raises. When the difference of the two instants is
    NaN, [v] is 127. [v] is the velocity of every NoteOff that
    [on_key_release] writes for a key whose press was recorded at that
    instant. The conversion truncates: a key held for 0.1 s gets velocity
    112, where the scaled value is 112.88..., and one held for 0.275 s
    gets 63. *)
Theorem release_velocity (press release : float) :
  (exists v,
      Velocity.on_release press release = Ok v /\ 1 <= v <= 127 /\
      (PrimFloat.is_nan (release - press)%float = true -> v = 127) /\
      forall st item_id,
        key_press_times st !! item_id = Some press ->
        wire_extends (fun message => exists note, message = [0x80; note; v])
                     st (snd (on_key_release item_id release st))) /\
  Velocity.on_release 0%float 0.1%float = Ok 112 /\
  Velocity.on_release 0%float 0.275%float = Ok 63.
Proof.
  split; [| split; vm_compute; reflexivity].
  destruct (on_release_range press release) as (v & Hrel & Hv).
  exists v. split; [exact Hrel |]. split; [exact Hv |]. split.
  - intros Hn. unfold Velocity.on_release, Velocity.of_duration in Hrel.
    rewrite (clamp_nan _ Hn) in Hrel.
    assert (E : rbind (int (Velocity.scaled Velocity.min_duration))
                      (fun velocity => Ok (zmax 1 (zmin 127 velocity))) = Ok 127)
      by (vm_compute; reflexivity).
    rewrite E in Hrel. now injection Hrel as <-.
  - intros st item_id Hp. unfold on_key_release, bind, modify, get, lift.
    rewrite Hp, Hrel.
    set (st1 := with_key_press_times _ st).
    destruct (key_note st item_id) as [note|]; [| now apply wire_extends_same].
    destruct (send_note_off note v st1) as [r st'] eqn:E.
    eapply wire_extends_trans; [now apply (wire_extends_same _ st st1) |].
    eapply send_note_off_wire; [| exact E]. now exists note.
Qed.

(** * Further properties of the handlers *)

(** ** What goes on the wire *)

Section WireMessages.

Lemma encode_data_bytes (msg : MidiMessage) (status d1 d2 : Z) :
  encode msg = Ok [status; d1; d2] -> is_byte d1 = true /\ is_byte d2 = true.
Proof.
  intros He. apply encode_bytes_ok in He. cbn [forallb] in He.
  apply andb_true_iff in He as [_ He]. apply andb_true_iff in He as [H1 He].
  apply andb_true_iff in He as [H2 _]. auto.
Qed.

Lemma send_control_change_message (control v : Z) :
  keeps (wire_extends wire_message) (send_control_change control v).
Proof.
  intros st r st'. rewrite send_control_change_cases.
  destruct (serial_conn st) as [s|] eqn:Hs;
    [| intros [= <- <-]; apply wire_extends_refl].
  destruct (is_open s); [| intros [= <- <-]; apply wire_extends_refl].
  destruct (encode _) as [message|e] eqn:He;
    [| intros [= <- <-]; apply wire_extends_refl].
  pose proof (encode_cc_shape _ _ _ He) as ->.
  apply encode_data_bytes in He as [H1 H2].
  destruct (hd true (pending s)); intros [= <- <-].
  - eapply wire_extends_one; [exact Hs | | reflexivity].
    exists 0xB0, control, v. cbn. auto 6.
  - apply wire_extends_same. now apply wire_dropped.
Qed.

Lemma send_note_on_message (note velocity : Z) :
  keeps (wire_extends wire_message) (send_note_on note velocity).
Proof.
  intros st r st'. destruct (encode (NoteOn CHANNEL note velocity)) as [message|e] eqn:He.
  - pose proof (encode_note_on_here _ _ _ He) as ->.
    apply encode_data_bytes in He as [H1 H2].
    apply send_note_on_wire. exists 0x90, note, velocity. cbn. auto 6.
  - rewrite send_note_on_cases, He.
    destruct (serial_conn st) as [s|]; [destruct (is_open s) |];
      intros [= <- <-]; apply wire_extends_refl.
Qed.

Lemma send_note_off_message (note velocity : Z) :
  keeps (wire_extends wire_message) (send_note_off note velocity).
Proof.
  intros st r st'. destruct (encode (NoteOff CHANNEL note velocity)) as [message|e] eqn:He.
  - pose proof (encode_note_off_here _ _ _ He) as ->.
    apply encode_data_bytes in He as [H1 H2].
    apply send_note_off_wire. exists 0x80, note, velocity. cbn. auto 6.
  - rewrite send_note_off_cases, He.
    destruct (serial_conn st) as [s|]; [destruct (is_open s) |];
      intros [= <- <-]; apply wire_extends_refl.
Qed.

End WireMessages.

Ltac keeps_wire :=
  repeat first
    [ apply send_control_change_message
    | apply send_note_on_message
    | apply send_note_off_message
    | apply keeps_ret; apply wire_extends_refl
    | apply keeps_raise; apply wire_extends_refl
    | apply keeps_lift; apply wire_extends_refl
    | apply keeps_get; apply wire_extends_refl
    | apply keeps_modify; intros ?; apply wire_extends_same; reflexivity
    | apply keeps_first_key; [apply wire_extends_refl |]
    | apply keeps_bind; [apply wire_extends_trans | | intros ?]
    | match goal with
      | |- keeps _ (match ?x with _ => _ end) => destruct x
      end ].

Lemma handle_message (e : event) : keeps (wire_extends wire_message) (handle e).
Proof.
  destruct e; cbn [handle].
  - unfold on_vertical_slider. keeps_wire.
  - unfold on_horizontal_slider. keeps_wire.
  - unfold set_value, the_knob, set_knob, knob_command, on_knob_change. keeps_wire.
  - unfold click, set_value, the_knob, set_knob, knob_command, on_knob_change. keeps_wire.
  - unfold release, the_knob, knob_command, on_knob_change. keeps_wire.
  - unfold on_button_press. keeps_wire.
  - unfold on_key_press. keeps_wire.
  - unfold on_key_release. keeps_wire.
  - unfold handle_midi_message, press_virtual_key, release_virtual_key. keeps_wire.
Qed.

Lemma run_keeps (P : App -> App -> Prop) :
  (forall st, P st st) -> (forall a b c, P a b -> P b c -> P a c) ->
  (forall e, keeps P (handle e)) ->
  forall events st, P st (run events st).
Proof.
  intros Hrefl Htrans Hstep. unfold run.
  induction events as [|e events IH]; intros st; cbn; [apply Hrefl |].
  eapply Htrans; [| apply IH]. unfold dispatch.
  destruct (handle e st) as [r st'] eqn:E. exact (Hstep e _ _ _ E).
Qed.

Lemma release_all_message (notes : list (Z * Z)) :
  keeps (wire_extends wire_message) (release_all notes).
Proof.
  induction notes as [|[note velocity] notes IH]; cbn [release_all].
  - apply keeps_ret, wire_extends_refl.
  - apply keeps_bind; [apply wire_extends_trans | apply send_note_off_message |].
    intros _. exact IH.
Qed.

Lemma on_closing_message : keeps (wire_extends wire_message) on_closing.
Proof.
  unfold on_closing.
  apply keeps_bind; [apply wire_extends_trans | apply keeps_get, wire_extends_refl |].
  intros st0. destruct (serial_ready st0); [| apply keeps_ret, wire_extends_refl].
  apply keeps_bind; [apply wire_extends_trans | apply release_all_message |].
  intros _. apply keeps_modify. intros st. apply wire_extends_same.
  unfold wire. destruct (serial_conn st) as [s|] eqn:E; cbn; now rewrite ?E.
Qed.

(** X5. Whatever the events, the outcomes of the writes and the state of the
    port, the messages on the wire after a run, and after closing the
    window then, are those that were there before, in their order,
    followed by new ones; every new one has three bytes: the status 0x80,
    0x90 or 0xB0 (channel 0) and two data bytes in 0..255. *)
Theorem wire_only_grows (events : list event) (st : App) :
  wire_extends wire_message st (run events st) /\
  wire_extends wire_message (run events st) (snd (on_closing (run events st))).
Proof.
  split.
  - apply run_keeps;
      [apply wire_extends_refl | apply wire_extends_trans | apply handle_message].
  - destruct (on_closing (run events st)) as [r st'] eqn:E.
    exact (on_closing_message _ _ _ E).
Qed.

(** ** A port that is closed or missing *)

Section Quiet.

Lemma quiet_refl (st : App) : quiet st st.
Proof. intros _. auto. Qed.

Lemma quiet_trans (a b c : App) : quiet a b -> quiet b c -> quiet a c.
Proof.
  unfold quiet, serial_ready. intros Hab Hbc Ha.
  destruct (Hab Ha) as [Hs Hn]. rewrite <- Hs in Ha.
  destruct (Hbc Ha) as [Hs' Hn']. split; congruence.
Qed.

Lemma sender_quiet (m : M unit) :
  (forall st, serial_ready st = false -> m st = (Ok tt, st)) -> keeps quiet m.
Proof. intros Hm st r st' E Hready. rewrite (Hm st Hready) in E. now injection E as <- <-. Qed.

Lemma send_control_change_closed (control v : Z) (st : App) :
  serial_ready st = false -> send_control_change control v st = (Ok tt, st).
Proof. intros H. unfold send_control_change, bind, get. now rewrite H. Qed.

Lemma send_note_on_closed (note velocity : Z) (st : App) :
  serial_ready st = false -> send_note_on note velocity st = (Ok tt, st).
Proof. intros H. unfold send_note_on, bind, get. now rewrite H. Qed.

Lemma send_note_off_closed (note velocity : Z) (st : App) :
  serial_ready st = false -> send_note_off note velocity st = (Ok tt, st).
Proof. intros H. unfold send_note_off, bind, get. now rewrite H. Qed.

End Quiet.

Ltac keeps_quiet :=
  repeat first
    [ apply sender_quiet; intros ?; first [apply send_control_change_closed
                                          | apply send_note_on_closed
                                          | apply send_note_off_closed]
    | apply keeps_ret; apply quiet_refl
    | apply keeps_raise; apply quiet_refl
    | apply keeps_lift; apply quiet_refl
    | apply keeps_get; apply quiet_refl
    | apply keeps_modify; intros ? ?; split; reflexivity
    | apply keeps_first_key; [apply quiet_refl |]
    | apply keeps_bind; [apply quiet_trans | | intros ?]
    | match goal with
      | |- keeps _ (match ?x with _ => _ end) => destruct x
      end ].

Lemma handle_quiet (e : event) : keeps quiet (handle e).
Proof.
  destruct e; cbn [handle].
  - unfold on_vertical_slider. keeps_quiet.
  - unfold on_horizontal_slider. keeps_quiet.
  - unfold set_value, the_knob, set_knob, knob_command, on_knob_change. keeps_quiet.
  - unfold click, set_value, the_knob, set_knob, knob_command, on_knob_change. keeps_quiet.
  - unfold release, the_knob, knob_command, on_knob_change. keeps_quiet.
  - unfold on_button_press. keeps_quiet.
  - unfold on_key_press. keeps_quiet.
  - unfold on_key_release. keeps_quiet.
  - unfold handle_midi_message, press_virtual_key, release_virtual_key. keeps_quiet.
Qed.

(** X6. While the port is missing or closed no event has any effect on it
    or on the table of sounding notes: after any run the port, with the
    messages written to it, and the table are what they were. *)
Theorem closed_port_is_silent (events : list event) (st : App) :
  serial_ready st = false ->
  serial_conn (run events st) = serial_conn st /\
  wire (run events st) = wire st /\
  active_notes (run events st) = active_notes st.
Proof.
  intros Hready.
  destruct (run_keeps quiet quiet_refl quiet_trans handle_quiet events st Hready)
    as [Hs Hn].
  split; [exact Hs |]. split; [| exact Hn]. unfold wire. now rewrite Hs.
Qed.

Lemma closed_port_is_silent_witness :
  let st := init_app None in
  let events := [KeyPress 1 0%float; ButtonPress "Sustain" 0x40; KnobSet 2 90;
                 MidiIn (note_on 60 99); KeyRelease 1 0.2%float] in
  serial_conn (run events st) = None /\
  wire (run events st) = [] /\
  active_notes (run events st) = [].
Proof.
  intros st events. apply (closed_port_is_silent events st). reflexivity.
Defined.

(** ** Writes that fail and bytes that are not bytes *)

Lemma encode_not_bytes (msg : MidiMessage) (d1 d2 : Z) :
  In msg [NoteOff CHANNEL d1 d2; NoteOn CHANNEL d1 d2; ControlChange CHANNEL d1 d2] ->
  is_byte d1 = false \/ is_byte d2 = false ->
  encode msg = Raise ValueError.
Proof.
  intros Hin Hd.
  assert (E : is_byte d1 && (is_byte d2 && true) = false).
  { destruct Hd as [-> | ->]; [reflexivity | now rewrite andb_false_r]. }
  destruct Hin as [<- | [<- | [<- | []]]]; cbn [encode]; unfold bytes; cbn [forallb];
    rewrite E, andb_false_r; reflexivity.
Qed.

Lemma encode_bytes_here (d1 d2 : Z) :
  is_byte d1 = true -> is_byte d2 = true ->
  encode (ControlChange CHANNEL d1 d2) = Ok [0xB0; d1; d2].
Proof.
  intros H1 H2. cbn [encode]. unfold bytes. cbn [forallb]. now rewrite H1, H2.
Qed.

(** X4. On an open port, a write that the driver refuses is swallowed by
    each of the three senders: the sender returns normally, nothing is
    added to the wire and the table of sounding notes is untouched, so
    that a note whose NoteOn was refused is not recorded and a note whose
    NoteOff was refused stays recorded. A note or velocity outside 0..255
    is not sent either, but [ValueError] leaves the sender, before any
    write is tried. *)
Theorem sender_failures (st : App) (s : Serial) (d1 d2 : Z) :
  serial_conn st = Some s -> is_open s = true ->
  (hd true (pending s) = false -> is_byte d1 = true -> is_byte d2 = true ->
   send_note_on d1 d2 st = (Ok tt, dropped s st) /\
   send_note_off d1 d2 st = (Ok tt, dropped s st) /\
   send_control_change d1 d2 st = (Ok tt, dropped s st) /\
   wire (dropped s st) = wire st /\
   active_notes (dropped s st) = active_notes st) /\
  (is_byte d1 = false \/ is_byte d2 = false ->
   send_note_on d1 d2 st = (Raise ValueError, st) /\
   send_note_off d1 d2 st = (Raise ValueError, st) /\
   send_control_change d1 d2 st = (Raise ValueError, st)).
Proof.
  intros Hs Ho. split.
  - intros Hw H1 H2.
    rewrite send_note_on_cases, send_note_off_cases, send_control_change_cases.
    rewrite Hs, Ho, Hw, (encode_note_on_bytes _ _ H1 H2),
      (encode_note_off_bytes _ _ H1 H2), (encode_bytes_here _ _ H1 H2).
    repeat split. now apply wire_dropped.
  - intros Hd.
    rewrite send_note_on_cases, send_note_off_cases, send_control_change_cases.
    rewrite Hs, Ho.
    rewrite !(encode_not_bytes _ d1 d2) by (cbn; auto). auto.
Qed.

Lemma sender_failures_witness :
  let s := MkSerial true [[0x90; 60; 100]] [false] in
  let st := with_active_notes [(60, 100)] (init_app (Some s)) in
  (send_note_off 60 0 st = (Ok tt, dropped s st) /\
   active_notes (dropped s st) = [(60, 100)]) /\
  send_note_on 60 256 st = (Raise ValueError, st).
Proof.
  intros s st.
  destruct (sender_failures st s 60 0 eq_refl eq_refl) as [Hfail _].
  destruct (sender_failures st s 60 256 eq_refl eq_refl) as [_ Hbad].
  split.
  - destruct (Hfail eq_refl eq_refl eq_refl) as (_ & Hoff & _ & _ & Hn).
    split; [exact Hoff | exact Hn].
  - destruct (Hbad ltac:(right; reflexivity)) as (Hon & _). exact Hon.
Defined.

(** ** The flag of a button *)

Lemma on_button_press_flag (btn_name : string) (cc : Z) (st : App) (pressed : bool) :
  button_states st !! btn_name = Some pressed ->
  button_states (snd (on_button_press btn_name cc st))
  = <[btn_name := negb pressed]> (button_states st).
Proof.
  intros Hb. rewrite on_button_press_cases, Hb.
  destruct (send_control_change _ _ _) as [r st'] eqn:E.
  apply send_control_change_frame in E. destruct E as (E & _). exact E.
Qed.

(** X8. An activation of a button flips its flag whether or not anything
    is sent: with the port closed, with a write that fails, and even when
    the ControlChange number is not a byte and [ValueError] is raised.
    After [n] activations in a row the flag is the initial one for even
    [n] and its negation for odd [n]. A name that has no flag raises
    [KeyError] and changes nothing. *)
Theorem button_flag_parity (st : App) (btn_name : string) (cc : Z) :
  match button_states st !! btn_name with
  | Some pressed =>
      forall n : nat,
        button_states (run (repeat (ButtonPress btn_name cc) n) st) !! btn_name
        = Some (if Nat.even n then pressed else negb pressed)
  | None => on_button_press btn_name cc st = (Raise KeyError, st)
  end.
Proof.
  destruct (button_states st !! btn_name) as [pressed|] eqn:Hb.
  - intros n. revert st pressed Hb.
    induction n as [|n IH]; intros st pressed Hb; [exact Hb |].
    cbn [repeat]. unfold run. cbn [fold_left]. fold (run (repeat (ButtonPress btn_name cc) n)).
    unfold dispatch at 2. cbn [handle].
    rewrite (IH _ (negb pressed)).
    + rewrite Nat.even_succ, <- Nat.negb_even.
      destruct (Nat.even n); cbn; now rewrite ?negb_involutive.
    + rewrite (on_button_press_flag _ _ _ _ Hb). apply lookup_insert_eq.
  - rewrite on_button_press_cases, Hb. reflexivity.
Qed.

(** ** Knobs *)

Section Knobs.

Lemma same_knobs_refl (st : App) : same_knobs st st.
Proof. reflexivity. Qed.

Lemma same_knobs_trans (a b c : App) : same_knobs a b -> same_knobs b c -> same_knobs a c.
Proof. unfold same_knobs. congruence. Qed.

Lemma same_panel_knobs (m : M unit) : keeps same_panel m -> keeps same_knobs m.
Proof. intros H st r st' E. now destruct (H st r st' E) as (_ & _ & _ & _ & K). Qed.

Lemma on_knob_change_frame (cc v : Z) : keeps same_panel (on_knob_change cc v).
Proof.
  unfold on_knob_change.
  apply keeps_bind; [apply same_panel_trans | apply keeps_lift, same_panel_refl |].
  intros val_int. apply send_control_change_frame.
Qed.

Lemma set_value_cases (i : nat) (v : Z) (velocity : option Z) (st : App) :
  set_value i v velocity st =
    match knob_vars st !! i with
    | None => (Raise IndexError, st)
    | Some k =>
        let c := zmax (min_val k) (zmin (max_val k) v) in
        if c =? value k then (Ok tt, st)
        else
          let k' := MkKnob (min_val k) (max_val k) c (press_time k) (cc_num k) in
          on_knob_change (default (cc_num k) velocity) c
            (with_knob_vars (<[i := k']> (knob_vars st)) st)
    end.
Proof.
  unfold set_value, the_knob, bind, get, raise, ret, set_knob, modify, knob_command.
  destruct (knob_vars st !! i) as [k|]; [| reflexivity].
  cbn zeta. destruct (_ =? value k); reflexivity.
Qed.

(** The knobs after [set_value]: the ones before, with at most the value
    of knob [i] replaced by the clamped one. *)
Lemma set_value_knobs (i : nat) (v : Z) (velocity : option Z) (st : App) :
  knob_vars (snd (set_value i v velocity st))
  = match knob_vars st !! i with
    | None => knob_vars st
    | Some k =>
        let c := zmax (min_val k) (zmin (max_val k) v) in
        <[i := MkKnob (min_val k) (max_val k) c (press_time k) (cc_num k)]> (knob_vars st)
    end.
Proof.
  rewrite set_value_cases. destruct (knob_vars st !! i) as [k|] eqn:Hk; [| reflexivity].
  cbn zeta. destruct (Z.eqb_spec (zmax (min_val k) (zmin (max_val k) v)) (value k)) as [E|E].
  - cbn [snd]. rewrite E. symmetry. apply list_insert_id.
    rewrite Hk. now destruct k.
  - destruct (on_knob_change _ _ _) as [r st'] eqn:Hrun.
    apply on_knob_change_frame in Hrun. destruct Hrun as (_ & _ & _ & _ & K). exact K.
Qed.

End Knobs.

(** X11. Setting a knob sends its value once: after [set_value] has run,
    running it again with the same argument finds the clamped value
    already stored, writes nothing and changes nothing. *)
Theorem set_value_settles (st : App) (i : nat) (v : Z) (velocity : option Z) :
  (i < length (knob_vars st))%nat ->
  let st1 := snd (set_value i v velocity st) in
  set_value i v velocity st1 = (Ok tt, st1).
Proof.
  intros Hi st1. apply lookup_lt_is_Some in Hi as [k Hk].
  assert (Hk1 : exists k1, knob_vars st1 !! i = Some k1 /\
                  min_val k1 = min_val k /\ max_val k1 = max_val k /\
                  value k1 = zmax (min_val k) (zmin (max_val k) v)).
  { unfold st1. rewrite set_value_knobs, Hk. cbn zeta.
    eexists. split; [apply list_lookup_insert_eq; now apply lookup_lt_Some in Hk |].
    auto. }
  destruct Hk1 as (k1 & Hk1 & Hmin & Hmax & Hval).
  rewrite set_value_cases, Hk1. cbn zeta. rewrite Hmin, Hmax, <- Hval.
  now rewrite Z.eqb_refl.
Qed.

Lemma set_value_settles_witness :
  let st := init_app (Some (MkSerial true [] [])) in
  let st1 := snd (set_value 4 300 None st) in
  set_value 4 300 None st1 = (Ok tt, st1).
Proof.
  intros st. apply (set_value_settles st 4 300 None). cbn. lia.
Defined.

(** X12. Releasing a knob sends a ControlChange whose control number is the
    velocity computed from the time the pointer was held, a number in
    1..127, and not the number of the knob; its value is the knob's
    value. Releasing a knob that was never clicked raises
    [AttributeError]. *)
Theorem knob_release_control_number (st : App) (s : Serial) (i : nat) (k : Knob)
    (now : float) :
  serial_conn st = Some s -> is_open s = true -> hd true (pending s) = true ->
  knob_vars st !! i = Some k -> 0 <= value k <= 127 ->
  match press_time k with
  | Some pressed =>
      exists v,
        Velocity.on_release pressed now = Ok v /\ 1 <= v <= 127 /\
        release i now st = (Ok tt, sent [0xB0; v; value k] s st)
  | None => release i now st = (Raise AttributeError, st)
  end.
Proof.
  intros Hs Ho Hw Hk Hv.
  unfold release, the_knob, bind, get, ret, raise, lift. rewrite Hk.
  destruct (press_time k) as [pressed|]; [| reflexivity].
  destruct (on_release_range pressed now) as (v & Hrel & Hrange).
  exists v. split; [exact Hrel |]. split; [exact Hrange |].
  rewrite Hrel. unfold knob_command. cbn [default].
  rewrite on_knob_change_small by exact Hv.
  apply send_control_change_byte; auto; lia.
Qed.

Lemma knob_release_control_number_witness :
  let s := MkSerial true [] [] in
  let st := snd (click 0 None 1%float (init_app (Some s))) in
  exists v,
    Velocity.on_release 1%float 1.2%float = Ok v /\ 1 <= v <= 127 /\
    release 0 1.2%float st = (Ok tt, sent [0xB0; v; 64] s st).
Proof.
  intros s st.
  exact (knob_release_control_number st s 0 (MkKnob 0 127 64 (Some 1%float) 0x10)
           1.2%float eq_refl eq_refl eq_refl eq_refl ltac:(cbn; lia)).
Defined.

(** ** The knobs over a run *)

Section KnobsInvariant.

Lemma knobs_inv_insert (st : App) (i : nat) (k k' : Knob) :
  knobs_inv st -> knob_vars st !! i = Some k -> knob_ok i k' ->
  forall st', knob_vars st' = <[i := k']> (knob_vars st) -> knobs_inv st'.
Proof.
  intros [Hlen Hall] Hk Hok st' E. unfold knobs_inv. rewrite E. split.
  - now rewrite length_insert.
  - intros j kj Hj. destruct (decide (j = i)) as [->|Hne].
    + rewrite list_lookup_insert_eq in Hj by (now apply lookup_lt_Some in Hk).
      now injection Hj as <-.
    + rewrite list_lookup_insert_ne in Hj by congruence. now apply Hall.
Qed.

Lemma knobs_inv_same (a b : App) : same_knobs a b -> knobs_inv a -> knobs_inv b.
Proof. unfold same_knobs, knobs_inv. now intros ->. Qed.

Lemma set_value_inv (i : nat) (v : Z) (velocity : option Z) (st : App) :
  knobs_inv st -> knobs_inv (snd (set_value i v velocity st)).
Proof.
  intros Hinv. pose proof (set_value_knobs i v velocity st) as E.
  destruct (knob_vars st !! i) as [k|] eqn:Hk.
  - cbn zeta in E. eapply knobs_inv_insert; [exact Hinv | exact Hk | | exact E].
    destruct Hinv as [_ Hall]. destruct (Hall i k Hk) as (Hmin & Hmax & Hval & Hcc).
    unfold knob_ok. cbn. rewrite Hmin, Hmax, zclamp_range by lia.
    repeat split; try assumption; lia.
  - now apply (knobs_inv_same st).
Qed.

Lemma click_inv (i : nat) (pointer : option Z) (now : float) (st : App) :
  knobs_inv st -> knobs_inv (snd (click i pointer now st)).
Proof.
  intros Hinv. unfold click, bind.
  set (first := match pointer with Some v => set_value i v None | None => ret tt end).
  assert (H1 : knobs_inv (snd (first st))).
  { unfold first. destruct pointer; [now apply set_value_inv | exact Hinv]. }
  destruct (first st) as [[[]|e] st1]; cbn [snd] in H1 |- *; [| exact H1].
  unfold the_knob, bind, get, ret, raise, set_knob, modify.
  destruct (knob_vars st1 !! i) as [k|] eqn:Hk; cbn [snd]; [| exact H1].
  eapply knobs_inv_insert; [exact H1 | exact Hk | | reflexivity].
  destruct H1 as [_ Hall]. exact (Hall i k Hk).
Qed.

End KnobsInvariant.

Ltac keeps_knobs :=
  repeat first
    [ apply same_panel_knobs; first [apply send_control_change_frame
                                    | apply send_note_on_frame
                                    | apply send_note_off_frame
                                    | apply on_knob_change_frame]
    | apply keeps_ret; apply same_knobs_refl
    | apply keeps_raise; apply same_knobs_refl
    | apply keeps_lift; apply same_knobs_refl
    | apply keeps_get; apply same_knobs_refl
    | apply keeps_modify; intros ?; reflexivity
    | apply keeps_first_key; [apply same_knobs_refl |]
    | apply keeps_bind; [apply same_knobs_trans | | intros ?]
    | match goal with
      | |- keeps _ (match ?x with _ => _ end) => destruct x
      end ].

Lemma handle_knobs (e : event) (st : App) : knobs_inv st -> knobs_inv (dispatch st e).
Proof.
  intros Hinv. unfold dispatch.
  assert (Hsame : keeps same_knobs (handle e) -> knobs_inv (snd (handle e st))).
  { intros H. destruct (handle e st) as [r st'] eqn:E.
    exact (knobs_inv_same _ _ (H _ _ _ E) Hinv). }
  destruct e; cbn [handle] in *.
  - apply Hsame. unfold on_vertical_slider. keeps_knobs.
  - apply Hsame. unfold on_horizontal_slider. keeps_knobs.
  - now apply set_value_inv.
  - now apply click_inv.
  - apply Hsame. unfold release, the_knob, knob_command. keeps_knobs.
  - apply Hsame. unfold on_button_press. keeps_knobs.
  - apply Hsame. unfold on_key_press. keeps_knobs.
  - apply Hsame. unfold on_key_release. keeps_knobs.
  - apply Hsame. unfold handle_midi_message, press_virtual_key, release_virtual_key.
    keeps_knobs.
Qed.

Lemma init_knobs_inv (serial : option Serial) : knobs_inv (init_app serial).
Proof.
  split; [reflexivity |]. cbn [init_app knob_vars]. unfold init_knobs.
  intros i k Hk. rewrite list_lookup_fmap in Hk.
  destruct (seq 0 18 !! i) as [j|] eqn:Hj; [| discriminate].
  injection Hk as <-. apply lookup_seq in Hj as [-> _].
  unfold knob_ok. cbn. repeat split; lia.
Qed.

(** X13. Over any run from the initial state there are eighteen knobs, each
    keeps its range 0..127 and its ControlChange number [0x10 + i], and
    the value of each stays within 0..127, whatever values the knobs are
    set to. *)
Theorem knobs_stay_in_range (events : list event) (serial : option Serial) :
  knobs_inv (run events (init_app serial)).
Proof.
  unfold run. generalize (init_knobs_inv serial). generalize (init_app serial).
  induction events as [|e events IH]; intros st Hinv; cbn [fold_left]; [exact Hinv |].
  apply IH. now apply handle_knobs.
Qed.

(** ** The keys of the keyboard *)

Section Keys.

Lemma index_Some (x : Z) (l : list Z) (i : nat) :
  index x l = Some i -> l !! i = Some x.
Proof.
  revert i. induction l as [|y l IH]; intros i; cbn [index]; [discriminate |].
  destruct (Z.eqb_spec y x) as [->|Hne].
  - now intros [= <-].
  - destruct (index x l) as [j|]; [| discriminate]. intros [= <-]. now apply IH.
Qed.

Lemma index_None (x : Z) (l : list Z) : index x l = None <-> ~ In x l.
Proof.
  induction l as [|y l IH]; cbn [index In]; [tauto |].
  destruct (Z.eqb_spec y x) as [->|Hne].
  - split; [discriminate | tauto].
  - destruct (index x l) as [j|]; cbn [option_map].
    + split; [discriminate |]. intros H. exfalso. apply H. right.
      destruct (in_dec Z.eq_dec x l) as [Hin|Hin]; [exact Hin |].
      now apply IH in Hin.
    + split; [| reflexivity]. intros _ [H|H]; [contradiction |]. now apply IH in H.
Qed.

Lemma in_range_cases (lo : Z) (n : nat) (P : Z -> bool) :
  forallb P (map (fun k => lo + Z.of_nat k) (seq 0 n)) = true ->
  forall x, lo <= x < lo + Z.of_nat n -> P x = true.
Proof.
  intros H x Hx. rewrite List.forallb_forall in H. apply H.
  replace x with (lo + Z.of_nat (Z.to_nat (x - lo))) by lia.
  apply (in_map (fun k => lo + Z.of_nat k)), in_seq. lia.
Qed.

Lemma index_lt (x : Z) (l : list Z) (i : nat) :
  index x l = Some i -> (i < length l)%nat /\ In x l.
Proof.
  intros H. apply index_Some in H. split.
  - now apply lookup_lt_Some in H.
  - apply list_elem_of_In. now apply list_elem_of_lookup_2 in H.
Qed.

Lemma keyboard_items :
  forallb (fun x => (1 <=? x) && (x <=? 72))
          (fst create_virtual_keyboard ++ snd create_virtual_keyboard) = true /\
  forallb (fun x => existsb (Z.eqb x)
                      (fst create_virtual_keyboard ++ snd create_virtual_keyboard))
          (map (fun k => 1 + Z.of_nat k) (seq 0 72)) = true /\
  length (fst create_virtual_keyboard) = 42%nat /\
  length (snd create_virtual_keyboard) = 30%nat /\
  forallb (fun j => (37 <=? black_note j) && (black_note j <=? 106)) (seq 0 30) = true.
Proof. vm_compute. auto. Qed.

End Keys.

(** X14. On the keyboard as it is built, the canvas items 1..72 are the
    keys: an item has a note exactly when its number is in 1..72, and the
    note is in 36..106, a valid data byte. The notes do not tell the keys
    apart: white keys are numbered by consecutive semitones from 36, so
    that the second white key (item 2) and the first black key (item 8)
    both give note 37. *)
Theorem keyboard_notes (serial : option Serial) (item_id : Z) :
  let st := init_app serial in
  match key_note st item_id with
  | Some note => 1 <= item_id <= 72 /\ 36 <= note <= 106
  | None => item_id < 1 \/ 72 < item_id
  end /\
  key_note st 2 = Some 37 /\ key_note st 8 = Some 37.
Proof.
  intros st. split; [| split; reflexivity].
  destruct keyboard_items as (Hids & Hall & Hw & Hb & Hblack).
  rewrite List.forallb_forall in Hids.
  unfold key_note. cbn [init_app st white_key_ids black_key_ids].
  destruct (index item_id (fst create_virtual_keyboard)) as [i|] eqn:Ew.
  - apply index_lt in Ew as [Hi Hin]. split.
    + specialize (Hids item_id (in_or_app _ _ _ (or_introl Hin))). lia.
    + unfold white_note, KEYBOARD_BASE_NOTE. lia.
  - destruct (index item_id (snd create_virtual_keyboard)) as [j|] eqn:Eb; cbn [option_map].
    + apply index_lt in Eb as [Hj Hin]. split.
      * specialize (Hids item_id (in_or_app _ _ _ (or_intror Hin))). lia.
      * rewrite List.forallb_forall in Hblack.
        specialize (Hblack j ltac:(apply in_seq; lia)). lia.
    + apply index_None in Ew, Eb.
      destruct (Z.ltb_spec item_id 1) as [|H1]; [now left |].
      destruct (Z.ltb_spec 72 item_id) as [|H2]; [now right |]. exfalso.
      pose proof (in_range_cases 1 72 _ Hall item_id ltac:(lia)) as Hin.
      apply List.existsb_exists in Hin as (y & Hy & Heq).
      apply Z.eqb_eq in Heq. subst y. apply in_app_or in Hy. tauto.
Qed.

(** ** A key pressed and released *)

Section KeyStrokes.

Lemma send_note_on_sent (note velocity : Z) (st : App) (s : Serial) :
  serial_conn st = Some s -> is_open s = true -> hd true (pending s) = true ->
  is_byte note = true -> is_byte velocity = true ->
  send_note_on note velocity st
  = (Ok tt, with_active_notes (dict_set note velocity (active_notes st))
                              (sent [0x90; note; velocity] s st)).
Proof.
  intros Hs Ho Hw Hn Hv.
  now rewrite send_note_on_cases, Hs, Ho, (encode_note_on_bytes _ _ Hn Hv), Hw.
Qed.

Lemma send_note_off_sent (note velocity : Z) (st : App) (s : Serial) :
  serial_conn st = Some s -> is_open s = true -> hd true (pending s) = true ->
  is_byte note = true -> is_byte velocity = true ->
  send_note_off note velocity st
  = (Ok tt, with_active_notes (dict_del note (active_notes st))
                              (sent [0x80; note; velocity] s st)).
Proof.
  intros Hs Ho Hw Hn Hv.
  rewrite send_note_off_cases, Hs, Ho, (encode_note_off_bytes _ _ Hn Hv), Hw.
  destruct (dict_mem note (active_notes st)) eqn:Hm; [reflexivity |].
  rewrite (dict_del_absent _ _ Hm). now destruct st.
Qed.

Lemma writes_ok_two (st : App) (s : Serial) :
  serial_conn st = Some s -> writes_ok 2 st = true ->
  hd true (pending s) = true /\ hd true (tl (pending s)) = true.
Proof.
  unfold writes_ok. intros -> H.
  destruct (pending s) as [|b1 [|b2 rest]]; cbn in H |- *; auto.
  - now rewrite andb_true_r in H.
  - apply andb_true_iff in H as [H1 H2]. apply andb_true_iff in H2 as [H2 _]. auto.
Qed.

Lemma on_key_press_sent (item_id note : Z) (now : float) (st : App) (s : Serial) :
  serial_conn st = Some s -> is_open s = true -> hd true (pending s) = true ->
  key_note st item_id = Some note -> is_byte note = true ->
  on_key_press item_id now st
  = (Ok tt,
     with_active_notes (dict_set note 100 (active_notes st))
       (sent [0x90; note; 100] s
          (with_key_press_times (<[item_id := now]> (key_press_times st)) st))).
Proof.
  intros Hs Ho Hw Hk Hn. unfold on_key_press, bind, modify, get.
  set (st0 := with_key_press_times _ st).
  change (key_note st0 item_id) with (key_note st item_id). rewrite Hk.
  now rewrite (send_note_on_sent note 100 st0 s Hs Ho Hw Hn eq_refl).
Qed.

End KeyStrokes.

(** X15. A key pressed and then released, on an open port whose two writes
    succeed: the wire receives the NoteOn of velocity 100 and then the
    NoteOff of the same note with a velocity in 1..127 computed from the
    two instants; afterwards the note is not in the table of sounding
    notes and the press is no longer recorded. *)
Theorem key_press_release (st : App) (s : Serial) (item_id note : Z) (t0 t1 : float) :
  serial_conn st = Some s -> is_open s = true -> writes_ok 2 st = true ->
  key_note st item_id = Some note -> is_byte note = true ->
  exists v,
    Velocity.on_release t0 t1 = Ok v /\ 1 <= v <= 127 /\
    let st' := run [KeyPress item_id t0; KeyRelease item_id t1] st in
    wire st' = wire st ++ [[0x90; note; 100]; [0x80; note; v]] /\
    dict_mem note (active_notes st') = false /\
    key_press_times st' !! item_id = None.
Proof.
  intros Hs Ho Hw Hk Hn.
  destruct (writes_ok_two st s Hs Hw) as [Hw1 Hw2].
  destruct (on_release_range t0 t1) as (v & Hrel & Hv).
  exists v. split; [exact Hrel |]. split; [exact Hv |].
  unfold run. cbn [fold_left]. unfold dispatch. cbn [handle].
  rewrite (on_key_press_sent _ _ _ _ _ Hs Ho Hw1 Hk Hn). cbn [snd].
  set (st1 := with_active_notes _ _).
  unfold on_key_release, bind, get, modify, lift.
  assert (Hp : key_press_times st1 !! item_id = Some t0) by apply lookup_insert_eq.
  rewrite Hp, Hrel.
  change (key_note st1 item_id) with (key_note st item_id). rewrite Hk.
  set (st2 := with_key_press_times _ st1).
  rewrite (send_note_off_sent note v st2
             (MkSerial (is_open s) (written s ++ [[0x90; note; 100]]) (tl (pending s))));
    [| reflexivity | exact Ho | exact Hw2 | exact Hn
     | unfold is_byte; apply andb_true_iff; split; [apply Z.leb_le | apply Z.ltb_lt]; lia].
  cbn [snd]. split; [| split].
  - unfold wire. cbn. rewrite Hs, <- app_assoc. reflexivity.
  - apply dict_del_mem.
  - cbn. apply lookup_delete_eq.
Qed.

Lemma key_press_release_witness :
  exists v,
    Velocity.on_release 3%float 3.2%float = Ok v /\ 1 <= v <= 127 /\
    let st' := run [KeyPress 8 3%float; KeyRelease 8 3.2%float]
                   (init_app (Some (MkSerial true [] []))) in
    wire st' = [] ++ [[0x90; 37; 100]; [0x80; 37; v]] /\
    dict_mem 37 (active_notes st') = false /\
    key_press_times st' !! 8 = None.
Proof.
  exact (key_press_release (init_app (Some (MkSerial true [] []))) (MkSerial true [] [])
           8 37 3%float 3.2%float eq_refl eq_refl eq_refl eq_refl eq_refl).
Defined.

(** X16. A release is looked up under the item the pointer is over at that
    moment. When a key is pressed and the release arrives on another item
    that has no press recorded, nothing is written for the release: the
    NoteOn of the first key is the only message, its note stays in the
    table of sounding notes and its press stays recorded. *)
Theorem release_on_other_item (st : App) (s : Serial) (pressed other note : Z)
    (t0 t1 : float) :
  serial_conn st = Some s -> is_open s = true -> hd true (pending s) = true ->
  key_note st pressed = Some note -> is_byte note = true ->
  other <> pressed -> key_press_times st !! other = None ->
  let st' := run [KeyPress pressed t0; KeyRelease other t1] st in
  wire st' = wire st ++ [[0x90; note; 100]] /\
  dict_mem note (active_notes st') = true /\
  key_press_times st' !! pressed = Some t0.
Proof.
  intros Hs Ho Hw Hk Hn Hne Hnone st'. unfold st', run. cbn [fold_left].
  unfold dispatch. cbn [handle].
  rewrite (on_key_press_sent _ _ _ _ _ Hs Ho Hw Hk Hn). cbn [snd].
  set (st1 := with_active_notes _ _).
  unfold on_key_release, bind, get, ret.
  assert (Hp : key_press_times st1 !! other = None).
  { cbn. now rewrite lookup_insert_ne by congruence. }
  rewrite Hp. cbn [snd]. split; [| split].
  - unfold wire. cbn. now rewrite Hs.
  - apply dict_set_mem.
  - cbn. apply lookup_insert_eq.
Qed.

Lemma release_on_other_item_witness :
  let st' := run [KeyPress 1 0%float; KeyRelease 2 0.3%float]
                 (init_app (Some (MkSerial true [] []))) in
  wire st' = [] ++ [[0x90; 36; 100]] /\
  dict_mem 36 (active_notes st') = true /\
  key_press_times st' !! 1 = Some 0%float.
Proof.
  apply (release_on_other_item (init_app (Some (MkSerial true [] []))) (MkSerial true [] [])
           1 2 36 0%float 0.3%float eq_refl eq_refl eq_refl eq_refl eq_refl);
    [discriminate | reflexivity].
Defined.

(** ** Notes received on the MIDI input *)

Section MidiInput.

Lemma first_key_from (note_of : nat -> Z) (ids : list Z) (vn : Z) (act : M unit) (i : nat) :
  first_key note_of i ids vn act
  = if existsb (fun j => note_of j =? vn) (seq i (length ids)) then act else ret tt.
Proof.
  revert i. induction ids as [|id ids IH]; intros i; cbn [first_key length seq existsb];
    [reflexivity |].
  destruct (note_of i =? vn); [reflexivity | apply IH].
Qed.

Lemma first_key_carries (note_of : nat -> Z) (ids : list Z) (vn : Z) (act : M unit) :
  first_key note_of 0 ids vn act = if carries_note note_of ids vn then act else ret tt.
Proof. apply first_key_from. Qed.

Lemma all_writes_ok_tl (outcomes : list bool) :
  forallb id outcomes = true ->
  hd true outcomes = true /\ forallb id (tl outcomes) = true.
Proof.
  destruct outcomes as [|b rest]; cbn; [auto |].
  intros H. now apply andb_true_iff in H.
Qed.

(** Two loops, each of which acts once if a key of its list carries the
    note: the act is a sender that writes [message]. *)
Lemma two_loops (act : M unit) (message : list Z) (white black : bool) (st : App)
    (s : Serial) :
  (forall st0 s0, serial_conn st0 = Some s0 -> is_open s0 = true ->
                  hd true (pending s0) = true ->
                  exists st1,
                    act st0 = (Ok tt, st1) /\
                    serial_conn st1
                    = Some (MkSerial true (written s0 ++ [message]) (tl (pending s0)))) ->
  serial_conn st = Some s -> is_open s = true -> forallb id (pending s) = true ->
  exists st',
    bind (if white then act else ret tt) (fun _ => if black then act else ret tt) st
    = (Ok tt, st') /\
    wire st' = wire st ++ repeat message (Nat.add (Nat.b2n white) (Nat.b2n black)).
Proof.
  intros Hact Hs Ho Hw. destruct (all_writes_ok_tl _ Hw) as [Hw1 Hw2].
  unfold bind. destruct white.
  - destruct (Hact st s Hs Ho Hw1) as (st1 & -> & Hs1). destruct black.
    + destruct (all_writes_ok_tl _ Hw2) as [Hw3 _].
      destruct (Hact st1 _ Hs1 eq_refl Hw3) as (st2 & -> & Hs2).
      exists st2. split; [reflexivity |]. unfold wire. rewrite Hs2, Hs. cbn.
      now rewrite <- app_assoc.
    + exists st1. split; [reflexivity |]. unfold wire. now rewrite Hs1, Hs.
  - cbn [ret]. destruct black.
    + destruct (Hact st s Hs Ho Hw1) as (st1 & -> & Hs1).
      exists st1. split; [reflexivity |]. unfold wire. now rewrite Hs1, Hs.
    + exists st. split; [reflexivity |]. cbn. now rewrite app_nil_r.
Qed.

Lemma press_virtual_key_copies (st : App) (s : Serial) (note velocity : Z) :
  serial_conn st = Some s -> is_open s = true -> forallb id (pending s) = true ->
  is_byte note = true -> is_byte velocity = true ->
  exists st',
    press_virtual_key note velocity st = (Ok tt, st') /\
    wire st' = wire st
               ++ repeat [0x90; note; velocity]
                    (Nat.add (Nat.b2n (carries_note white_note (white_key_ids st) note))
                             (Nat.b2n (carries_note black_note (black_key_ids st) note))).
Proof.
  intros Hs Ho Hw Hn Hv. unfold press_virtual_key.
  unfold bind at 1. unfold get. cbn beta iota.
  rewrite !first_key_carries. apply (two_loops _ _ _ _ st s); try assumption.
  intros st0 s0 Hs0 Ho0 Hw0.
  destruct (send_note_on_ok note velocity st0 s0 Hs0 Ho0 Hw0 Hn Hv) as (st1 & H1 & H2 & _).
  eauto.
Qed.

Lemma release_virtual_key_copies (st : App) (s : Serial) (note velocity : Z) :
  serial_conn st = Some s -> is_open s = true -> forallb id (pending s) = true ->
  is_byte note = true -> is_byte velocity = true ->
  exists st',
    release_virtual_key note velocity st = (Ok tt, st') /\
    wire st' = wire st
               ++ repeat [0x80; note; velocity]
                    (Nat.add (Nat.b2n (carries_note white_note (white_key_ids st) note))
                             (Nat.b2n (carries_note black_note (black_key_ids st) note))).
Proof.
  intros Hs Ho Hw Hn Hv. unfold release_virtual_key.
  unfold bind at 1. unfold get. cbn beta iota.
  rewrite !first_key_carries. apply (two_loops _ _ _ _ st s); try assumption.
  intros st0 s0 Hs0 Ho0 Hw0.
  destruct (send_note_off_ok note velocity st0 s0 Hs0 Ho0 Hw0 Hn Hv) as (st1 & H1 & H2 & _).
  eauto.
Qed.

(** On the keyboard as built: the white keys carry 36..77 and the black
    keys the sharps of 36..107. *)
Lemma white_carries_init (note : Z) :
  carries_note white_note (fst create_virtual_keyboard) note
  = (36 <=? note) && (note <=? 77).
Proof.
  destruct keyboard_items as (_ & _ & Hlen & _). unfold carries_note. rewrite Hlen.
  destruct ((36 <=? note) && (note <=? 77)) eqn:E.
  - apply andb_true_iff in E as [E1 E2]. apply Z.leb_le in E1, E2.
    apply List.existsb_exists. exists (Z.to_nat (note - 36)). split.
    + apply in_seq. lia.
    + apply Z.eqb_eq. unfold white_note, KEYBOARD_BASE_NOTE. lia.
  - destruct (existsb _ _) eqn:E'; [| reflexivity].
    apply List.existsb_exists in E' as (i & Hi & Heq). apply in_seq in Hi.
    apply Z.eqb_eq in Heq. unfold white_note, KEYBOARD_BASE_NOTE in Heq.
    apply andb_false_iff in E as [E|E]; [apply Z.leb_gt in E | apply Z.leb_gt in E]; lia.
Qed.

Lemma black_carries_init (note : Z) :
  carries_note black_note (snd create_virtual_keyboard) note
  = (36 <=? note) && (note <=? 107)
    && existsb (Z.eqb ((note - 36) mod 12)) semitone_offsets.
Proof.
  destruct keyboard_items as (_ & _ & _ & Hlen & Hrange). unfold carries_note. rewrite Hlen.
  destruct ((36 <=? note) && (note <=? 107)) eqn:E.
  - apply andb_true_iff in E as [E1 E2]. apply Z.leb_le in E1, E2. rewrite andb_true_l.
    pose (P := fun n => Bool.eqb (existsb (fun i => black_note i =? n) (seq 0 30))
                                 (existsb (Z.eqb ((n - 36) mod 12)) semitone_offsets)).
    assert (HP : P note = true).
    { apply (in_range_cases 36 72); [vm_compute; reflexivity | lia]. }
    now apply eqb_prop in HP.
  - rewrite andb_false_l. destruct (existsb _ _) eqn:E'; [| reflexivity].
    apply List.existsb_exists in E' as (i & Hi & Heq).
    rewrite List.forallb_forall in Hrange. specialize (Hrange i Hi).
    apply Z.eqb_eq in Heq.
    apply andb_false_iff in E as [E|E]; [apply Z.leb_gt in E | apply Z.leb_gt in E]; lia.
Qed.

End MidiInput.

(** X17. A note message received on the MIDI input is forwarded once for
    every loop of [press_virtual_key] or [release_virtual_key] that finds
    a key with that note, and both loops always run. On the keyboard as it
    is built, with the port open and the writes succeeding, a NoteOn of
    velocity 1..127 for note [n] is therefore written twice when [n] is a
    sharp in 36..77 (a white and a black key carry it), not at all when
    [n] is outside 36..107 or is a natural above 77 (no key carries it),
    and once otherwise; a NoteOff, or a NoteOn of velocity 0, is written
    as NoteOff the same number of times. *)
Theorem midi_note_copies (st : App) (s : Serial) (note velocity : Z) :
  white_key_ids st = fst create_virtual_keyboard ->
  black_key_ids st = snd create_virtual_keyboard ->
  serial_conn st = Some s -> is_open s = true -> forallb id (pending s) = true ->
  0 <= velocity <= 127 ->
  let sharp := existsb (Z.eqb ((note - 36) mod 12)) semitone_offsets in
  let copies :=
    Nat.add (Nat.b2n ((36 <=? note) && (note <=? 77)))
            (Nat.b2n ((36 <=? note) && (note <=? 107) && sharp)) in
  wire (snd (handle_midi_message (note_on note velocity) st))
  = wire st ++ repeat [if 0 <? velocity then 0x90 else 0x80; note; velocity] copies /\
  wire (snd (handle_midi_message (note_off note velocity) st))
  = wire st ++ repeat [0x80; note; velocity] copies.
Proof.
  intros Hwhite Hblack Hs Ho Hw Hv sharp copies.
  assert (Hbv : is_byte velocity = true) by (apply is_byte_data; lia).
  assert (Hcopies :
            Nat.add (Nat.b2n (carries_note white_note (white_key_ids st) note))
                    (Nat.b2n (carries_note black_note (black_key_ids st) note)) = copies).
  { now rewrite Hwhite, Hblack, white_carries_init, black_carries_init. }
  cbn [handle_midi_message]. unfold controller_to_virtual_map.
  destruct ((36 <=? note) && (note <? 108)) eqn:Hmap.
  - apply andb_true_iff in Hmap as [H1 H2]. apply Z.leb_le in H1. apply Z.ltb_lt in H2.
    assert (Hbn : is_byte note = true)
      by (unfold is_byte; apply andb_true_iff; split; [apply Z.leb_le | apply Z.ltb_lt]; lia).
    replace (note =? 0) with false by (symmetry; apply Z.eqb_neq; lia).
    destruct (release_virtual_key_copies st s note velocity Hs Ho Hw Hbn Hbv)
      as (st2 & Hrel & Hwire2). rewrite Hcopies in Hwire2.
    split; [| now rewrite Hrel].
    destruct (0 <? velocity); [| now rewrite Hrel].
    destruct (press_virtual_key_copies st s note velocity Hs Ho Hw Hbn Hbv)
      as (st1 & Hpress & Hwire1). rewrite Hcopies in Hwire1. now rewrite Hpress.
  - assert (Hzero : copies = 0%nat).
    { unfold copies. apply andb_false_iff in Hmap.
      replace ((36 <=? note) && (note <=? 77)) with false.
      - replace ((36 <=? note) && (note <=? 107)) with false; [reflexivity |].
        symmetry. apply andb_false_iff.
        destruct Hmap as [H|H]; [left; exact H | right; apply Z.leb_gt; apply Z.ltb_ge in H; lia].
      - symmetry. apply andb_false_iff.
        destruct Hmap as [H|H]; [left; exact H | right; apply Z.leb_gt; apply Z.ltb_ge in H; lia]. }
    rewrite Hzero. cbn [repeat snd]. now rewrite app_nil_r.
Qed.

Lemma midi_note_copies_witness :
  let st := init_app (Some (MkSerial true [] [])) in
  wire (snd (handle_midi_message (note_on 37 90) st))
  = [[0x90; 37; 90]; [0x90; 37; 90]] /\
  wire (snd (handle_midi_message (note_off 107 0) st)) = [].
Proof.
  intros st.
  destruct (midi_note_copies st (MkSerial true [] []) 37 90 eq_refl eq_refl eq_refl eq_refl
              eq_refl ltac:(lia)) as [Hon _].
  destruct (midi_note_copies st (MkSerial true [] []) 107 0 eq_refl eq_refl eq_refl eq_refl
              eq_refl ltac:(lia)) as [_ Hoff].
  split; [exact Hon | exact Hoff].
Defined.

(** ** The status byte *)

(** X7. The channel enters the status byte through [channel & 0x0F]: for
    any integer channel, negative or beyond 15, the status byte is the
    kind plus the channel modulo 16, a byte, so that channel [c + 16] is
    sent as channel [c] and no channel makes the encoding fail. *)
Theorem status_byte_wraps (kind channel d1 d2 : Z) :
  In kind [0x80; 0x90; 0xB0] ->
  status_byte kind channel = kind + channel mod 16 /\
  status_byte kind (channel + 16) = status_byte kind channel /\
  (is_byte d1 = true -> is_byte d2 = true ->
   encode (NoteOn channel d1 d2) = Ok [0x90 + channel mod 16; d1; d2] /\
   encode (NoteOff channel d1 d2) = Ok [0x80 + channel mod 16; d1; d2] /\
   encode (ControlChange channel d1 d2) = Ok [0xB0 + channel mod 16; d1; d2]).
Proof.
  assert (Hland : forall c, Z.land c 0x0F = c mod 16).
  { intros c. change 0x0F with (Z.ones 4). now rewrite Z.land_ones by lia. }
  assert (Hstatus : forall k c, In k [0x80; 0x90; 0xB0] ->
            status_byte k c = k + c mod 16 /\ is_byte (status_byte k c) = true).
  { intros k c Hk. unfold status_byte. rewrite Hland.
    pose proof (Z.mod_pos_bound c 16 ltac:(lia)) as Hc.
    pattern (c mod 16). apply channel_cases; [lia |].
    simpl in Hk. destruct Hk as [<- | [<- | [<- | []]]]; repeat constructor. }
  intros Hk. split; [apply Hstatus, Hk |]. split.
  - unfold status_byte. rewrite !Hland. f_equal.
    replace (channel + 16) with (channel + 1 * 16) by lia. apply Z.mod_add. lia.
  - intros H1 H2. cbn [encode]. unfold bytes. cbn [forallb].
    destruct (Hstatus 0x90 channel ltac:(cbn; auto)) as [E1 B1].
    destruct (Hstatus 0x80 channel ltac:(cbn; auto)) as [E2 B2].
    destruct (Hstatus 0xB0 channel ltac:(cbn; auto)) as [E3 B3].
    rewrite B1, B2, B3, H1, H2, E1, E2, E3. auto.
Qed.

Lemma status_byte_wraps_witness :
  status_byte 0x90 (-1) = 0x90 + 15 /\
  status_byte 0x90 (-1 + 16) = status_byte 0x90 (-1).
Proof.
  destruct (status_byte_wraps 0x90 (-1) 60 100 ltac:(cbn; auto)) as (H1 & H2 & _).
  split; [exact H1 | exact H2].
Defined.

(** ** Sliders *)

(** X9. A slider handler sends the position it is given: for a whole
    position [n] in 0..127, passed as the float [float(n)], the vertical
    slider with ControlChange number [cc], the horizontal slider and a
    knob's change handler write [0xB0, cc, n] (0x13 for the horizontal
    slider), on an open port whose write succeeds. A position that is NaN
    raises [ValueError] and an infinite one [OverflowError], and nothing
    is written. *)
Theorem slider_position_sent (st : App) (s : Serial) (cc n : Z) :
  serial_conn st = Some s -> is_open s = true -> hd true (pending s) = true ->
  0 <= cc <= 255 -> 0 <= n <= 127 ->
  (exists f,
      float_of_int n = Ok f /\
      on_vertical_slider cc f st = (Ok tt, sent [0xB0; cc; n] s st) /\
      on_horizontal_slider f st = (Ok tt, sent [0xB0; 0x13; n] s st) /\
      on_knob_change cc n st = (Ok tt, sent [0xB0; cc; n] s st)) /\
  on_vertical_slider cc nan st = (Raise ValueError, st) /\
  on_vertical_slider cc infinity st = (Raise OverflowError, st).
Proof.
  intros Hs Ho Hw Hcc Hn. split; [| split; reflexivity].
  pose proof (int_float_small n Hn) as Hint.
  destruct (float_of_int n) as [f|e] eqn:Hf; [| discriminate]. cbn [rbind] in Hint.
  exists f. split; [reflexivity |].
  unfold on_vertical_slider, on_horizontal_slider, on_knob_change, bind, lift.
  rewrite Hf. cbn [rbind]. rewrite Hint.
  rewrite !(send_control_change_byte _ _ st s Hs Ho Hw) by (unfold SLIDER_HORIZONTAL_CC; lia).
  auto.
Qed.

Lemma slider_position_sent_witness :
  let s := MkSerial true [] [] in
  let st := init_app (Some s) in
  exists f,
    float_of_int 99 = Ok f /\
    on_vertical_slider 0x15 f st = (Ok tt, sent [0xB0; 0x15; 99] s st).
Proof.
  intros s st.
  destruct (slider_position_sent st s 0x15 99 eq_refl eq_refl eq_refl ltac:(lia) ltac:(lia))
    as ((f & Hf & Hv & _) & _).
  exists f. split; [exact Hf | exact Hv].
Defined.

(** X10. The controls do not have numbers of their own. Slider S9 has the
    ControlChange number of S2 and the horizontal slider that of S3;
    every vertical slider has the number of one of the eighteen knobs;
    and the display, which finds the slider's number back from the
    ControlChange number, shows every slider under its own number except
    S2, which it shows as S9. *)
Theorem controls_share_numbers (i : nat) :
  (i < 9)%nat ->
  (exists j k, (j < 18)%nat /\ init_knobs !! j = Some k /\ cc_num k = vertical_slider_cc i) /\
  slider_number (vertical_slider_cc i) = (if (i =? 1)%nat then 9 else Z.of_nat i + 1) /\
  vertical_slider_cc 8 = vertical_slider_cc 1 /\
  SLIDER_HORIZONTAL_CC = vertical_slider_cc 2.
Proof.
  intros Hi. split; [| split; [| split; reflexivity]].
  - exists (if (i <? 8)%nat then S i else 2%nat).
    do 9 (destruct i as [|i];
          [eexists; split; [cbn; lia | split; [reflexivity | reflexivity]] |]).
    lia.
  - do 9 (destruct i as [|i]; [reflexivity |]). lia.
Qed.

Lemma controls_share_numbers_witness :
  slider_number (vertical_slider_cc 1) = 9.
Proof.
  destruct (controls_share_numbers 1 ltac:(lia)) as (_ & H & _). exact H.
Defined.

(** ** Closing *)

Section ClosingAlways.

Lemma send_note_off_returns (note velocity : Z) (st : App) :
  is_byte note = true -> is_byte velocity = true ->
  fst (send_note_off note velocity st) = Ok tt /\
  serial_ready (snd (send_note_off note velocity st)) = serial_ready st.
Proof.
  intros Hn Hv. rewrite send_note_off_cases. unfold serial_ready at 2.
  destruct (serial_conn st) as [s|] eqn:Hs;
    [| cbn [fst snd]; unfold serial_ready; rewrite Hs; auto].
  destruct (is_open s) eqn:Ho;
    [| cbn [fst snd]; unfold serial_ready; rewrite Hs, Ho; auto].
  rewrite (encode_note_off_bytes _ _ Hn Hv).
  destruct (hd true (pending s)); [destruct (dict_mem _ _) |];
    unfold serial_ready; cbn; rewrite Ho; auto.
Qed.

Lemma release_all_returns (notes : list (Z * Z)) (st : App) :
  Forall (fun kv => is_byte (fst kv) = true /\ is_byte (snd kv) = true) notes ->
  fst (release_all notes st) = Ok tt /\
  serial_ready (snd (release_all notes st)) = serial_ready st.
Proof.
  intros H. revert st. induction H as [|[note velocity] notes [Hn Hv] _ IH]; intros st.
  - cbn. auto.
  - cbn [release_all]. unfold bind.
    destruct (send_note_off_returns note velocity st Hn Hv) as [H1 H2].
    destruct (send_note_off note velocity st) as [r st1]. cbn [fst snd] in H1, H2.
    subst r. destruct (IH st1) as [H3 H4]. now rewrite <- H2.
Qed.

End ClosingAlways.

(** X18. Closing the window never raises and always leaves the port closed,
    whether the NoteOff writes succeed or fail; closing again then does
    nothing, and no event that arrives later writes anything. *)
Theorem closing_is_final (st : App) (events : list event) :
  notes_inv st ->
  let st1 := snd (on_closing st) in
  fst (on_closing st) = Ok tt /\
  serial_ready st1 = false /\
  on_closing st1 = (Ok tt, st1) /\
  wire (run events st1) = wire st1.
Proof.
  intros (_ & _ & Hbytes) st1.
  assert (H : fst (on_closing st) = Ok tt /\ serial_ready st1 = false).
  { unfold st1, on_closing, bind, get.
    destruct (serial_ready st) eqn:Hready; [| cbn; auto].
    destruct (release_all_returns (active_notes st) st Hbytes) as [H1 H2].
    destruct (release_all (active_notes st) st) as [r st2]. cbn [fst snd] in H1, H2.
    subst r. rewrite Hready in H2. unfold close_serial, modify. cbn [fst snd].
    split; [reflexivity |]. unfold serial_ready in H2 |- *.
    destruct (serial_conn st2) as [s2|]; [reflexivity | discriminate]. }
  destruct H as [Hok Hclosed]. split; [exact Hok |]. split; [exact Hclosed |]. split.
  - unfold on_closing, bind, get. now rewrite Hclosed.
  - pose proof (run_keeps quiet quiet_refl quiet_trans handle_quiet events st1 Hclosed)
      as [Hs _].
    unfold wire. now rewrite Hs.
Qed.

Lemma closing_is_final_witness :
  let st := run [KeyPress 1 0%float] (init_app (Some (MkSerial true [] [true; false]))) in
  let st1 := snd (on_closing st) in
  serial_ready st1 = false /\
  wire (run [KeyPress 2 1%float; ButtonPress "Rec" 0x52] st1) = wire st1.
Proof.
  intros st st1.
  assert (Hinv : notes_inv st).
  { apply run_inv, init_inv. now intros s [= <-]. }
  destruct (closing_is_final st [KeyPress 2 1%float; ButtonPress "Rec" 0x52] Hinv)
    as (_ & H1 & _ & H2).
  split; [exact H1 | exact H2].
Defined.
